(** * SimpleCalc: the expression buffer, the whitelist and the evaluator

    A shallow embedding of the calculator logic of the repository:
    - [script.js] (two copies of the basic calculator) and the animated
      variant, which share [append], [clearAll], [del], the whitelist with
      [%] and [evaluateExpression] (module [Basic]);
    - the extended variant with [preprocessExpression], the whitelist
      without [%], [applyFunction] and the memory register (module [Rich]).

    JavaScript strings are sequences of UTF-16 code units ([JSString]),
    JavaScript numbers are IEEE 754 binary64 values, [spec_float] with 53
    bits of precision ([Number]), the closure variable [buffer], the text of
    the display and the storage entry of the memory register are threaded as
    an explicit state ([calc]), and abrupt completions are an explicit result
    so that [try]/[catch] can be written out ([completion]).

    The calculator functions take the dynamic evaluation facility
    [new Function(body)()] as a parameter [run]; the general statements hold
    for every such facility.  [Engine] is a model of the facility on the
    texts that pass the whitelist, used for the concrete examples. *)

From Stdlib Require Import QArith Qpower Lqa.
Close Scope Q_scope.
From Stdlib Require Import ZArith NArith List Bool Ascii String Lia SpecFloat.
Import ListNotations.

(* ===================================================================== *)
(** * Strings of UTF-16 code units                                        *)
(* ===================================================================== *)

Module JSString.

Definition code_unit := N.
Definition jsstring := list code_unit.

(** Code unit of an ASCII character, and the string of an ASCII literal. *)
Definition ch (a : ascii) : code_unit := N_of_ascii a.
Definition js (s : string) : jsstring := map N_of_ascii (list_ascii_of_string s).

Definition eqb (a b : jsstring) : bool :=
  if list_eq_dec N.eq_dec a b then true else false.

(** [a < b] on strings: lexicographic on code units, a proper prefix is
    smaller (the abstract relational comparison on two strings). *)
Fixpoint ltb (a b : jsstring) : bool :=
  match a, b with
  | _, [] => false
  | [], _ :: _ => true
  | x :: a', y :: b' =>
      if N.ltb x y then true
      else if N.ltb y x then false
      else ltb a' b'
  end.

(** [a >= b] is [!(a < b)] and [a <= b] is [!(b < a)] (strings have no NaN). *)
Definition geb (a b : jsstring) : bool := negb (ltb a b).
Definition leb (a b : jsstring) : bool := negb (ltb b a).

(** WhiteSpace and LineTerminator code points: what [\s] matches and what
    [trim] strips. *)
Definition is_line_terminator (c : code_unit) : bool :=
  N.eqb c 10 || N.eqb c 13 || N.eqb c 8232 || N.eqb c 8233.

Definition is_white_space (c : code_unit) : bool :=
  N.eqb c 9 || N.eqb c 11 || N.eqb c 12 || N.eqb c 32 || N.eqb c 160
  || N.eqb c 5760 || (N.leb 8192 c && N.leb c 8202)
  || N.eqb c 8239 || N.eqb c 8287 || N.eqb c 12288 || N.eqb c 65279.

Definition is_space (c : code_unit) : bool :=
  is_white_space c || is_line_terminator c.

Definition is_digit (c : code_unit) : bool := N.leb 48 c && N.leb c 57.

Fixpoint trim_start (s : jsstring) : jsstring :=
  match s with
  | c :: s' => if is_space c then trim_start s' else s
  | [] => []
  end.

Definition trim_end (s : jsstring) : jsstring := rev (trim_start (rev s)).

(** [s.trim()] *)
Definition trim (s : jsstring) : jsstring := trim_end (trim_start s).

(** [s.slice(0, -1)]: everything but the last code unit; the empty string
    stays empty. *)
Definition slice_0_m1 (s : jsstring) : jsstring := removelast s.

Fixpoint starts_with (pat s : jsstring) : bool :=
  match pat, s with
  | [], _ => true
  | _ :: _, [] => false
  | p :: pat', c :: s' => N.eqb p c && starts_with pat' s'
  end.

(** [s.replace(/pat/g, repl)] for a pattern made of literal characters and
    a replacement without [$]: the non-overlapping matches, found left to
    right, are replaced.  [skip] counts the code units of a match that are
    still to be dropped. *)
Fixpoint replace_from (skip : nat) (pat repl s : jsstring) : jsstring :=
  match s with
  | [] => []
  | c :: s' =>
      match skip with
      | S k => replace_from k pat repl s'
      | O =>
          if starts_with pat s
          then repl ++ replace_from (List.length pat - 1) pat repl s'
          else c :: replace_from 0 pat repl s'
      end
  end.

Definition replace_all (pat repl s : jsstring) : jsstring :=
  replace_from 0 pat repl s.

Definition repeat_unit (c : code_unit) (n : Z) : jsstring :=
  repeat c (Z.to_nat n).

(** Decimal digits of a natural number, most significant first. *)
Fixpoint digits_aux (fuel : nat) (n : N) (acc : jsstring) : jsstring :=
  match fuel with
  | O => acc
  | S f =>
      let acc' := (48 + n mod 10)%N :: acc in
      if N.ltb n 10 then acc' else digits_aux f (n / 10)%N acc'
  end.

Definition decimal_digits (n : N) : jsstring :=
  digits_aux (S (N.to_nat (N.log2 n))) n [].

End JSString.
Import JSString.

(* ===================================================================== *)
(** * Completions: a value or a thrown exception                          *)
(* ===================================================================== *)

Inductive completion (A : Type) : Type :=
| Normal (a : A)
| Throw.
Arguments Normal {A} a.
Arguments Throw {A}.

Definition bind {A B} (c : completion A) (k : A -> completion B) : completion B :=
  match c with
  | Normal a => k a
  | Throw => Throw
  end.

(** [try { body } catch (e) { handler }] *)
Definition try_catch {A} (body handler : completion A) : completion A :=
  match body with
  | Normal a => Normal a
  | Throw => handler
  end.

Declare Scope completion_scope.
Delimit Scope completion_scope with completion.
Notation "x <- c ;; k" := (bind c (fun x => k))
  (at level 61, c at next level, right associativity) : completion_scope.
Notation "'try' b 'catch' h" := (try_catch b h)
  (at level 62, b at level 61, h at level 61) : completion_scope.

(* ===================================================================== *)
(** * Numbers: IEEE 754 binary64 and the conversions to and from strings  *)
(* ===================================================================== *)

Module Number.
Local Open Scope Z_scope.

Definition prec : Z := 53.
Definition emax : Z := 1024.

(** A Number value; finite values are kept canonical (what the rounding
    functions of [SpecFloat] return). *)
Definition number := spec_float.

Definition NaN : number := S754_nan.
Definition add : number -> number -> number := SFadd prec emax.
Definition sub : number -> number -> number := SFsub prec emax.
Definition mul : number -> number -> number := SFmul prec emax.
Definition div : number -> number -> number := SFdiv prec emax.
Definition neg : number -> number := SFopp.

Definition eqb (x y : number) : bool :=
  match x, y with
  | S754_zero a, S754_zero b => Bool.eqb a b
  | S754_infinity a, S754_infinity b => Bool.eqb a b
  | S754_nan, S754_nan => true
  | S754_finite a m e, S754_finite b m' e' =>
      Bool.eqb a b && Pos.eqb m m' && Z.eqb e e'
  | _, _ => false
  end.

(** The Number value of the rational [n / d] with sign [s]: round to
    nearest, ties to even, as for a quotient of two floats. *)
Definition of_ratio (s : bool) (n d : positive) : number :=
  let '(q, e, l) := SFdiv_core_binary prec emax (Zpos n) 0 (Zpos d) 0 in
  binary_round_aux prec emax s q e l.

(** The Number value of [digits * 10 ^ exp10] with sign [s]. *)
Definition of_decimal (s : bool) (digits : N) (exp10 : Z) : number :=
  match digits with
  | N0 => S754_zero s
  | Npos p =>
      if 0 <=? exp10
      then of_ratio s (p * Z.to_pos (10 ^ exp10)) 1
      else of_ratio s p (Z.to_pos (10 ^ (- exp10)))
  end.

Definition of_N (n : N) : number := of_decimal false n 0.

(** The exact value [m * 2 ^ e] as a fraction. *)
Definition ratio_of (m : positive) (e : Z) : positive * positive :=
  if 0 <=? e then ((m * Z.to_pos (2 ^ e))%positive, 1%positive)
  else (m, Z.to_pos (2 ^ (- e))).

Definition digits10 (p : positive) : Z :=
  Z.of_nat (List.length (decimal_digits (Npos p))).

(** The integer [n] with [10 ^ (n - 1) <= a / b < 10 ^ n]. *)
Definition decimal_exponent (a b : positive) : Z :=
  let k := digits10 a - digits10 b in
  let reaches :=
    if 0 <=? k then Zpos b * 10 ^ k <=? Zpos a
    else Zpos b <=? Zpos a * 10 ^ (- k) in
  if reaches then k + 1 else k.

(** Numerator and denominator of [(a / b) * 10 ^ sh]. *)
Definition scale10 (a b : positive) (sh : Z) : Z * Z :=
  if 0 <=? sh then (Zpos a * 10 ^ sh, Zpos b)
  else (Zpos a, Zpos b * 10 ^ (- sh)).

(** The integers next to [(a / b) * 10 ^ (k - n)], the closer one first
    (the even one on a tie). *)
Definition candidates (a b : positive) (n k : Z) : list Z :=
  let '(num, den) := scale10 a b (k - n) in
  let q := num / den in
  let r := num mod den in
  if r =? 0 then [q]
  else match 2 * r ?= den with
       | Lt => [q; q + 1]
       | Gt => [q + 1; q]
       | Eq => if Z.even q then [q; q + 1] else [q + 1; q]
       end.

Definition round_trips (x : number) (n k s : Z) : bool :=
  eqb x (of_decimal false (Z.to_N s) (n - k)).

(** Number::toString step 5: [n], [k], [s] with [k >= 1],
    [10 ^ (k - 1) <= s < 10 ^ k], the Number value of [s * 10 ^ (n - k)]
    equal to [x] and [k] as small as possible; among several [s] the one
    closest to [x].  Seventeen digits always suffice for binary64. *)
Fixpoint shortest_from (fuel : nat) (x : number) (a b : positive) (n k : Z) : Z * Z :=
  match fuel with
  | O => (hd 0 (candidates a b n k), k)
  | S f =>
      match find (round_trips x n k) (candidates a b n k) with
      | Some s => (s, k)
      | None => shortest_from f x a b n (k + 1)
      end
  end.

(** Digits of [s] and the exponent [n] of the shortest representation of
    the positive finite value [m * 2 ^ e]. *)
Definition shortest (m : positive) (e : Z) : jsstring * Z :=
  let '(a, b) := ratio_of m e in
  let n := decimal_exponent a b in
  let '(s, k) := shortest_from 17 (S754_finite false m e) a b n 1 in
  if s =? 10 ^ k then (decimal_digits (Z.to_N (10 ^ (k - 1))), n + 1)
  else (decimal_digits (Z.to_N s), n).

Definition sign_text (s : bool) : jsstring := if s then js "-" else [].

(** ["e+21"], ["e-7"]: the exponent part for the exponent [e]. *)
Definition exponent_text (e : Z) : jsstring :=
  js "e" ++ (if e <? 0 then js "-" else js "+") ++ decimal_digits (Z.abs_N e).

(** Number::toString(x, 10) *)
Definition toString (x : number) : jsstring :=
  match x with
  | S754_nan => js "NaN"
  | S754_zero _ => js "0"
  | S754_infinity s => sign_text s ++ js "Infinity"
  | S754_finite s m e =>
      let '(ds, n) := shortest m e in
      let k := Z.of_nat (List.length ds) in
      sign_text s ++
      (if (-5 <=? n) && (n <=? 21) then
         if k <=? n then ds ++ repeat_unit (ch "0") (n - k)
         else if 0 <? n then
           firstn (Z.to_nat n) ds ++ js "." ++ skipn (Z.to_nat n) ds
         else js "0." ++ repeat_unit (ch "0") (- n) ++ ds
       else
         match ds with
         | [d] => [d] ++ exponent_text (n - 1)
         | d :: rest => [d] ++ js "." ++ rest ++ exponent_text (n - 1)
         | [] => []
         end)
  end.

(** Number.prototype.toPrecision(p) for [1 <= p <= 100] (the source calls
    it with 12): [e] and [n] with [10 ^ (p - 1) <= n < 10 ^ p] and
    [n * 10 ^ (e - p + 1)] as close to [x] as possible, the larger on a tie. *)
Definition precision_digits (m : positive) (e2 : Z) (p : Z) : Z * Z :=
  let '(a, b) := ratio_of m e2 in
  let e := decimal_exponent a b - 1 in
  let '(num, den) := scale10 a b (p - 1 - e) in
  let q := num / den in
  let r := num mod den in
  let n := if den <=? 2 * r then q + 1 else q in
  if n =? 10 ^ p then (10 ^ (p - 1), e + 1) else (n, e).

Definition toPrecision (x : number) (p : Z) : jsstring :=
  match x with
  | S754_nan | S754_infinity _ => toString x
  | S754_zero _ =>
      if p =? 1 then js "0" else js "0." ++ repeat_unit (ch "0") (p - 1)
  | S754_finite s m e2 =>
      let '(n, e) := precision_digits m e2 p in
      let ds := decimal_digits (Z.to_N n) in
      sign_text s ++
      (if (e <? -6) || (p <=? e) then
         match ds with
         | [d] => [d] ++ exponent_text e
         | d :: rest => [d] ++ js "." ++ rest ++ exponent_text e
         | [] => []
         end
       else if e =? p - 1 then ds
       else if 0 <=? e then
         firstn (Z.to_nat (e + 1)) ds ++ js "." ++ skipn (Z.to_nat (e + 1)) ds
       else js "0." ++ repeat_unit (ch "0") (- (e + 1)) ++ ds)
  end.

(** Number.isFinite, Number.isInteger *)
Definition isFinite (x : number) : bool :=
  match x with
  | S754_zero _ | S754_finite _ _ _ => true
  | _ => false
  end.

Definition isInteger (x : number) : bool :=
  match x with
  | S754_zero _ => true
  | S754_finite _ m e =>
      if 0 <=? e then true else Zpos m mod 2 ^ (- e) =? 0
  | _ => false
  end.

(** Scanning of decimal literals in strings. *)
Fixpoint span_digits (s : jsstring) : jsstring * jsstring :=
  match s with
  | c :: s' =>
      if is_digit c
      then let '(ds, rest) := span_digits s' in (c :: ds, rest)
      else ([], s)
  | [] => ([], [])
  end.

Definition digits_value (radix : N) (ds : jsstring) : N :=
  fold_left (fun acc c => (radix * acc + (c - 48))%N) ds 0%N.

(** ExponentPart, when one is there: [e] or [E], an optional sign, digits. *)
Definition scan_exponent (s : jsstring) : Z * jsstring :=
  match s with
  | c :: s1 =>
      if N.eqb c (ch "e") || N.eqb c (ch "E") then
        let '(minus, s2) :=
          match s1 with
          | d :: t =>
              if N.eqb d (ch "+") then (false, t)
              else if N.eqb d (ch "-") then (true, t)
              else (false, s1)
          | [] => (false, s1)
          end in
        let '(ds, rest) := span_digits s2 in
        match ds with
        | [] => (0, s)
        | _ :: _ =>
            let v := Z.of_N (digits_value 10 ds) in
            (if minus then - v else v, rest)
        end
      else (0, s)
  | [] => (0, s)
  end.

(** The longest prefix that is a StrUnsignedDecimalLiteral other than
    [Infinity]: its digits, its decimal exponent and what follows it. *)
Definition scan_unsigned_decimal (s : jsstring) : option (N * Z * jsstring) :=
  let '(ip, s1) := span_digits s in
  let dotted :=
    match s1 with
    | c :: s2 => if N.eqb c (ch ".") then Some s2 else None
    | [] => None
    end in
  match dotted with
  | Some s2 =>
      let '(fp, s3) := span_digits s2 in
      match ip, fp with
      | [], [] => None
      | _, _ =>
          let '(ex, rest) := scan_exponent s3 in
          Some (digits_value 10 (ip ++ fp), ex - Z.of_nat (List.length fp), rest)
      end
  | None =>
      match ip with
      | [] => None
      | _ :: _ =>
          let '(ex, rest) := scan_exponent s1 in
          Some (digits_value 10 ip, ex, rest)
      end
  end.

(** The longest prefix that is a StrDecimalLiteral: its value and the rest. *)
Definition scan_decimal (s : jsstring) : option (number * jsstring) :=
  let '(minus, body) :=
    match s with
    | c :: t =>
        if N.eqb c (ch "+") then (false, t)
        else if N.eqb c (ch "-") then (true, t)
        else (false, s)
    | [] => (false, s)
    end in
  if starts_with (js "Infinity") body
  then Some (S754_infinity minus, skipn 8 body)
  else match scan_unsigned_decimal body with
       | Some (ds, ex, rest) => Some (of_decimal minus ds ex, rest)
       | None => None
       end.

(** The global function [parseFloat] on a string. *)
Definition parseFloat (s : jsstring) : number :=
  match scan_decimal (trim_start s) with
  | Some (x, _) => x
  | None => NaN
  end.

End Number.
Import Number.

(* ===================================================================== *)
(** * Regular expressions, as far as the whitelist needs them             *)
(* ===================================================================== *)

Module Regex.

(** Members of a character class: a range [a-z], one character, [\s]. *)
Inductive class_item : Type :=
| Range (lo hi : code_unit)
| Single (c : code_unit)
| SpaceEscape.

Definition item_matches (i : class_item) (c : code_unit) : bool :=
  match i with
  | Range lo hi => N.leb lo c && N.leb c hi
  | Single d => N.eqb d c
  | SpaceEscape => is_space c
  end.

Definition in_class (cls : list class_item) (c : code_unit) : bool :=
  existsb (fun i => item_matches i c) cls.

(** Terms of a pattern: [^], [$] (no [m] flag: the ends of the input) and
    a class under [+]. *)
Inductive term : Type :=
| AssertStart
| AssertEnd
| ClassPlus (cls : list class_item).

(** One or more characters of the class, then the continuation [k]; the
    longer repetitions are tried first. *)
Fixpoint plus_match (cls : list class_item) (k : jsstring -> bool)
    (s : jsstring) : bool :=
  match s with
  | [] => false
  | c :: s' => in_class cls c && (plus_match cls k s' || k s')
  end.

(** Does the pattern match at the head of [s]?  [at_start] tells whether
    that position is the start of the input. *)
Fixpoint match_terms (ts : list term) (at_start : bool) (s : jsstring) : bool :=
  match ts with
  | [] => true
  | AssertStart :: ts' => at_start && match_terms ts' at_start s
  | AssertEnd :: ts' =>
      match s with
      | [] => match_terms ts' at_start s
      | _ :: _ => false
      end
  | ClassPlus cls :: ts' => plus_match cls (match_terms ts' false) s
  end.

(** [re.test(s)] for a pattern without flags: a match at some position. *)
Fixpoint test_from (ts : list term) (at_start : bool) (s : jsstring) : bool :=
  match_terms ts at_start s
  || match s with
     | [] => false
     | _ :: s' => test_from ts false s'
     end.

Definition test (ts : list term) (s : jsstring) : bool := test_from ts true s.

End Regex.

(* ===================================================================== *)
(** * Values                                                              *)
(* ===================================================================== *)

(** What an expression written with the whitelisted characters can evaluate
    to: a number, a regular-expression object (from a literal such as [/1/]),
    a string (such an object added to something), or [undefined] (a [return]
    cut short by a line break or a comment). *)
Inductive value : Type :=
| VUndefined
| VNumber (x : number)
| VString (s : jsstring)
| VRegExp (source : jsstring).

(** [String(v)]; a regular expression prints as its literal. *)
Definition String_of (v : value) : jsstring :=
  match v with
  | VUndefined => js "undefined"
  | VNumber x => toString x
  | VString s => s
  | VRegExp source => js "/" ++ source ++ js "/"
  end.

(** StringToNumber: the whole trimmed string must be a numeric literal. *)
Definition is_hex_digit (c : code_unit) : bool :=
  is_digit c || (N.leb 65 c && N.leb c 70) || (N.leb 97 c && N.leb c 102).

Definition hex_value (c : code_unit) : N :=
  if is_digit c then c - 48
  else if N.leb 97 c then c - 87 else c - 55.

Definition radix_literal (radix : N) (ok : code_unit -> bool) (ds : jsstring) : number :=
  match ds with
  | [] => NaN
  | _ :: _ =>
      if forallb ok ds
      then of_N (fold_left (fun acc c => (radix * acc + hex_value c)%N) ds 0%N)
      else NaN
  end.

Definition StringToNumber (s : jsstring) : number :=
  match trim s with
  | [] => S754_zero false
  | t =>
      match t with
      | 48 :: p :: ds =>
          if N.eqb p (ch "x") || N.eqb p (ch "X")
          then radix_literal 16 is_hex_digit ds
          else if N.eqb p (ch "o") || N.eqb p (ch "O")
          then radix_literal 8 (fun c => N.leb 48 c && N.leb c 55) ds
          else if N.eqb p (ch "b") || N.eqb p (ch "B")
          then radix_literal 2 (fun c => N.leb 48 c && N.leb c 49) ds
          else match scan_decimal t with
               | Some (x, []) => x
               | _ => NaN
               end
      | _ => match scan_decimal t with
             | Some (x, []) => x
             | _ => NaN
             end
      end
  end%N.

(** ToNumber; an object goes through its string. *)
Definition ToNumber (v : value) : number :=
  match v with
  | VUndefined => NaN
  | VNumber x => x
  | VString s => StringToNumber s
  | VRegExp _ => StringToNumber (String_of v)
  end.

(* ===================================================================== *)
(** * The persisted memory register                                       *)
(* ===================================================================== *)

(** [localStorage], as far as the entry under [MEMORY_KEY] goes.  Access can
    be refused and a write can exceed the quota; both throw. *)
Record storage : Type := {
  accessible : bool;
  writable : bool;
  item : option jsstring
}.

Definition getItem (l : storage) : completion (option jsstring) :=
  if accessible l then Normal (item l) else Throw.

Definition setItem (l : storage) (v : jsstring) : completion storage :=
  if accessible l && writable l
  then Normal {| accessible := accessible l; writable := writable l; item := Some v |}
  else Throw.

Definition removeItem (l : storage) : completion storage :=
  if accessible l
  then Normal {| accessible := accessible l; writable := writable l; item := None |}
  else Throw.

(* ===================================================================== *)
(** * The calculator                                                      *)
(* ===================================================================== *)

(** The closure state: [buffer], the text shown by [displayEl] and the
    storage behind the memory register. *)
Record calc : Type := {
  buffer : jsstring;
  display : jsstring;
  local : storage
}.

Definition set_buffer (c : calc) (b : jsstring) : calc :=
  {| buffer := b; display := display c; local := local c |}.

Definition set_local (c : calc) (l : storage) : calc :=
  {| buffer := buffer c; display := display c; local := l |}.

Definition Error : jsstring := js "Error".

(** [buffer === '' ? '0' : buffer] *)
Definition display_of (b : jsstring) : jsstring :=
  match b with
  | [] => js "0"
  | _ :: _ => b
  end.

(** [displayEl.textContent = buffer === '' ? '0' : buffer] *)
Definition updateDisplay (c : calc) : calc :=
  {| buffer := buffer c; display := display_of (buffer c); local := local c |}.

(** [append], [clearAll] and [del] are the same in every variant. *)
Definition append (char : jsstring) (c : calc) : calc :=
  if JSString.eqb (buffer c) (js "0") && geb char (js "0") && leb char (js "9")
  then updateDisplay (set_buffer c char)
  else updateDisplay (set_buffer c (buffer c ++ char)).

Definition clearAll (c : calc) : calc := updateDisplay (set_buffer c []).

Definition del (c : calc) : calc :=
  updateDisplay (set_buffer c (slice_0_m1 (buffer c))).

(** The statement shared by [evaluateExpression] and [applyFunction]:
    [typeof r === 'number' && !Number.isInteger(r)
       ? parseFloat(r.toPrecision(12)).toString() : String(r)] *)
Definition format_result (r : value) : jsstring :=
  match r with
  | VNumber x =>
      if negb (isInteger x) then toString (parseFloat (toPrecision x 12))
      else String_of r
  | _ => String_of r
  end.

(** ** [script.js] (both copies) and the animated variant *)

Module Basic.

(** [/^[0-9+\-*/().%\s]+$/] *)
Definition allowed_class : list Regex.class_item :=
  [Regex.Range (ch "0") (ch "9"); Regex.Single (ch "+"); Regex.Single (ch "-");
   Regex.Single (ch "*"); Regex.Single (ch "/"); Regex.Single (ch "(");
   Regex.Single (ch ")"); Regex.Single (ch "."); Regex.Single (ch "%");
   Regex.SpaceEscape].

Definition allowed : list Regex.term :=
  [Regex.AssertStart; Regex.ClassPlus allowed_class; Regex.AssertEnd].

Definition sanitizeExpression (expr : jsstring) : bool :=
  Regex.test allowed expr.

Section WithEngine.

(** [new Function(body)()]: what running the function built from the
    text [body] completes with. *)
Variable run : jsstring -> completion value.

Local Open Scope completion_scope.

Definition evaluateExpression (c : calc) : completion calc :=
  let expr := trim (buffer c) in
  match expr with
  | [] => Normal c
  | _ :: _ =>
      if negb (sanitizeExpression expr)
      then Normal (updateDisplay (set_buffer c Error))
      else
        c' <- (try (result <- run (js "return " ++ expr) ;;
                    Normal (set_buffer c (format_result result)))
               catch Normal (set_buffer c Error)) ;;
        Normal (updateDisplay c')
  end.

(** What the click and key handlers can ask for. *)
Inductive operation : Type :=
| Append (char : jsstring)
| Clear
| Delete
| Equals.

Definition perform (op : operation) (c : calc) : completion calc :=
  match op with
  | Append char => Normal (append char c)
  | Clear => Normal (clearAll c)
  | Delete => Normal (del c)
  | Equals => evaluateExpression c
  end.

End WithEngine.

End Basic.

(** ** The extended variant: preprocessing, unary functions, memory *)

Module Rich.

(** The two patterns as the file spells them: six code units
    U+00EF U+00BF U+00BD U+00EF U+00BF U+00BD, and U+00C3 U+00B7. *)
Definition times_pattern : jsstring := [239; 191; 189; 239; 191; 189]%N.
Definition divide_pattern : jsstring := [195; 183]%N.

Definition preprocessExpression (expr : jsstring) : jsstring :=
  match expr with
  | [] => []
  | _ :: _ =>
      replace_all (js "%") (js "/100")
        (replace_all (js "^") (js "**")
           (replace_all divide_pattern (js "/")
              (replace_all times_pattern (js "*") expr)))
  end.

(** [/^[0-9+\-*/().\s]+$/] *)
Definition allowed_class : list Regex.class_item :=
  [Regex.Range (ch "0") (ch "9"); Regex.Single (ch "+"); Regex.Single (ch "-");
   Regex.Single (ch "*"); Regex.Single (ch "/"); Regex.Single (ch "(");
   Regex.Single (ch ")"); Regex.Single (ch "."); Regex.SpaceEscape].

Definition allowed : list Regex.term :=
  [Regex.AssertStart; Regex.ClassPlus allowed_class; Regex.AssertEnd].

Definition sanitizeExpression (expr : jsstring) : bool :=
  Regex.test allowed expr.

(** [memoryGet], [memorySet] and [memoryClear] swallow storage failures. *)
Definition memoryGet (c : calc) : number :=
  match getItem (local c) with
  | Normal None => S754_zero false
  | Normal (Some raw) =>
      let n := parseFloat raw in
      if isFinite n then n else S754_zero false
  | Throw => S754_zero false
  end.

Definition memorySet (v : number) (c : calc) : calc :=
  match setItem (local c) (String_of (VNumber v)) with
  | Normal l => set_local c l
  | Throw => c
  end.

Definition memoryClear (c : calc) : calc :=
  match removeItem (local c) with
  | Normal l => set_local c l
  | Throw => c
  end.

Definition memoryRecall (c : calc) : calc :=
  let val := memoryGet c in
  updateDisplay (set_buffer c (String_of (VNumber val))).

Section WithEngine.

Variable run : jsstring -> completion value.

Local Open Scope completion_scope.

Definition evaluateExpression (c : calc) : completion calc :=
  let raw := trim (buffer c) in
  match raw with
  | [] => Normal c
  | _ :: _ =>
      let pre := preprocessExpression raw in
      if negb (sanitizeExpression pre)
      then Normal (updateDisplay (set_buffer c Error))
      else
        c' <- (try (result <- run (js "return " ++ pre) ;;
                    Normal (set_buffer c (format_result result)))
               catch Normal (set_buffer c Error)) ;;
        Normal (updateDisplay c')
  end.

(** The [switch] of [applyFunction]; [None] is the [default: return]. *)
Definition unary (fn : jsstring) (v : value) : option number :=
  if JSString.eqb fn (js "sqrt") then Some (SFsqrt prec emax (ToNumber v))
  else if JSString.eqb fn (js "square") then Some (mul (ToNumber v) (ToNumber v))
  else if JSString.eqb fn (js "reciprocal") then
    Some (match v with
          | VNumber (S754_zero _) => NaN
          | _ => div (of_N 1) (ToNumber v)
          end)
  else if JSString.eqb fn (js "negate") then Some (neg (ToNumber v))
  else None.

(** Inside the [try], [inl] stands for the [return] of the [default]
    case, which skips the display update, and [inr] for falling through
    to it. *)
Definition applyFunction (fn : jsstring) (c : calc) : completion calc :=
  let raw := trim (buffer c) in
  match raw with
  | [] => Normal c
  | _ :: _ =>
      let pre := preprocessExpression raw in
      if negb (sanitizeExpression pre)
      then Normal (updateDisplay (set_buffer c Error))
      else
        r <- (try (v <- run (js "return " ++ pre) ;;
                   match unary fn v with
                   | Some out => Normal (inr (set_buffer c (format_result (VNumber out))))
                   | None => Normal (inl c)
                   end)
              catch Normal (inr (set_buffer c Error))) ;;
        match r with
        | inl c' => Normal c'
        | inr c' => Normal (updateDisplay c')
        end
  end.

(** [null] is [None]. *)
Definition evaluateForMemory (c : calc) : completion (option number) :=
  let raw := trim (buffer c) in
  match raw with
  | [] => Normal None
  | _ :: _ =>
      let pre := preprocessExpression raw in
      if negb (sanitizeExpression pre) then Normal None
      else
        try (val <- run (js "return " ++ pre) ;;
             Normal (Some (match val with
                           | VNumber x => x
                           | _ => parseFloat (String_of val)
                           end)))
        catch Normal None
  end.

Definition memoryAdd (c : calc) : completion calc :=
  val <- evaluateForMemory c ;;
  match val with
  | None => Normal c
  | Some v => Normal (memorySet (add (memoryGet c) v) c)
  end.

Definition memorySub (c : calc) : completion calc :=
  val <- evaluateForMemory c ;;
  match val with
  | None => Normal c
  | Some v => Normal (memorySet (sub (memoryGet c) v) c)
  end.

(** What the click and key handlers can ask for. *)
Inductive operation : Type :=
| Append (char : jsstring)
| Clear
| Delete
| Equals
| Func (fn : jsstring)
| MemClear
| MemRecall
| MemAdd
| MemSub.

Definition perform (op : operation) (c : calc) : completion calc :=
  match op with
  | Append char => Normal (append char c)
  | Clear => Normal (clearAll c)
  | Delete => Normal (del c)
  | Equals => evaluateExpression c
  | Func fn => applyFunction fn c
  | MemClear => Normal (memoryClear c)
  | MemRecall => Normal (memoryRecall c)
  | MemAdd => memoryAdd c
  | MemSub => memorySub c
  end.

End WithEngine.

End Rich.

(* ===================================================================== *)
(** * The dynamic evaluation facility on whitelisted text                 *)
(* ===================================================================== *)

(** [new Function('return ' + pre)()] for a text [pre] written with the
    characters of the whitelist: the ECMAScript lexical grammar (white
    space, line terminators, comments, decimal and legacy octal literals,
    regular-expression literals, punctuators), the expression grammar that
    these tokens can form, automatic semicolon insertion, and evaluation on
    binary64 numbers.  The function body is sloppy-mode code. *)
Module Engine.
Local Open Scope Z_scope.

(** ** Arithmetic that [SpecFloat] does not provide *)

(** Number::remainder: the sign of the dividend, exact. *)
Definition rem (n d : number) : number :=
  match n, d with
  | S754_nan, _ | _, S754_nan => NaN
  | S754_infinity _, _ => NaN
  | _, S754_infinity _ => n
  | _, S754_zero _ => NaN
  | S754_zero _, _ => n
  | S754_finite sn mn en, S754_finite _ md ed =>
      let e0 := Z.min en ed in
      let a := Zpos mn * 2 ^ (en - e0) in
      let b := Zpos md * 2 ^ (ed - e0) in
      binary_normalize prec emax (cond_Zopp sn (a mod b)) e0 sn
  end.

Definition is_odd_integer (x : number) : bool :=
  match x with
  | S754_finite _ m e =>
      if 0 <=? e then (e =? 0) && Z.odd (Zpos m)
      else (Zpos m mod 2 ^ (- e) =? 0) && Z.odd (Zpos m / 2 ^ (- e))
  | _ => false
  end.

Definition positive_sign (x : number) : bool :=
  match x with
  | S754_finite false _ _ | S754_infinity false => true
  | _ => false
  end.

(** Number::exponentiate.  Its last step is implementation-approximated,
    so the host's approximation [pow_approx] is a parameter. *)
Definition pow (pow_approx : number -> number -> number)
    (base exponent : number) : number :=
  match exponent with
  | S754_nan => NaN
  | S754_zero _ => of_N 1
  | _ =>
      match base with
      | S754_nan => NaN
      | S754_infinity false =>
          if positive_sign exponent then S754_infinity false else S754_zero false
      | S754_infinity true =>
          if positive_sign exponent
          then S754_infinity (is_odd_integer exponent)
          else S754_zero (is_odd_integer exponent)
      | S754_zero false =>
          if positive_sign exponent then S754_zero false else S754_infinity false
      | S754_zero true =>
          if positive_sign exponent
          then S754_zero (is_odd_integer exponent)
          else S754_infinity (is_odd_integer exponent)
      | S754_finite sb _ _ =>
          match exponent with
          | S754_infinity se =>
              match SFcompare (SFabs base) (of_N 1) with
              | Some Gt => if se then S754_zero false else S754_infinity false
              | Some Lt => if se then S754_infinity false else S754_zero false
              | _ => NaN
              end
          | _ =>
              if sb && negb (isInteger exponent) then NaN
              else pow_approx base exponent
          end
      end
  end.

(** ** Tokens *)

Inductive punct : Type :=
| LParen | RParen | Dot | Ellipsis
| Plus | Minus | Star | Slash | Percent | StarStar
| PlusPlus | MinusMinus.

Inductive token : Type :=
| TNum (x : number)
| TRegExp (source : jsstring)
| TPunct (p : punct).

(** Length of a [//] comment's text: up to the next line terminator. *)
Fixpoint until_line_end (s : jsstring) : nat :=
  match s with
  | [] => O
  | c :: s' => if is_line_terminator c then O else S (until_line_end s')
  end.

(** After [/*]: the number of code units up to and including the closing
    [*/], and whether a line terminator is among them. *)
Fixpoint block_comment (s : jsstring) : option (nat * bool) :=
  match s with
  | [] => None
  | c :: s' =>
      if N.eqb c (ch "*") && starts_with (js "/") s' then Some (2%nat, false)
      else match block_comment s' with
           | Some (n, nl) => Some (S n, nl || is_line_terminator c)
           | None => None
           end
  end.

(** After the opening [/] of a regular-expression literal: its body, up to
    the closing [/].  A line terminator or the end of the text first is an
    error.  (The whitelist has no backslash and no bracket.) *)
Fixpoint regex_body (s : jsstring) : option jsstring :=
  match s with
  | [] => None
  | c :: s' =>
      if N.eqb c (ch "/") then Some []
      else if is_line_terminator c then None
      else option_map (cons c) (regex_body s')
  end.

(** Validity of a pattern over the whitelist: parentheses group and
    balance, [*] and [+] quantify the atom before them, every other
    character is an atom. *)
Fixpoint valid_pattern (depth : nat) (quantifiable : bool) (s : jsstring) : bool :=
  match s with
  | [] => Nat.eqb depth 0
  | c :: s' =>
      if N.eqb c (ch "(") then valid_pattern (S depth) false s'
      else if N.eqb c (ch ")") then
        match depth with
        | O => false
        | S d => valid_pattern d true s'
        end
      else if N.eqb c (ch "*") || N.eqb c (ch "+") then
        quantifiable && valid_pattern depth false s'
      else valid_pattern depth true s'
  end.

Definition is_octal_digit (c : code_unit) : bool := N.leb 48 c && N.leb c 55.

(** A numeric literal at the head of [s] (a digit, or a dot and a digit):
    its value and its length.  A literal [0] followed by octal digits only
    is a legacy octal literal and takes no fraction. *)
Definition scan_numeric (s : jsstring) : number * nat :=
  let '(ip, s1) := span_digits s in
  let legacy_octal :=
    match ip with
    | 48%N :: _ :: _ => forallb is_octal_digit ip
    | _ => false
    end in
  if legacy_octal then (of_N (digits_value 8 ip), List.length ip)
  else
    match s1 with
    | c :: s2 =>
        if N.eqb c (ch ".") then
          let '(fp, _) := span_digits s2 in
          (of_decimal false (digits_value 10 (ip ++ fp)) (- Z.of_nat (List.length fp)),
           S (List.length ip + List.length fp))
        else (of_N (digits_value 10 ip), List.length ip)
    | [] => (of_N (digits_value 10 ip), List.length ip)
    end.

Inductive scanned : Type :=
| ScanError
| ScanComment (len : nat) (has_nl : bool)
| ScanToken (t : token) (len : nat) (operand_end : bool).

Definition punct1 (p : punct) : scanned := ScanToken (TPunct p) 1 false.

(** The input element at the head of [s] (not white space).
    [operand_end] tells whether the previous token ended an operand, which
    decides between division and a regular-expression literal and between
    a postfix and a prefix [++]; [nl] whether a line terminator separates
    the previous token from this one. *)
Definition scan (operand_end nl : bool) (s : jsstring) : scanned :=
  match s with
  | [] => ScanError
  | c :: s' =>
      if N.eqb c (ch "/") then
        if starts_with (js "/") s' then ScanComment (S (until_line_end s')) false
        else if starts_with (js "*") s' then
          match block_comment (tl s') with
          | Some (n, has_nl) => ScanComment (2 + n) has_nl
          | None => ScanError
          end
        else if operand_end then punct1 Slash
        else
          match regex_body s' with
          | Some body =>
              let after := skipn (S (List.length body)) s' in
              if match after with f :: _ => is_digit f | [] => false end
              then ScanError
              else if valid_pattern 0 false body
              then ScanToken (TRegExp body) (2 + List.length body) true
              else ScanError
          | None => ScanError
          end
      else if is_digit c then
        let '(x, len) := scan_numeric s in ScanToken (TNum x) len true
      else if N.eqb c (ch ".") then
        match s' with
        | d :: s'' =>
            if is_digit d then
              let '(x, len) := scan_numeric s in ScanToken (TNum x) len true
            else if N.eqb d (ch ".") && starts_with (js ".") s''
            then ScanToken (TPunct Ellipsis) 3 false
            else ScanToken (TPunct Dot) 1 true
        | [] => ScanToken (TPunct Dot) 1 true
        end
      else if N.eqb c (ch "+") then
        if starts_with (js "+") s'
        then ScanToken (TPunct PlusPlus) 2 (operand_end && negb nl)
        else punct1 Plus
      else if N.eqb c (ch "-") then
        if starts_with (js "-") s'
        then ScanToken (TPunct MinusMinus) 2 (operand_end && negb nl)
        else punct1 Minus
      else if N.eqb c (ch "*") then
        if starts_with (js "*") s'
        then ScanToken (TPunct StarStar) 2 false
        else punct1 Star
      else if N.eqb c (ch "%") then punct1 Percent
      else if N.eqb c (ch "(") then punct1 LParen
      else if N.eqb c (ch ")") then ScanToken (TPunct RParen) 1 true
      else ScanError
  end.

(** The tokens of [s], each with the flag "a line terminator precedes it".
    [skip] counts the code units of the current input element that are
    still to be passed over.  [None] is a SyntaxError. *)
Fixpoint lex (skip : nat) (nl operand_end : bool) (s : jsstring)
  : option (list (bool * token)) :=
  match s with
  | [] => Some []
  | c :: s' =>
      match skip with
      | S k => lex k nl operand_end s'
      | O =>
          if is_line_terminator c then lex 0 true operand_end s'
          else if is_white_space c then lex 0 nl operand_end s'
          else
            match scan operand_end nl s with
            | ScanError => None
            | ScanComment len has_nl => lex (len - 1) (nl || has_nl) operand_end s'
            | ScanToken t len oe =>
                option_map (cons (nl, t)) (lex (len - 1) false oe s')
            end
      end
  end.

(** ** Expressions *)

Inductive binop : Type := Add | Sub | Mul | Div | Rem | Pow.

Inductive expr : Type :=
| ENum (x : number)
| ERegExp (source : jsstring)
| EParen (e : expr)
| ECall (callee : expr)
| ECallWith (callee arg : expr)
| EUpdate (target : expr)
| EUnary (minus : bool) (e : expr)
| EBinary (op : binop) (l r : expr).

(** Precedence of the binary operators; [**] associates to the right. *)
Definition prec_of (op : binop) : nat :=
  match op with
  | Add | Sub => 1
  | Mul | Div | Rem => 2
  | Pow => 3
  end.

(** The operand of [++] or [--] must be an assignment target.  Of the
    expressions here only a call is one (in sloppy code of a web browser,
    where it fails when run), possibly inside parentheses. *)
Fixpoint update_target (e : expr) : bool :=
  match e with
  | ECall _ | ECallWith _ _ => true
  | EParen e' => update_target e'
  | _ => false
  end.

(** What is open to the left of the operand being read. *)
Inductive frame : Type :=
| FParen
| FArgs (callee : expr)
| FSpread (callee : expr)
| FUnary (minus : bool)
| FPrefix
| FBinary (op : binop) (l : expr).

(** Close the operators on the stack that bind tighter than an operator of
    precedence [p] about to follow [e] ([p = 0]: all of them).  A unary
    operator may not be the base of [**]. *)
Fixpoint reduce (p : nat) (e : expr) (stack : list frame)
  : option (expr * list frame) :=
  match stack with
  | FUnary minus :: st =>
      if Nat.eqb p 3 then None else reduce p (EUnary minus e) st
  | FPrefix :: st =>
      if update_target e then reduce p (EUpdate e) st else None
  | FBinary op l :: st =>
      if Nat.ltb p (prec_of op) || (Nat.eqb p (prec_of op) && negb (Nat.eqb p 3))
      then reduce p (EBinary op l e) st
      else Some (e, stack)
  | _ => Some (e, stack)
  end.

(** The parser is either waiting for an operand, or has read the operand
    [e]; [lhs] tells whether [e] may still be called or take a postfix
    [++] (it is a left-hand-side expression). *)
Inductive mode : Type :=
| Operand
| After (e : expr) (lhs : bool).

Record pstate : Type := {
  pmode : mode;
  pstack : list frame;
  finished : list expr   (* the statements completed so far, last first *)
}.

Definition binop_of (p : punct) : option binop :=
  match p with
  | Plus => Some Add
  | Minus => Some Sub
  | Star => Some Mul
  | Slash => Some Div
  | Percent => Some Rem
  | StarStar => Some Pow
  | _ => None
  end.

(** A token where an operand is expected. *)
Definition operand_step (t : token) (stack : list frame) (done : list expr)
  : option pstate :=
  match t with
  | TNum x => Some {| pmode := After (ENum x) true; pstack := stack; finished := done |}
  | TRegExp r => Some {| pmode := After (ERegExp r) true; pstack := stack; finished := done |}
  | TPunct LParen => Some {| pmode := Operand; pstack := FParen :: stack; finished := done |}
  | TPunct Plus => Some {| pmode := Operand; pstack := FUnary false :: stack; finished := done |}
  | TPunct Minus => Some {| pmode := Operand; pstack := FUnary true :: stack; finished := done |}
  | TPunct PlusPlus | TPunct MinusMinus =>
      Some {| pmode := Operand; pstack := FPrefix :: stack; finished := done |}
  | TPunct RParen =>
      match stack with
      | FArgs callee :: st =>
          Some {| pmode := After (ECall callee) true; pstack := st; finished := done |}
      | _ => None
      end
  | TPunct Ellipsis =>
      match stack with
      | FArgs callee :: st =>
          Some {| pmode := Operand; pstack := FSpread callee :: st; finished := done |}
      | _ => None
      end
  | TPunct _ => None
  end.

(** A token that cannot continue the expression ends the statement when a
    line terminator precedes it and no parenthesis is open: a semicolon is
    inserted, and the token starts the next statement. *)
Definition insert_semicolon (nl : bool) (t : token) (e : expr)
    (stack : list frame) (done : list expr) : option pstate :=
  if nl then
    match reduce 0 e stack with
    | Some (e', []) => operand_step t [] (e' :: done)
    | _ => None
    end
  else None.

(** A token after the operand [e]. *)
Definition after_step (nl : bool) (t : token) (e : expr) (lhs : bool)
    (stack : list frame) (done : list expr) : option pstate :=
  match t with
  | TPunct LParen =>
      if lhs
      then Some {| pmode := Operand; pstack := FArgs e :: stack; finished := done |}
      else insert_semicolon nl t e stack done
  | TPunct PlusPlus | TPunct MinusMinus =>
      if lhs && negb nl then
        if update_target e
        then Some {| pmode := After (EUpdate e) false; pstack := stack; finished := done |}
        else None
      else insert_semicolon nl t e stack done
  | TPunct RParen =>
      match reduce 0 e stack with
      | Some (e', FParen :: st) =>
          Some {| pmode := After (EParen e') true; pstack := st; finished := done |}
      | Some (e', FArgs callee :: st) | Some (e', FSpread callee :: st) =>
          Some {| pmode := After (ECallWith callee e') true; pstack := st; finished := done |}
      | _ => None
      end
  | TPunct Dot => None
  | TPunct p =>
      match binop_of p with
      | Some op =>
          match reduce (prec_of op) e stack with
          | Some (e', st) =>
              Some {| pmode := Operand; pstack := FBinary op e' :: st; finished := done |}
          | None => None
          end
      | None => insert_semicolon nl t e stack done
      end
  | _ => insert_semicolon nl t e stack done
  end.

Definition step (nl : bool) (t : token) (st : pstate) : option pstate :=
  match pmode st with
  | Operand => operand_step t (pstack st) (finished st)
  | After e lhs => after_step nl t e lhs (pstack st) (finished st)
  end.

(** The statements of a token sequence, in order.  [None] is a SyntaxError. *)
Fixpoint statements (ts : list (bool * token)) (st : pstate) : option (list expr) :=
  match ts with
  | [] =>
      match pmode st with
      | Operand =>
          match pstack st, finished st with
          | [], [] => Some []
          | _, _ => None
          end
      | After e _ =>
          match reduce 0 e (pstack st) with
          | Some (e', []) => Some (rev (e' :: finished st))
          | _ => None
          end
      end
  | (nl, t) :: ts' =>
      match step nl t st with
      | Some st' => statements ts' st'
      | None => None
      end
  end.

Definition parse (ts : list (bool * token)) : option (list expr) :=
  statements ts {| pmode := Operand; pstack := []; finished := [] |}.

(** ** Evaluation *)

Section Evaluation.

Variable pow_approx : number -> number -> number.

Local Open Scope completion_scope.

Definition arith (op : binop) (x y : number) : number :=
  match op with
  | Add => add x y
  | Sub => sub x y
  | Mul => mul x y
  | Div => div x y
  | Rem => rem x y
  | Pow => pow pow_approx x y
  end.

(** ToPrimitive leaves a string or an object as a string. *)
Definition stringy (v : value) : bool :=
  match v with
  | VString _ | VRegExp _ => true
  | _ => false
  end.

Definition binary (op : binop) (l r : value) : value :=
  match op with
  | Add =>
      if stringy l || stringy r
      then VString (String_of l ++ String_of r)
      else VNumber (add (ToNumber l) (ToNumber r))
  | _ => VNumber (arith op (ToNumber l) (ToNumber r))
  end.

(** A call evaluates the callee and the argument and then fails, since
    no value here is a function; [++] and [--] evaluate their operand, a
    call. *)
Fixpoint eval (e : expr) : completion value :=
  match e with
  | ENum x => Normal (VNumber x)
  | ERegExp r => Normal (VRegExp r)
  | EParen e' => eval e'
  | ECall callee => _ <- eval callee ;; Throw
  | ECallWith callee arg => _ <- eval callee ;; _ <- eval arg ;; Throw
  | EUpdate target => _ <- eval target ;; Throw
  | EUnary minus e' =>
      v <- eval e' ;;
      Normal (VNumber (if minus then neg (ToNumber v) else ToNumber v))
  | EBinary op l r =>
      lv <- eval l ;;
      rv <- eval r ;;
      Normal (binary op lv rv)
  end.

(** The function whose body is [return ] followed by [pre], called:
    [return] takes the first statement as its operand unless a line
    terminator comes first; the statements after it are parsed and never
    run. *)
Definition call_return (pre : jsstring) : completion value :=
  match lex 0 false false pre with
  | None => Throw
  | Some ts =>
      match parse ts with
      | None => Throw
      | Some stmts =>
          match ts, stmts with
          | (false, _) :: _, e :: _ => eval e
          | _, _ => Normal VUndefined
          end
      end
  end.

(** [new Function(body)()].  The model covers the bodies the calculator
    builds: [return ] followed by whitelisted characters.  On any other
    text, which the calculator never passes, it answers [Throw]. *)
Definition run (body : jsstring) : completion value :=
  if starts_with (js "return ") body
     && forallb (Regex.in_class Basic.allowed_class) (skipn 7 body)
  then call_return (skipn 7 body)
  else Throw.

End Evaluation.

End Engine.

(* ===================================================================== *)
(** * Sample states and the vocabulary of the statements                  *)
(* ===================================================================== *)

(** The class as the specification writes it, [[0-9+\-*/().\s]]: a decimal
    digit, one of the seven marks, or white space. *)
Definition in_spec_class (c : code_unit) : Prop :=
  (48 <= c <= 57)%N
  \/ In c [ch "+"; ch "-"; ch "*"; ch "/"; ch "("; ch ")"; ch "."]
  \/ is_space c = true.

Definition fresh_storage : storage :=
  {| accessible := true; writable := true; item := None |}.

Definition with_buffer (b : jsstring) : calc :=
  {| buffer := b; display := js "0"; local := fresh_storage |}.


(** The formatting of a numeric result as the specification words it: an
    integer is printed directly; any other number is written with twelve
    significant digits, read back, and printed. *)
Definition formatted (x : number) : jsstring :=
  if isInteger x then toString x
  else toString (parseFloat (toPrecision x 12)).

Definition error_state (c : calc) : calc :=
  {| buffer := Error; display := Error; local := local c |}.

(** A stand-in for the host's approximation of powers, for closed examples. *)
Definition pow_sample (base exponent : number) : number := base.


(** What [preprocess] does to one character: [^] becomes [**], [%] becomes
    [/100], anything else stays. *)
Definition rewrite_unit (x : code_unit) : jsstring :=
  if N.eqb x (ch "^") then js "**"
  else if N.eqb x (ch "%") then js "/100"
  else [x].

(** The multiplication sign U+00D7 and the division sign U+00F7. *)
Definition times_glyph : code_unit := 215%N.
Definition divide_glyph : code_unit := 247%N.

(** A number written as a decimal literal, and the evaluation of a text by
    the modelled facility, for examples. *)
Definition num (literal : string) : value := VNumber (parseFloat (js literal)).

Definition evaluated (pre : jsstring) : completion value :=
  Engine.run pow_sample (js "return " ++ pre).

Definition line_feed : jsstring := [10%N].

(** [10 ^ (i - j) <= a / b], written without fractions. *)
Definition reaches10 (a b i j : Z) : Prop := (b * 10 ^ i <= a * 10 ^ j)%Z.

(** Rounding to twelve significant digits, as the specification words it and
    without reference to [toPrecision]: the positive value [a / b] lies in
    the decade [10 ^ e0 <= a / b < 10 ^ (e0 + 1)], [n0] is the integer
    nearest to [(a / b) / 10 ^ (e0 - 11)] (the larger one on a tie), and the
    rounded decimal is [n * 10 ^ (e - 11)] with twelve digits [n]: these are
    [n0] and [e0], unless the rounding reached [10 ^ 12], which is written
    [1.00000000000] one decade up. *)
Definition rounds_to_12_digits (a b : positive) (n e : Z) : Prop :=
  (10 ^ 11 <= n < 10 ^ 12
   /\ exists e0 n0 : Z,
       reaches10 (Zpos a) (Zpos b) (Z.max e0 0) (Z.max (- e0) 0)
       /\ ~ reaches10 (Zpos a) (Zpos b) (Z.max (e0 + 1) 0) (Z.max (- (e0 + 1)) 0)
       /\ 2 * (Zpos a * 10 ^ Z.max (11 - e0) 0) - Zpos b * 10 ^ Z.max (e0 - 11) 0
          < 2 * n0 * (Zpos b * 10 ^ Z.max (e0 - 11) 0)
          <= 2 * (Zpos a * 10 ^ Z.max (11 - e0) 0) + Zpos b * 10 ^ Z.max (e0 - 11) 0
       /\ ((n0 < 10 ^ 12 /\ n = n0 /\ e = e0)
           \/ (n0 = 10 ^ 12 /\ n = 10 ^ 11 /\ e = e0 + 1)))%Z.

(** The text of a numeric result, as the specification words it: an integer
    is printed directly, as are NaN and the infinities, for which there is
    nothing to round; any other number [m * 2 ^ e2] is rounded to twelve
    significant digits, and what is printed is the Number that the rounded
    decimal denotes. *)
Definition formats_as (x : number) (text : jsstring) : Prop :=
  match x with
  | S754_finite s m e2 =>
      if isInteger x then text = toString x
      else exists n e : Z,
          rounds_to_12_digits (fst (ratio_of m e2)) (snd (ratio_of m e2)) n e
          /\ text = toString (of_decimal s (Z.to_N n) (e - 11))
  | _ => text = toString x
  end.

(** No digit follows. *)
Definition digits_end (rest : jsstring) : Prop :=
  match rest with
  | [] => True
  | c :: _ => is_digit c = false
  end.

(** ** The vocabulary of the rounding of fractions *)

(** The record that [shr] keeps for the positive fraction [A / B]: its
    integer part, whether the first bit after the point is set, and whether
    anything follows that bit. *)
Definition shr_of (A B : Z) : shr_record :=
  {| shr_m := (A / B)%Z;
     shr_r := Z.odd (2 * A / B);
     shr_s := negb (2 * A mod B =? 0)%Z |}.

(** The integer that [round_nearest_even] picks for the fraction [A / B]. *)
Definition nearest_even (A B : Z) : Z :=
  round_nearest_even (A / B) (loc_of_shr_record (shr_of A B)).

(** What [binary_round_aux] does once the first shift is done. *)
Definition round_shifted (s : bool) (shifted : shr_record * Z) : number :=
  let '(mrs', e') := shifted in
  let '(mrs'', e'') :=
    shr_fexp 53 1024 (round_nearest_even (shr_m mrs') (loc_of_shr_record mrs')) e'
      loc_Exact in
  match shr_m mrs'' with
  | Z0 => S754_zero s
  | Zpos m => if (e'' <=? 1024 - 53)%Z then S754_finite s m e'' else S754_infinity s
  | Zneg _ => S754_nan
  end.

(** Powers of two and of ten with any integer exponent, the value of a
    fraction of positive integers and the value of the decimal
    [c * 10 ^ p], as rational numbers. *)
Definition Q2 (z : Z) : Q := (2 ^ z)%Q.
Definition Q10 (z : Z) : Q := (10 ^ z)%Q.
Definition Qratio (n d : positive) : Q := (inject_Z (Zpos n) / inject_Z (Zpos d))%Q.
Definition Qdec (c : Z) (p : Z) : Q := (inject_Z c * Q10 p)%Q.

(** [2 ^ (mu - 1) <= r < 2 ^ mu] *)
Definition bracket2 (r : Q) (mu : Z) : Prop := (Q2 (mu - 1) <= r /\ r < Q2 mu)%Q.

(** The text that [String] writes for the digits [ds] of a positive value
    whose decimal point stands after [n] of them (Number::toString): plain
    digits, digits with a point, or the exponential notation outside
    [1e-6 .. 1e21]. *)
Definition decimal_text (ds : jsstring) (n : Z) : jsstring :=
  (let k := Z.of_nat (List.length ds) in
   if (-5 <=? n) && (n <=? 21) then
     if k <=? n then ds ++ repeat_unit (ch "0") (n - k)
     else if 0 <? n then
       firstn (Z.to_nat n) ds ++ js "." ++ skipn (Z.to_nat n) ds
     else js "0." ++ repeat_unit (ch "0") (- n) ++ ds
   else
     match ds with
     | [d] => [d] ++ exponent_text (n - 1)
     | d :: rest => [d] ++ js "." ++ rest ++ exponent_text (n - 1)
     | [] => []
     end)%Z.

(** The digits of [n] without the zeros at their end. *)
Fixpoint drop_trailing_zeros (fuel : nat) (n : Z) : Z :=
  match fuel with
  | O => n
  | S f => if (n mod 10 =? 0)%Z then drop_trailing_zeros f (n / 10)%Z else n
  end.

(** The value of a finite number that is an integer. *)
Definition integer_value (m : positive) (e2 : Z) : Z :=
  (if 0 <=? e2 then Zpos m * 2 ^ e2 else Zpos m / 2 ^ (- e2))%Z.

(** The text of a number that was rounded to the twelve digits [n] with the
    exponent [e], as the specification words it: the sign, and the digits
    without the zeros at their end, laid out for the decade [e]. *)
Definition twelve_digit_text (s : bool) (n e : Z) : jsstring :=
  sign_text s
  ++ decimal_text (decimal_digits (Z.to_N (drop_trailing_zeros 12 n))) (e + 1).

(** What each operation of the extended variant leaves in a buffer that held
    ["Error"]. *)
Definition after_error (mem : number) (op : Rich.operation) : jsstring :=
  match op with
  | Rich.Append char => Error ++ char
  | Rich.Clear => []
  | Rich.Delete => js "Erro"
  | Rich.MemRecall => toString mem
  | _ => Error
  end.

(* ===================================================================== *)
(** * The input handlers                                                  *)
(* ===================================================================== *)

(** The click handler of the [.btn] elements and the [keydown] handler of
    the window.  The animation calls of the animated and extended variants
    act on class lists only, which are not part of [calc], and are left
    out; the handlers of [script.js] have none. *)
Module Input.

(** [s.includes(k)]: [k] occurs in [s]. *)
Fixpoint includes (s k : jsstring) : bool :=
  starts_with k s
  || match s with
     | [] => false
     | _ :: s' => includes s' k
     end.

(** A button as the click handler reads it: [getAttribute] answers [null]
    ([None]) for an attribute that is not there. *)
Record button : Type := {
  data_value : option jsstring;
  data_action : option jsstring;
  data_func : option jsstring
}.

(** [attr === 'literal'] *)
Definition attr_is (attr : option jsstring) (literal : jsstring) : bool :=
  match attr with
  | Some a => JSString.eqb a literal
  | None => false
  end.

Section WithEngine.

Variable run : jsstring -> completion value.

Local Open Scope completion_scope.

(** [script.js] and the animated variant. *)
Definition basic_click (btn : button) (c : calc) : completion calc :=
  if attr_is (data_action btn) (js "clear") then Normal (clearAll c)
  else if attr_is (data_action btn) (js "delete") then Normal (del c)
  else if attr_is (data_action btn) (js "equals") then Basic.evaluateExpression run c
  else match data_value btn with
       | Some (u :: val) => Normal (append (u :: val) c)
       | _ => Normal c
       end.

(** The extended variant: memory actions, then [data-func], then
    [data-value]. *)
Definition rich_click (btn : button) (c : calc) : completion calc :=
  if attr_is (data_action btn) (js "clear") then Normal (clearAll c)
  else if attr_is (data_action btn) (js "delete") then Normal (del c)
  else if attr_is (data_action btn) (js "equals") then Rich.evaluateExpression run c
  else
    match data_action btn with
    | Some (a :: action) =>
        if starts_with (js "mem-") (a :: action) then
          if JSString.eqb (a :: action) (js "mem-clear") then Normal (Rich.memoryClear c)
          else if JSString.eqb (a :: action) (js "mem-recall") then Normal (Rich.memoryRecall c)
          else if JSString.eqb (a :: action) (js "mem-add") then Rich.memoryAdd run c
          else if JSString.eqb (a :: action) (js "mem-sub") then Rich.memorySub run c
          else Normal c
        else
          match data_func btn with
          | Some (f :: fn) => Rich.applyFunction run (f :: fn) c
          | _ =>
              match data_value btn with
              | Some (u :: val) => Normal (append (u :: val) c)
              | _ => Normal c
              end
          end
    | _ =>
        match data_func btn with
        | Some (f :: fn) => Rich.applyFunction run (f :: fn) c
        | _ =>
            match data_value btn with
            | Some (u :: val) => Normal (append (u :: val) c)
            | _ => Normal c
            end
        end
    end.

(** The [keydown] handlers: the new state and whether [preventDefault] was
    called.  [extra] is the extended variant's [|| e.key === '^']. *)
Definition keydown (extra : jsstring -> bool) (evaluate : calc -> completion calc)
    (key : jsstring) (c : calc) : completion (calc * bool) :=
  if (geb key (js "0") && leb key (js "9"))
     || includes (js "+-*/().%") key
     || extra key
  then Normal (append key c, true)
  else if JSString.eqb key (js "Enter") || JSString.eqb key (js "=")
  then c' <- evaluate c ;; Normal (c', true)
  else if JSString.eqb key (js "Backspace") then Normal (del c, true)
  else if JSString.eqb key (js "Escape") then Normal (clearAll c, true)
  else if JSString.eqb key (js ",") then Normal (append (js ".") c, true)
  else Normal (c, false).

Definition basic_keydown : jsstring -> calc -> completion (calc * bool) :=
  keydown (fun _ => false) (Basic.evaluateExpression run).

Definition rich_keydown : jsstring -> calc -> completion (calc * bool) :=
  keydown (fun key => JSString.eqb key (js "^")) (Rich.evaluateExpression run).

(** A run of operations, one after the other. *)
Fixpoint basic_session (ops : list Basic.operation) (c : calc) : completion calc :=
  match ops with
  | [] => Normal c
  | op :: rest => c' <- Basic.perform run op c ;; basic_session rest c'
  end.

Fixpoint rich_session (ops : list Rich.operation) (c : calc) : completion calc :=
  match ops with
  | [] => Normal c
  | op :: rest => c' <- Rich.perform run op c ;; rich_session rest c'
  end.

End WithEngine.

End Input.

(* ===================================================================== *)
(** * The theme toggle                                                    *)
(* ===================================================================== *)

Module Theme.

(** The toggle button, as far as [applyTheme] writes it. *)
Record toggle_button : Type := {
  textContent : jsstring;
  aria_pressed : option jsstring;
  title : option jsstring
}.

(** The [data-theme] attribute of the root element, the button found by
    [getElementById] ([None]: [null]), the storage entry under [THEME_KEY],
    and the answer of [matchMedia('(prefers-color-scheme: dark)')]
    ([None]: [window.matchMedia] is not there). *)
Record page : Type := {
  data_theme : option jsstring;
  themeToggleBtn : option toggle_button;
  theme_store : storage;
  prefers_dark : option bool
}.

(** How a piece of code ends: it runs to its end, or an exception leaves it;
    either way with the page as it is at that moment. *)
Inductive ending : Type :=
| Finished (p : page)
| Aborted (p : page).

Definition page_of (e : ending) : page :=
  match e with
  | Finished p => p
  | Aborted p => p
  end.

(** A loaded page: the document, and whether the click handler of the
    toggle has been registered. *)
Record session : Type := {
  doc : page;
  listening : bool
}.

Definition dark : jsstring := js "dark".
Definition light : jsstring := js "light".

(** The texts put on the button, as the three files spell them. *)
Definition sun : jsstring := [9728; 65039]%N.
Definition moon : jsstring := [55356; 57113]%N.
Definition sun_extended : jsstring := [226; 732; 8364; 239; 184]%N.
Definition moon_extended : jsstring := [240; 376; 338; 8482]%N.

Definition set_attribute (p : page) (a : option jsstring) : page :=
  {| data_theme := a; themeToggleBtn := themeToggleBtn p;
     theme_store := theme_store p; prefers_dark := prefers_dark p |}.

Definition set_button (p : page) (b : toggle_button) : page :=
  {| data_theme := data_theme p; themeToggleBtn := Some b;
     theme_store := theme_store p; prefers_dark := prefers_dark p |}.

Definition set_store (p : page) (l : storage) : page :=
  {| data_theme := data_theme p; themeToggleBtn := themeToggleBtn p;
     theme_store := l; prefers_dark := prefers_dark p |}.

(** [prefersDark ? 'dark' : 'light'] *)
Definition system_theme (p : page) : jsstring :=
  match prefers_dark p with
  | Some true => dark
  | _ => light
  end.

(** [stored === 'light' || stored === 'dark'] *)
Definition valid_theme (stored : option jsstring) : bool :=
  match stored with
  | Some s => JSString.eqb s light || JSString.eqb s dark
  | None => false
  end.

(** [getAttribute('data-theme') === 'dark' ? 'dark' : 'light'] *)
Definition current_theme (p : page) : jsstring :=
  match data_theme p with
  | Some a => if JSString.eqb a dark then dark else light
  | None => light
  end.

(** [current === 'dark' ? 'light' : 'dark'] *)
Definition next_theme (p : page) : jsstring :=
  if JSString.eqb (current_theme p) dark then light else dark.

(** ** [script.js]: no guard on the button, none on the storage *)
Module Unguarded.

Definition applyTheme (theme : jsstring) (p : page) : ending :=
  if JSString.eqb theme dark then
    let p1 := set_attribute p (Some dark) in
    match themeToggleBtn p with
    | None => Aborted p1
    | Some b =>
        Finished (set_button p1 {| textContent := sun;
                                   aria_pressed := Some (js "true");
                                   title := title b |})
    end
  else
    let p1 := set_attribute p None in
    match themeToggleBtn p with
    | None => Aborted p1
    | Some b =>
        Finished (set_button p1 {| textContent := moon;
                                   aria_pressed := Some (js "false");
                                   title := title b |})
    end.

Definition getPreferredTheme (p : page) : completion jsstring :=
  match getItem (theme_store p) with
  | Throw => Throw
  | Normal stored =>
      if valid_theme stored
      then Normal (match stored with Some s => s | None => light end)
      else Normal (system_theme p)
  end.

(** [const initialTheme = getPreferredTheme(); applyTheme(initialTheme);] *)
Definition startup (p : page) : ending :=
  match getPreferredTheme p with
  | Throw => Aborted p
  | Normal theme => applyTheme theme p
  end.

(** The body of the click handler of the toggle; [load] tells whether the
    handler is registered. *)
Definition toggle (p : page) : ending :=
  match applyTheme (next_theme p) p with
  | Aborted q => Aborted q
  | Finished q =>
      match setItem (theme_store q) (next_theme p) with
      | Normal l => Finished (set_store q l)
      | Throw => Aborted q
      end
  end.

(** The theme part of the script, from start-up to
    [themeToggleBtn.addEventListener('click', ...)]: the registration is
    reached only when start-up did not throw (and then the button is there,
    since [applyTheme] has used it). *)
Definition load (p : page) : session :=
  match startup p with
  | Finished q => {| doc := q; listening := true |}
  | Aborted q => {| doc := q; listening := false |}
  end.

(** A click on the toggle: the handler runs where it is registered, and an
    exception that leaves it does not unregister it. *)
Definition click (s : session) : session :=
  if listening s
  then {| doc := page_of (toggle (doc s)); listening := true |}
  else s.

End Unguarded.

(** ** The animated and the extended variant: [if (themeToggleBtn)] and
    [try]/[catch] around the storage *)
Module Guarded.

Section Texts.

Variables sun_text moon_text : jsstring.

Definition applyTheme (theme : jsstring) (p : page) : page :=
  if JSString.eqb theme dark then
    let p1 := set_attribute p (Some dark) in
    match themeToggleBtn p with
    | None => p1
    | Some _ =>
        set_button p1 {| textContent := sun_text;
                         aria_pressed := Some (js "true");
                         title := Some (js "Switch to light mode") |}
    end
  else
    let p1 := set_attribute p None in
    match themeToggleBtn p with
    | None => p1
    | Some _ =>
        set_button p1 {| textContent := moon_text;
                         aria_pressed := Some (js "false");
                         title := Some (js "Switch to dark mode") |}
    end.

Definition getPreferredTheme (p : page) : jsstring :=
  match getItem (theme_store p) with
  | Normal stored =>
      if valid_theme stored
      then match stored with Some s => s | None => light end
      else system_theme p
  | Throw => system_theme p
  end.

Definition startup (p : page) : page := applyTheme (getPreferredTheme p) p.

(** The click handler of the toggle; it is registered only when the button
    is there. *)
Definition toggle (p : page) : page :=
  let q := applyTheme (next_theme p) p in
  match setItem (theme_store q) (next_theme p) with
  | Normal l => set_store q l
  | Throw => q
  end.

(** Start-up, then [if (themeToggleBtn) { themeToggleBtn.addEventListener(...) }]. *)
Definition load (p : page) : session :=
  {| doc := startup p;
     listening := match themeToggleBtn p with Some _ => true | None => false end |}.

Definition click (s : session) : session :=
  if listening s
  then {| doc := toggle (doc s); listening := true |}
  else s.

End Texts.

End Guarded.

End Theme.

(* ===================================================================== *)
(** * Vocabulary of the further statements                                *)
(* ===================================================================== *)

(** The display shows the buffer, or ["0"] for the empty buffer. *)
Definition shown (c : calc) : Prop := display c = display_of (buffer c).

(** Typing the tokens one after the other. *)
Definition type_all (tokens : list jsstring) (c : calc) : calc :=
  fold_left (fun c' token => append token c') tokens c.

Fixpoint drop_zeros (ds : jsstring) : jsstring :=
  match ds with
  | d :: rest => if N.eqb d (ch "0") then drop_zeros rest else ds
  | [] => []
  end.

(** A digit sequence without its leading zeros; all zeros leave one. *)
Definition typed_number (ds : jsstring) : jsstring :=
  match ds with
  | [] => []
  | _ :: _ =>
      match drop_zeros ds with
      | [] => js "0"
      | d :: rest => d :: rest
      end
  end.

(** Every character lies in the class of [script.js]. *)
Definition whitelisted (b : jsstring) : Prop :=
  forallb (Regex.in_class Basic.allowed_class) b = true.

(** Every character lies in the class of [script.js] or is [^]: what the
    keyboard of the extended variant can enter. *)
Definition typeable (b : jsstring) : Prop :=
  forallb (fun u => Regex.in_class Basic.allowed_class u || N.eqb u (ch "^")) b = true.

(** A key value of one character, or a key name that does not begin with a
    digit. *)
Definition plain_key (key : jsstring) : bool :=
  match key with
  | u :: _ :: _ => negb (is_digit u)
  | _ => true
  end.

Definition is_letter (u : code_unit) : bool :=
  (N.leb 65 u && N.leb u 90) || (N.leb 97 u && N.leb u 122).

(** The four names that [applyFunction] knows. *)
Definition known_function (fn : jsstring) : bool :=
  JSString.eqb fn (js "sqrt") || JSString.eqb fn (js "square")
  || JSString.eqb fn (js "reciprocal") || JSString.eqb fn (js "negate").

(** The four memory actions that the click handler knows. *)
Definition known_memory_action (action : jsstring) : bool :=
  JSString.eqb action (js "mem-clear") || JSString.eqb action (js "mem-recall")
  || JSString.eqb action (js "mem-add") || JSString.eqb action (js "mem-sub").

(** The operations that work on the memory register. *)
Definition is_memory_operation (op : Rich.operation) : bool :=
  match op with
  | Rich.MemClear | Rich.MemRecall | Rich.MemAdd | Rich.MemSub => true
  | _ => false
  end.

(* ===================================================================== *)
(** * Properties                                                          *)
(* ===================================================================== *)

Local Open Scope completion_scope.

(** ** Strings *)

Lemma trim_start_spaces (s : jsstring) :
  forallb is_space s = true -> trim_start s = [].
Proof.
  induction s as [| c s IH]; simpl; [reflexivity |].
  intros H. apply andb_prop in H as [Hc Hs].
  rewrite Hc. exact (IH Hs).
Qed.

Lemma trim_spaces (s : jsstring) :
  forallb is_space s = true -> trim s = [].
Proof.
  intros H. unfold trim, trim_end.
  rewrite (trim_start_spaces s H). reflexivity.
Qed.

Lemma trim_start_nil_spaces (s : jsstring) :
  trim_start s = [] -> forallb is_space s = true.
Proof.
  induction s as [| c s IH]; simpl; [reflexivity |].
  destruct (is_space c); [exact IH | discriminate].
Qed.

Lemma trim_nil_spaces (s : jsstring) :
  trim s = [] -> forallb is_space s = true.
Proof.
  unfold trim, trim_end. intros H.
  apply trim_start_nil_spaces.
  destruct (trim_start s) as [| c t] eqn:E; [reflexivity |].
  exfalso.
  assert (Hrev : trim_start (rev (c :: t)) = []).
  { apply (f_equal (@rev code_unit)) in H.
    rewrite rev_involutive in H. exact H. }
  apply trim_start_nil_spaces in Hrev.
  rewrite forallb_forall in Hrev.
  assert (Hc : is_space c = true).
  { apply Hrev. rewrite <- in_rev. left. reflexivity. }
  destruct s as [| d s']; simpl in E; [discriminate |].
  clear H Hrev. revert d E.
  induction s' as [| x s' IH]; intros d E; simpl in E.
  - destruct (is_space d) eqn:Hd; [discriminate |].
    injection E as -> _. congruence.
  - destruct (is_space d) eqn:Hd.
    + exact (IH x E).
    + injection E as -> _. congruence.
Qed.

(** The emptiness test on the trimmed buffer holds of the blank buffers and
    of no other. *)
Lemma trim_empty_iff (s : jsstring) :
  trim s = [] <-> forallb is_space s = true.
Proof. split; [apply trim_nil_spaces | apply trim_spaces]. Qed.

(** ** The whitelist pattern *)

Lemma test_from_anchored (ts : list Regex.term) (s : jsstring) :
  Regex.test_from (Regex.AssertStart :: ts) false s = false.
Proof.
  induction s as [| c s IH]; simpl; [reflexivity | exact IH].
Qed.

Lemma plus_match_to_end (cls : list Regex.class_item) (s : jsstring) :
  Regex.plus_match cls (Regex.match_terms [Regex.AssertEnd] false) s
  = match s with
    | [] => false
    | _ :: _ => forallb (Regex.in_class cls) s
    end.
Proof.
  induction s as [| c s IH]; [reflexivity |].
  cbn [Regex.plus_match forallb]. rewrite IH.
  destruct (Regex.in_class cls c); [| reflexivity].
  destruct s as [| d s']; reflexivity || (simpl; apply orb_false_r).
Qed.

(** A pattern [^[class]+$] tests for a non-empty string of class members. *)
Lemma test_whole_class (cls : list Regex.class_item) (s : jsstring) :
  Regex.test [Regex.AssertStart; Regex.ClassPlus cls; Regex.AssertEnd] s
  = match s with
    | [] => false
    | _ :: _ => forallb (Regex.in_class cls) s
    end.
Proof.
  unfold Regex.test.
  destruct s as [| c s].
  - reflexivity.
  - cbn [Regex.test_from Regex.match_terms andb].
    rewrite test_from_anchored, orb_false_r.
    apply plus_match_to_end.
Qed.

Lemma rich_class_spec (c : code_unit) :
  Regex.in_class Rich.allowed_class c = true <-> in_spec_class c.
Proof.
  unfold in_spec_class, Regex.in_class, Rich.allowed_class.
  cbn [existsb Regex.item_matches In].
  repeat rewrite orb_true_iff. rewrite andb_true_iff.
  repeat rewrite N.eqb_eq. repeat rewrite N.leb_le.
  unfold ch. cbn [N_of_ascii N_of_digits N.add N.mul].
  intuition congruence.
Qed.

Lemma basic_class_spec (c : code_unit) :
  Regex.in_class Basic.allowed_class c = true <-> in_spec_class c \/ c = ch "%".
Proof.
  unfold in_spec_class, Regex.in_class, Basic.allowed_class.
  cbn [existsb Regex.item_matches In].
  repeat rewrite orb_true_iff. rewrite andb_true_iff.
  repeat rewrite N.eqb_eq. repeat rewrite N.leb_le.
  unfold ch. cbn [N_of_ascii N_of_digits N.add N.mul].
  intuition congruence.
Qed.

Lemma rich_sanitize_forallb (expr : jsstring) :
  Rich.sanitizeExpression expr
  = match expr with
    | [] => false
    | _ :: _ => forallb (Regex.in_class Rich.allowed_class) expr
    end.
Proof. apply test_whole_class. Qed.

Lemma basic_sanitize_forallb (expr : jsstring) :
  Basic.sanitizeExpression expr
  = match expr with
    | [] => false
    | _ :: _ => forallb (Regex.in_class Basic.allowed_class) expr
    end.
Proof. apply test_whole_class. Qed.

Lemma space_in_rich_class (c : code_unit) :
  is_space c = true -> Regex.in_class Rich.allowed_class c = true.
Proof. intros H. apply rich_class_spec. right. right. exact H. Qed.

Lemma space_in_basic_class (c : code_unit) :
  is_space c = true -> Regex.in_class Basic.allowed_class c = true.
Proof. intros H. apply basic_class_spec. left. right. right. exact H. Qed.

(** ** Blank buffers *)

Lemma basic_evaluate_blank run (c : calc) :
  forallb is_space (buffer c) = true ->
  Basic.evaluateExpression run c = Normal c.
Proof.
  intros H. unfold Basic.evaluateExpression.
  rewrite (trim_spaces _ H). reflexivity.
Qed.

Lemma rich_evaluate_blank run (c : calc) :
  forallb is_space (buffer c) = true ->
  Rich.evaluateExpression run c = Normal c.
Proof.
  intros H. unfold Rich.evaluateExpression.
  rewrite (trim_spaces _ H). reflexivity.
Qed.

(** C5.  On a buffer that is empty or holds white space only, [evaluate] is
    a no-op in every variant: it completes normally and the buffer, the
    display and the memory register stay exactly as they were, whatever the
    evaluation facility would do. *)
Theorem evaluate_blank_is_noop run (c : calc) :
  forallb is_space (buffer c) = true ->
  Basic.evaluateExpression run c = Normal c
  /\ Rich.evaluateExpression run c = Normal c.
Proof.
  intros H. split.
  - exact (basic_evaluate_blank run c H).
  - exact (rich_evaluate_blank run c H).
Qed.

Lemma evaluate_blank_is_noop_witness :
  Basic.evaluateExpression (fun _ => Throw) (with_buffer (js "  ")) = Normal (with_buffer (js "  "))
  /\ Rich.evaluateExpression (fun _ => Throw) (with_buffer (js "  ")) = Normal (with_buffer (js "  ")).
Proof.
  apply (evaluate_blank_is_noop (fun _ => Throw) (with_buffer (js "  "))).
  reflexivity.
Defined.

(** C4.  [validate] accepts exactly the non-empty strings whose characters
    all lie in the class [[0-9+\-*/().\s]], with [%] added in the variants
    that have no percent rewrite; it rejects the empty string; a non-empty
    string of white space passes it, and [evaluate] leaves such a buffer
    alone because of the emptiness test on the trimmed buffer. *)
Theorem sanitizeExpression_accepts_exactly (expr : jsstring) :
  (Rich.sanitizeExpression expr = true
     <-> expr <> [] /\ Forall in_spec_class expr)
  /\ (Basic.sanitizeExpression expr = true
     <-> expr <> [] /\ Forall (fun c => in_spec_class c \/ c = ch "%") expr)
  /\ Rich.sanitizeExpression [] = false
  /\ Basic.sanitizeExpression [] = false
  /\ (expr <> [] -> forallb is_space expr = true ->
      Rich.sanitizeExpression expr = true
      /\ Basic.sanitizeExpression expr = true
      /\ forall run c, buffer c = expr ->
           Basic.evaluateExpression run c = Normal c
           /\ Rich.evaluateExpression run c = Normal c).
Proof.
  assert (Hrich : forall s, Rich.sanitizeExpression s = true
                            <-> s <> [] /\ Forall in_spec_class s).
  { intros s. rewrite rich_sanitize_forallb. destruct s as [| c t].
    - split; [discriminate | intros [Hne _]; congruence].
    - rewrite forallb_forall, Forall_forall. split.
      + intros H. split; [discriminate |].
        intros x Hx. apply rich_class_spec, H, Hx.
      + intros [_ H] x Hx. apply rich_class_spec, H, Hx. }
  assert (Hbasic : forall s, Basic.sanitizeExpression s = true
                             <-> s <> [] /\ Forall (fun c => in_spec_class c \/ c = ch "%") s).
  { intros s. rewrite basic_sanitize_forallb. destruct s as [| c t].
    - split; [discriminate | intros [Hne _]; congruence].
    - rewrite forallb_forall, Forall_forall. split.
      + intros H. split; [discriminate |].
        intros x Hx. apply basic_class_spec, H, Hx.
      + intros [_ H] x Hx. apply basic_class_spec, H, Hx. }
  split; [apply Hrich |].
  split; [apply Hbasic |].
  split; [reflexivity |].
  split; [reflexivity |].
  intros Hne Hspace.
  assert (Hall : Forall in_spec_class expr).
  { apply Forall_forall. intros x Hx. right. right.
    rewrite forallb_forall in Hspace. exact (Hspace x Hx). }
  split; [apply Hrich; split; assumption |].
  split.
  - apply Hbasic. split; [assumption |].
    apply Forall_forall. intros x Hx. left.
    rewrite Forall_forall in Hall. exact (Hall x Hx).
  - intros run c Hb. split.
    + apply basic_evaluate_blank. rewrite Hb. exact Hspace.
    + apply rich_evaluate_blank. rewrite Hb. exact Hspace.
Qed.

Lemma sanitizeExpression_accepts_exactly_witness :
  Rich.sanitizeExpression (js " ") = true
  /\ Basic.sanitizeExpression (js " ") = true
  /\ forall run c, buffer c = js " " ->
       Basic.evaluateExpression run c = Normal c
       /\ Rich.evaluateExpression run c = Normal c.
Proof.
  apply (sanitizeExpression_accepts_exactly (js " ")).
  - discriminate.
  - reflexivity.
Defined.

(** ** [append] *)

Lemma one_unit_between_0_and_9 (d : code_unit) :
  geb [d] (js "0") && leb [d] (js "9") = is_digit d.
Proof.
  unfold geb, leb, is_digit, js. cbn [list_ascii_of_string map ltb].
  change (N_of_ascii "0") with 48%N. change (N_of_ascii "9") with 57%N.
  destruct (N.ltb_spec d 48), (N.ltb_spec 48 d), (N.ltb_spec 57 d),
    (N.ltb_spec d 57), (N.leb_spec 48 d), (N.leb_spec d 57);
    cbn; try reflexivity; lia.
Qed.



(** ** Errors of [evaluate] *)

Lemma basic_evaluate_total run (c : calc) :
  exists c', Basic.evaluateExpression run c = Normal c'.
Proof.
  unfold Basic.evaluateExpression.
  destruct (trim (buffer c)) as [| x t]; [eexists; reflexivity |].
  destruct (negb (Basic.sanitizeExpression (x :: t))); [eexists; reflexivity |].
  destruct (run (js "return " ++ x :: t)); eexists; reflexivity.
Qed.

Lemma rich_evaluate_total run (c : calc) :
  exists c', Rich.evaluateExpression run c = Normal c'.
Proof.
  unfold Rich.evaluateExpression.
  destruct (trim (buffer c)) as [| x t]; [eexists; reflexivity |].
  destruct (negb (Rich.sanitizeExpression _)); [eexists; reflexivity |].
  destruct (run _); eexists; reflexivity.
Qed.

(** C1.  When the trimmed buffer is not empty and either the whitelist
    rejects it or the dynamic evaluation throws, [evaluate] completes
    normally (no exception leaves it) and the buffer is exactly ["Error"];
    the two kinds of error give the same state.  In the extended variant
    the whitelist and the evaluation see the preprocessed text.  ["2+a"] is
    rejected by the whitelist and ["(()"] passes it and fails to parse. *)
Theorem evaluate_errors_collapse run (c : calc) :
  trim (buffer c) <> [] ->
  (Basic.sanitizeExpression (trim (buffer c)) = false
   \/ run (js "return " ++ trim (buffer c)) = Throw ->
   Basic.evaluateExpression run c = Normal (error_state c))
  /\ (Rich.sanitizeExpression (Rich.preprocessExpression (trim (buffer c))) = false
      \/ run (js "return " ++ Rich.preprocessExpression (trim (buffer c))) = Throw ->
      Rich.evaluateExpression run c = Normal (error_state c))
  /\ buffer (error_state c) = js "Error"
  /\ (forall pow_approx,
        Basic.sanitizeExpression (js "2+a") = false
        /\ Basic.evaluateExpression (Engine.run pow_approx) (with_buffer (js "2+a"))
           = Normal (error_state (with_buffer (js "2+a")))
        /\ Basic.sanitizeExpression (js "(()") = true
        /\ Engine.run pow_approx (js "return (()") = Throw
        /\ Basic.evaluateExpression (Engine.run pow_approx) (with_buffer (js "(()"))
           = Normal (error_state (with_buffer (js "(()")))).
Proof.
  intros Hne. split; [| split; [| split]].
  - intros H. unfold Basic.evaluateExpression.
    destruct (trim (buffer c)) as [| x t]; [congruence |].
    destruct (Basic.sanitizeExpression (x :: t)); cbn [negb].
    + destruct H as [H | H]; [discriminate |]. rewrite H. reflexivity.
    + reflexivity.
  - intros H. unfold Rich.evaluateExpression.
    destruct (trim (buffer c)) as [| x t]; [congruence |].
    destruct (Rich.sanitizeExpression _); cbn [negb].
    + destruct H as [H | H]; [discriminate |]. rewrite H. reflexivity.
    + reflexivity.
  - reflexivity.
  - intros pow_approx.
    split; [| split; [| split; [| split]]]; vm_compute; reflexivity.
Qed.

Lemma evaluate_errors_collapse_witness :
  Basic.evaluateExpression (Engine.run pow_sample) (with_buffer (js "(()"))
  = Normal (error_state (with_buffer (js "(()"))).
Proof.
  refine (proj1 (evaluate_errors_collapse (Engine.run pow_sample)
                   (with_buffer (js "(()")) _) _).
  - vm_compute. discriminate.
  - right. vm_compute. reflexivity.
Defined.

(** ** Formatting of results *)

Lemma digit_unit (n : N) : is_digit (48 + n mod 10)%N = true.
Proof.
  assert (H : (n mod 10 < 10)%N) by (apply N.mod_upper_bound; discriminate).
  unfold is_digit. generalize dependent (n mod 10)%N. intros r H.
  apply andb_true_intro. split; apply N.leb_le; lia.
Qed.

Lemma digits_aux_head (fuel : nat) (n : N) (acc : jsstring) :
  exists d rest, digits_aux (S fuel) n acc = d :: rest /\ is_digit d = true.
Proof.
  revert n acc. induction fuel as [| f IH]; intros n acc.
  - cbn [digits_aux]. exists (48 + n mod 10)%N, acc.
    split; [destruct (N.ltb n 10); reflexivity |].
    apply digit_unit.
  - change (digits_aux (S (S f)) n acc)
      with (if N.ltb n 10 then (48 + n mod 10)%N :: acc
            else digits_aux (S f) (n / 10)%N ((48 + n mod 10)%N :: acc)).
    destruct (N.ltb n 10).
    + exists (48 + n mod 10)%N, acc. split; [reflexivity |].
      apply digit_unit.
    + apply IH.
Qed.

Lemma decimal_digits_head (n : N) :
  exists d rest, decimal_digits n = d :: rest /\ is_digit d = true.
Proof. apply digits_aux_head. Qed.

Section DigitCounts.

Local Open Scope Z_scope.

Lemma digits_aux_count (fuel : nat) (n : N) (acc : jsstring) :
  (0 < n)%N -> Z.of_N n < 2 ^ Z.of_nat fuel ->
  exists d : Z,
    Z.of_nat (List.length (digits_aux fuel n acc)) = d + Z.of_nat (List.length acc)
    /\ 1 <= d /\ 10 ^ (d - 1) <= Z.of_N n < 10 ^ d.
Proof.
  revert n acc. induction fuel as [| f IH]; intros n acc Hpos Hlt.
  - change (2 ^ Z.of_nat 0) with 1 in Hlt. lia.
  - cbn [digits_aux]. destruct (N.ltb_spec n 10) as [Hsmall | Hbig].
    + exists 1. cbn [List.length]. change (10 ^ (1 - 1)) with 1. change (10 ^ 1) with 10.
      lia.
    + assert (Hq : (n / 10 * 10 <= n < n / 10 * 10 + 10)%N).
      { pose proof (N.div_mod n 10 ltac:(discriminate)) as Hdm.
        assert (n mod 10 < 10)%N by (apply N.mod_upper_bound; discriminate).
        generalize dependent (n mod 10)%N. generalize dependent (n / 10)%N.
        intros. lia. }
      destruct (IH (n / 10)%N ((48 + n mod 10)%N :: acc)) as [d [Hlen [Hd Hb]]].
      * generalize dependent (n / 10)%N. intros. lia.
      * rewrite Nat2Z.inj_succ, Z.pow_succ_r in Hlt by lia.
        generalize dependent (n / 10)%N. intros. lia.
      * exists (d + 1). rewrite Hlen. cbn [List.length].
        replace (d + 1 - 1) with (Z.succ (d - 1)) by lia.
        replace (d + 1) with (Z.succ d) at 3 by lia.
        rewrite !Z.pow_succ_r by lia.
        generalize dependent (n / 10)%N. intros. lia.
Qed.

Lemma digits10_bounds (p : positive) :
  1 <= digits10 p /\ 10 ^ (digits10 p - 1) <= Zpos p < 10 ^ digits10 p.
Proof.
  unfold digits10, decimal_digits.
  destruct (digits_aux_count (S (N.to_nat (N.log2 (Npos p)))) (Npos p) [])
    as [d [Hlen [Hd Hb]]].
  - reflexivity.
  - pose proof (N.log2_spec (Npos p) ltac:(reflexivity)) as [_ Hup].
    rewrite Nat2Z.inj_succ, N_nat_Z.
    apply N2Z.inj_lt in Hup. rewrite N2Z.inj_pow, N2Z.inj_succ in Hup.
    exact Hup.
  - rewrite Hlen. cbn [List.length]. rewrite Z.add_0_r.
    change (Z.of_N (N.pos p)) with (Z.pos p) in Hb. auto.
Qed.

Lemma pow10_pos (i : Z) : 0 <= i -> 0 < 10 ^ i.
Proof. intros H. apply Z.pow_pos_nonneg; lia. Qed.

Lemma reaches10_shift (a b i j i' j' : Z) :
  0 <= i -> 0 <= j -> 0 <= i' -> 0 <= j' -> i - j = i' - j' ->
  reaches10 a b i j <-> reaches10 a b i' j'.
Proof.
  intros Hi Hj Hi' Hj' Heq. unfold reaches10.
  pose proof (pow10_pos j Hj) as Pj. pose proof (pow10_pos j' Hj') as Pj'.
  assert (E : 10 ^ i * 10 ^ j' = 10 ^ i' * 10 ^ j).
  { rewrite <- !Z.pow_add_r by lia. f_equal. lia. }
  split; intros H.
  - apply (Z.mul_le_mono_pos_r _ _ (10 ^ j) Pj).
    replace (b * 10 ^ i' * 10 ^ j) with (b * 10 ^ i * 10 ^ j') by (rewrite <- !Z.mul_assoc, E; reflexivity).
    replace (a * 10 ^ j' * 10 ^ j) with (a * 10 ^ j * 10 ^ j') by ring.
    apply Z.mul_le_mono_nonneg_r; lia.
  - apply (Z.mul_le_mono_pos_r _ _ (10 ^ j') Pj').
    replace (b * 10 ^ i * 10 ^ j') with (b * 10 ^ i' * 10 ^ j) by (rewrite <- !Z.mul_assoc, E; reflexivity).
    replace (a * 10 ^ j * 10 ^ j') with (a * 10 ^ j' * 10 ^ j) by ring.
    apply Z.mul_le_mono_nonneg_r; lia.
Qed.

(** [decimal_exponent a b] is the [n] with [10 ^ (n - 1) <= a / b < 10 ^ n]. *)
Lemma decimal_exponent_spec (a b : positive) (i j i' j' : Z) :
  0 <= i -> 0 <= j -> 0 <= i' -> 0 <= j' ->
  i - j = decimal_exponent a b - 1 ->
  i' - j' = decimal_exponent a b ->
  reaches10 (Zpos a) (Zpos b) i j /\ ~ reaches10 (Zpos a) (Zpos b) i' j'.
Proof.
  intros Hi Hj Hi' Hj' E E'.
  destruct (digits10_bounds a) as [Ha1 [Ha2 Ha3]].
  destruct (digits10_bounds b) as [Hb1 [Hb2 Hb3]].
  set (da := digits10 a) in *. set (db := digits10 b) in *.
  (* strictly more than 10^(da-db-1), strictly less than 10^(da-db+1) *)
  assert (Hlow : reaches10 (Zpos a) (Zpos b) (da - 1) db).
  { unfold reaches10.
    pose proof (pow10_pos (da - 1) ltac:(lia)). pose proof (pow10_pos db ltac:(lia)).
    nia. }
  assert (Hhigh : ~ reaches10 (Zpos a) (Zpos b) da (db - 1)).
  { unfold reaches10.
    pose proof (pow10_pos da ltac:(lia)). pose proof (pow10_pos (db - 1) ltac:(lia)).
    nia. }
  unfold decimal_exponent in E, E'. fold da db in E, E'.
  set (k := da - db) in *.
  assert (Hk : (if 0 <=? k then Zpos b * 10 ^ k <=? Zpos a
                else Zpos b <=? Zpos a * 10 ^ (- k)) = true
               <-> reaches10 (Zpos a) (Zpos b) (Z.max k 0) (Z.max (- k) 0)).
  { unfold reaches10. destruct (Z.leb_spec 0 k).
    - rewrite Z.max_l, Z.max_r by lia. change (10 ^ 0) with 1.
      rewrite Z.mul_1_r. apply Z.leb_le.
    - rewrite Z.max_r, Z.max_l by lia. change (10 ^ 0) with 1.
      rewrite Z.mul_1_r. apply Z.leb_le. }
  destruct (if 0 <=? k then Zpos b * 10 ^ k <=? Zpos a
            else Zpos b <=? Zpos a * 10 ^ (- k)) eqn:R.
  - split.
    + apply (reaches10_shift _ _ (Z.max k 0) (Z.max (- k) 0)); try lia.
      apply Hk. reflexivity.
    + intros H. apply Hhigh.
      apply (reaches10_shift _ _ i' j'); try lia. exact H.
  - split.
    + apply (reaches10_shift _ _ (da - 1) db); try lia. exact Hlow.
    + intros H.
      assert (Hc : false = true); [| discriminate].
      apply Hk. apply (reaches10_shift _ _ i' j'); try lia. exact H.
Qed.

Lemma scale10_den_pos (a b : positive) (sh : Z) : 0 < snd (scale10 a b sh).
Proof.
  unfold scale10. destruct (Z.leb_spec 0 sh); cbn [snd]; [lia |].
  pose proof (pow10_pos (- sh) ltac:(lia)). nia.
Qed.

(** Scaled so that [t + 1] digits stand before the point, the value lies
    between [10 ^ t] and [10 ^ (t + 1)]. *)
Lemma scale10_bounds (a b : positive) (t : Z) :
  0 <= t ->
  let '(num, den) := scale10 a b (t - (decimal_exponent a b - 1)) in
  0 < den /\ 10 ^ t * den <= num < 10 ^ (t + 1) * den.
Proof.
  intros Ht.
  pose proof (scale10_den_pos a b (t - (decimal_exponent a b - 1))) as Hden.
  unfold scale10 in *.
  set (n := decimal_exponent a b) in *.
  destruct (Z.leb_spec 0 (t - (n - 1))) as [Hs | Hs]; cbn [snd] in Hden.
  - destruct (decimal_exponent_spec a b t (t - (n - 1)) (t + 1) (t - (n - 1)))
      as [Hge Hlt]; try (fold n; lia).
    unfold reaches10 in Hge, Hlt. split; [exact Hden |]. lia.
  - destruct (decimal_exponent_spec a b (t - (t - (n - 1))) 0 (t + 1 - (t - (n - 1))) 0)
      as [Hge Hlt]; try (fold n; lia).
    unfold reaches10 in Hge, Hlt. change (10 ^ 0) with 1 in Hge, Hlt.
    replace (t - (t - (n - 1))) with (t + - (t - (n - 1))) in Hge by lia.
    replace (t + 1 - (t - (n - 1))) with ((t + 1) + - (t - (n - 1))) in Hlt by lia.
    rewrite Z.pow_add_r in Hge, Hlt by lia.
    split; [exact Hden |]. lia.
Qed.

(** [toPrecision(p)] writes exactly [p] significant digits. *)
Lemma precision_digits_range (m : positive) (e2 p : Z) :
  1 <= p ->
  10 ^ (p - 1) <= fst (precision_digits m e2 p) < 10 ^ p.
Proof.
  intros Hp. unfold precision_digits.
  destruct (ratio_of m e2) as [a b].
  pose proof (scale10_bounds a b (p - 1) ltac:(lia)) as Hb.
  destruct (scale10 a b (p - 1 - (decimal_exponent a b - 1))) as [num den].
  destruct Hb as [Hden [Hlo Hhi]].
  replace (p - 1 + 1) with p in Hhi by lia.
  assert (Hpow : 10 ^ p = 10 * 10 ^ (p - 1)).
  { replace p with (Z.succ (p - 1)) at 1 by lia. apply Z.pow_succ_r. lia. }
  pose proof (pow10_pos (p - 1) ltac:(lia)) as Hpos.
  assert (Hq : 10 ^ (p - 1) <= num / den < 10 ^ p).
  { split.
    - apply Z.div_le_lower_bound; lia.
    - apply Z.div_lt_upper_bound; lia. }
  destruct (den <=? 2 * (num mod den)).
  - destruct (Z.eqb_spec (num / den + 1) (10 ^ p)); cbn [fst]; lia.
  - destruct (Z.eqb_spec (num / den) (10 ^ p)); cbn [fst]; lia.
Qed.

Lemma decimal_digits_length (n d : Z) :
  1 <= d -> 10 ^ (d - 1) <= n < 10 ^ d ->
  Z.of_nat (List.length (decimal_digits (Z.to_N n))) = d.
Proof.
  intros Hd [Hlo Hhi].
  pose proof (pow10_pos (d - 1) ltac:(lia)) as Hpos.
  unfold decimal_digits.
  destruct (digits_aux_count (S (N.to_nat (N.log2 (Z.to_N n)))) (Z.to_N n) [])
    as [d' [Hlen [Hd' [Hlo' Hhi']]]].
  - lia.
  - pose proof (N.log2_spec (Z.to_N n) ltac:(lia)) as [_ Hup].
    rewrite Nat2Z.inj_succ, N_nat_Z.
    apply N2Z.inj_lt in Hup. rewrite N2Z.inj_pow, N2Z.inj_succ in Hup.
    exact Hup.
  - rewrite Hlen. cbn [List.length]. rewrite Z.add_0_r.
    rewrite Z2N.id in Hlo', Hhi' by lia.
    destruct (Z.lt_trichotomy d' d) as [H | [H | H]]; [| exact H |].
    + assert (10 ^ d' <= 10 ^ (d - 1)) by (apply Z.pow_le_mono_r; lia). lia.
    + assert (10 ^ d <= 10 ^ (d' - 1)) by (apply Z.pow_le_mono_r; lia). lia.
Qed.

Lemma toPrecision_twelve_digits (m : positive) (e2 : Z) :
  10 ^ 11 <= fst (precision_digits m e2 12) < 10 ^ 12
  /\ List.length (decimal_digits (Z.to_N (fst (precision_digits m e2 12)))) = 12%nat.
Proof.
  pose proof (precision_digits_range m e2 12 ltac:(lia)) as H.
  change (12 - 1) with 11 in H. split; [exact H |].
  apply Nat2Z.inj. apply (decimal_digits_length _ 12); [lia | exact H].
Qed.

End DigitCounts.

Section ReadingBack.

Local Open Scope Z_scope.

(** ** Reading back what [toPrecision] wrote *)

Lemma digits_value_from (ds : jsstring) (a : N) :
  (fold_left (fun acc c => 10 * acc + (c - 48)) ds a
   = a * 10 ^ N.of_nat (List.length ds) + digits_value 10 ds)%N.
Proof.
  unfold digits_value. revert a.
  induction ds as [| d ds IH]; intros a.
  - cbn. lia.
  - cbn [fold_left List.length]. rewrite IH, (IH (10 * 0 + (d - 48))%N).
    rewrite Nat2N.inj_succ, N.pow_succ_r'. lia.
Qed.

Lemma digits_value_app (l1 l2 : jsstring) :
  (digits_value 10 (l1 ++ l2)
   = digits_value 10 l1 * 10 ^ N.of_nat (List.length l2) + digits_value 10 l2)%N.
Proof.
  unfold digits_value at 1. rewrite fold_left_app.
  rewrite digits_value_from. reflexivity.
Qed.

Lemma digits_value_zeros (k : nat) (l : jsstring) :
  digits_value 10 (repeat (ch "0") k ++ l) = digits_value 10 l.
Proof.
  induction k as [| k IH]; [reflexivity |].
  cbn [repeat app]. unfold digits_value in *. cbn [fold_left]. exact IH.
Qed.

Lemma digits_aux_value (fuel : nat) (n : N) (acc : jsstring) :
  (n < 2 ^ N.of_nat fuel)%N ->
  (digits_value 10 (digits_aux fuel n acc)
   = n * 10 ^ N.of_nat (List.length acc) + digits_value 10 acc)%N.
Proof.
  revert n acc. induction fuel as [| f IH]; intros n acc Hn.
  - cbn in Hn. cbn [digits_aux]. assert (n = 0%N) by lia. subst n. lia.
  - assert (Hhead : (digits_value 10 ((48 + n mod 10) :: acc)
                     = n mod 10 * 10 ^ N.of_nat (List.length acc)
                       + digits_value 10 acc)%N).
    { unfold digits_value at 1. cbn [fold_left]. rewrite digits_value_from.
      replace (10 * 0 + (48 + n mod 10 - 48))%N with (n mod 10)%N
        by (generalize (n mod 10)%N; intros r; lia).
      reflexivity. }
    cbn [digits_aux]. destruct (N.ltb_spec n 10) as [Hs | Hb].
    + rewrite Hhead. rewrite N.mod_small by exact Hs. reflexivity.
    + rewrite IH.
      * rewrite Hhead. cbn [List.length]. rewrite Nat2N.inj_succ, N.pow_succ_r'.
        pose proof (N.div_mod n 10 ltac:(discriminate)) as Hdm.
        rewrite Hdm at 3.
        generalize (n mod 10)%N (n / 10)%N (10 ^ N.of_nat (List.length acc))%N.
        intros r q w. lia.
      * rewrite Nat2N.inj_succ, N.pow_succ_r' in Hn.
        apply N.Div0.div_lt_upper_bound. lia.
Qed.

Lemma decimal_digits_value (n : N) : digits_value 10 (decimal_digits n) = n.
Proof.
  unfold decimal_digits. rewrite digits_aux_value.
  - cbn [List.length]. change (digits_value 10 []) with 0%N. cbn. lia.
  - rewrite Nat2N.inj_succ, N2Nat.id.
    destruct n as [| p]; [reflexivity |].
    apply N.log2_spec. reflexivity.
Qed.

Lemma digits_aux_all_digits (fuel : nat) (n : N) (acc : jsstring) :
  forallb is_digit acc = true -> forallb is_digit (digits_aux fuel n acc) = true.
Proof.
  revert n acc. induction fuel as [| f IH]; intros n acc Hacc; [exact Hacc |].
  assert (Hacc' : forallb is_digit ((48 + n mod 10)%N :: acc) = true).
  { cbn [forallb]. rewrite Hacc, andb_true_r.
    assert (H : (n mod 10 < 10)%N) by (apply N.mod_upper_bound; discriminate).
    unfold is_digit. generalize dependent (n mod 10)%N. intros r H.
    apply andb_true_intro. split; apply N.leb_le; lia. }
  cbn [digits_aux]. destruct (N.ltb n 10); [exact Hacc' | apply IH; exact Hacc'].
Qed.

Lemma decimal_digits_all_digits (n : N) : forallb is_digit (decimal_digits n) = true.
Proof. apply digits_aux_all_digits. reflexivity. Qed.

Lemma span_digits_app (ds rest : jsstring) :
  forallb is_digit ds = true -> digits_end rest ->
  span_digits (ds ++ rest) = (ds, rest).
Proof.
  intros Hds Hrest. induction ds as [| d ds IH].
  - destruct rest as [| c rest]; [reflexivity |].
    cbn in Hrest |- *. rewrite Hrest. reflexivity.
  - cbn [forallb] in Hds. apply andb_prop in Hds as [Hd Hds].
    cbn [app span_digits]. rewrite Hd, (IH Hds). reflexivity.
Qed.

Lemma scan_exponent_text (e : Z) : scan_exponent (exponent_text e) = (e, []).
Proof.
  unfold exponent_text.
  destruct (decimal_digits_head (Z.abs_N e)) as [d [rest [Hds Hd]]].
  pose proof (decimal_digits_all_digits (Z.abs_N e)) as Hall.
  pose proof (decimal_digits_value (Z.abs_N e)) as Hval.
  pose proof (span_digits_app (decimal_digits (Z.abs_N e)) [] Hall I) as Hspan.
  rewrite app_nil_r in Hspan.
  destruct (Z.ltb_spec e 0) as [Hneg | Hpos].
  - change (js "e" ++ js "-" ++ decimal_digits (Z.abs_N e))
      with (ch "e" :: ch "-" :: decimal_digits (Z.abs_N e)).
    cbn [scan_exponent]. change (N.eqb (ch "e") (ch "e")) with true. cbn [orb].
    change (N.eqb (ch "-") (ch "+")) with false.
    change (N.eqb (ch "-") (ch "-")) with true. cbn iota.
    rewrite Hspan. rewrite Hds at 1. rewrite Hval.
    f_equal. rewrite N2Z.inj_abs_N. lia.
  - change (js "e" ++ js "+" ++ decimal_digits (Z.abs_N e))
      with (ch "e" :: ch "+" :: decimal_digits (Z.abs_N e)).
    cbn [scan_exponent]. change (N.eqb (ch "e") (ch "e")) with true. cbn [orb].
    change (N.eqb (ch "+") (ch "+")) with true. cbn iota.
    rewrite Hspan. rewrite Hds at 1. rewrite Hval.
    f_equal. rewrite N2Z.inj_abs_N. lia.
Qed.

Lemma scan_exponent_nil : scan_exponent [] = (0, []).
Proof. reflexivity. Qed.

(** A numeral with a point: digits, [.], digits, and then nothing or an
    exponent part. *)
Lemma scan_pointed (ip fp tail rest : jsstring) (ex : Z) :
  forallb is_digit ip = true -> forallb is_digit fp = true ->
  ip ++ fp <> [] ->
  digits_end tail -> scan_exponent tail = (ex, rest) ->
  scan_unsigned_decimal (ip ++ ch "." :: fp ++ tail)
  = Some (digits_value 10 (ip ++ fp), ex - Z.of_nat (List.length fp), rest).
Proof.
  intros Hip Hfp Hne Htail Hscan. unfold scan_unsigned_decimal.
  rewrite (span_digits_app ip (ch "." :: fp ++ tail) Hip eq_refl).
  change (N.eqb (ch ".") (ch ".")) with true. cbn iota.
  rewrite (span_digits_app fp tail Hfp Htail). rewrite Hscan.
  destruct ip as [| i ip];
    [destruct fp as [| f fp]; [exfalso; apply Hne; reflexivity |] |]; reflexivity.
Qed.

(** A numeral without a point. *)
Lemma scan_unpointed (ip : jsstring) :
  forallb is_digit ip = true -> ip <> [] ->
  scan_unsigned_decimal ip = Some (digits_value 10 ip, 0, []).
Proof.
  intros Hip Hne. unfold scan_unsigned_decimal.
  pose proof (span_digits_app ip [] Hip I) as Hspan. rewrite app_nil_r in Hspan.
  rewrite Hspan. destruct ip as [| i ip]; [congruence | reflexivity].
Qed.

Lemma digit_is_no_space (d : code_unit) : is_digit d = true -> is_space d = false.
Proof.
  unfold is_digit. intros H. apply andb_prop in H as [H1 H2].
  apply N.leb_le in H1, H2.
  unfold is_space, is_white_space, is_line_terminator.
  repeat match goal with
         | |- context [N.eqb d ?k] =>
             let E := fresh in destruct (N.eqb_spec d k) as [E | E]; [lia |]
         end.
  destruct (N.leb_spec 8192 d); [lia |]. reflexivity.
Qed.

(** [parseFloat] on a sign and an unsigned numeral that begins with a digit. *)
Lemma parseFloat_signed (s : bool) (d : code_unit) (body : jsstring) (n : N) (ex : Z)
    (rest : jsstring) :
  is_digit d = true ->
  scan_unsigned_decimal (d :: body) = Some (n, ex, rest) ->
  parseFloat (sign_text s ++ d :: body) = of_decimal s n ex.
Proof.
  intros Hd Hscan.
  assert (Hd' := Hd). unfold is_digit in Hd'. apply andb_prop in Hd' as [H1 H2].
  apply N.leb_le in H1, H2.
  assert (Hinf : starts_with (js "Infinity") (d :: body) = false).
  { change (js "Infinity") with (ch "I" :: js "nfinity"). cbn [starts_with].
    destruct (N.eqb_spec (ch "I") d) as [E | _];
      [change (ch "I") with 73%N in E; lia | reflexivity]. }
  unfold parseFloat. destruct s.
  - change (sign_text true ++ d :: body) with (ch "-" :: d :: body).
    cbn [trim_start]. change (is_space (ch "-")) with false. cbn iota.
    unfold scan_decimal.
    change (N.eqb (ch "-") (ch "+")) with false.
    change (N.eqb (ch "-") (ch "-")) with true. cbn iota.
    rewrite Hinf, Hscan. reflexivity.
  - change (sign_text false ++ d :: body) with (d :: body).
    cbn [trim_start]. rewrite (digit_is_no_space d Hd).
    unfold scan_decimal.
    destruct (N.eqb_spec d (ch "+")) as [E | _]; [change (ch "+") with 43%N in E; lia |].
    destruct (N.eqb_spec d (ch "-")) as [E | _]; [change (ch "-") with 45%N in E; lia |].
    rewrite Hinf, Hscan. reflexivity.
Qed.

Lemma forallb_firstn (P : code_unit -> bool) (k : nat) (l : jsstring) :
  forallb P l = true -> forallb P (firstn k l) = true.
Proof.
  intros H. rewrite <- (firstn_skipn k l), forallb_app in H.
  apply andb_prop in H as [H _]. exact H.
Qed.

Lemma forallb_skipn (P : code_unit -> bool) (k : nat) (l : jsstring) :
  forallb P l = true -> forallb P (skipn k l) = true.
Proof.
  intros H. rewrite <- (firstn_skipn k l), forallb_app in H.
  apply andb_prop in H as [_ H]. exact H.
Qed.

Lemma forallb_repeat (P : code_unit -> bool) (c : code_unit) (k : nat) :
  P c = true -> forallb P (repeat c k) = true.
Proof.
  intros H. induction k as [| k IH]; [reflexivity |].
  cbn [repeat forallb]. rewrite H, IH. reflexivity.
Qed.

(** [parseFloat] reads the twelve digits and the exponent that
    [toPrecision(12)] wrote. *)
Lemma parseFloat_toPrecision (s : bool) (m : positive) (e2 : Z) :
  parseFloat (toPrecision (S754_finite s m e2) 12)
  = of_decimal s (Z.to_N (fst (precision_digits m e2 12)))
      (snd (precision_digits m e2 12) - 11).
Proof.
  destruct (toPrecision_twelve_digits m e2) as [Hrange Hlen].
  unfold toPrecision.
  destruct (precision_digits m e2 12) as [n e]. cbn [fst snd] in *.
  pose proof (decimal_digits_all_digits (Z.to_N n)) as Hall.
  pose proof (decimal_digits_value (Z.to_N n)) as Hval.
  destruct (decimal_digits_head (Z.to_N n)) as [d [rest [Hds Hd]]].
  set (ds := decimal_digits (Z.to_N n)) in *.
  destruct ((e <? -6) || (12 <=? e)) eqn:Hexp.
  - (* exponential notation *)
    rewrite Hds.
    assert (Hrest : forallb is_digit rest = true).
    { rewrite Hds in Hall. cbn [forallb] in Hall.
      apply andb_prop in Hall as [_ H]. exact H. }
    assert (Hlen' : List.length rest = 11%nat).
    { rewrite Hds in Hlen. cbn [List.length] in Hlen. lia. }
    destruct rest as [| r rest']; [discriminate |].
    change ([d] ++ js "." ++ (r :: rest') ++ exponent_text e)
      with (d :: ([] ++ ch "." :: (r :: rest') ++ exponent_text e)).
    apply (parseFloat_signed s d _ _ _ [] Hd).
    change (d :: [] ++ ch "." :: (r :: rest') ++ exponent_text e)
      with ([d] ++ ch "." :: (r :: rest') ++ exponent_text e).
    rewrite (scan_pointed [d] (r :: rest') (exponent_text e) [] e).
    + rewrite Hlen'. change ([d] ++ r :: rest') with (d :: r :: rest').
      rewrite <- Hds, Hval. reflexivity.
    + cbn [forallb]. rewrite Hd. reflexivity.
    + exact Hrest.
    + discriminate.
    + reflexivity.
    + apply scan_exponent_text.
  - apply orb_false_elim in Hexp as [Hlo Hhi].
    apply Z.ltb_ge in Hlo. apply Z.leb_gt in Hhi.
    destruct (Z.eqb_spec e (12 - 1)) as [He | He].
    + (* twelve digits, no point *)
      rewrite Hds. apply (parseFloat_signed s d _ _ _ [] Hd).
      rewrite <- Hds. rewrite scan_unpointed.
      * fold ds. rewrite Hval. replace (e - 11) with 0 by lia. reflexivity.
      * exact Hall.
      * rewrite Hds. discriminate.
    + destruct (Z.leb_spec 0 e) as [Hpos | Hneg].
      * (* a point among the digits *)
        assert (Hk : (1 <= Z.to_nat (e + 1) <= 11)%nat) by lia.
        destruct (Z.to_nat (e + 1)) as [| k] eqn:Ek; [lia |].
        rewrite Hds at 1. cbn [firstn].
        change ((d :: firstn k rest) ++ js "." ++ skipn (S k) ds)
          with (d :: (firstn k rest ++ js "." ++ skipn (S k) ds)).
        apply (parseFloat_signed s d _ _ _ [] Hd).
        change (d :: firstn k rest ++ js "." ++ skipn (S k) ds)
          with (firstn (S k) (d :: rest) ++ ch "." :: skipn (S k) ds).
        rewrite <- Hds. rewrite <- (app_nil_r (skipn (S k) ds)) at 1.
        rewrite (scan_pointed (firstn (S k) ds) (skipn (S k) ds) [] [] 0).
        -- rewrite firstn_skipn, Hval, length_skipn, Hlen.
           replace (0 - Z.of_nat (12 - S k)) with (e - 11) by lia. reflexivity.
        -- apply forallb_firstn. exact Hall.
        -- apply forallb_skipn. exact Hall.
        -- rewrite firstn_skipn. rewrite Hds. discriminate.
        -- exact I.
        -- reflexivity.
      * (* zeros between the point and the digits *)
        change (js "0." ++ repeat_unit (ch "0") (- (e + 1)) ++ ds)
          with (ch "0" :: ([] ++ ch "." :: repeat_unit (ch "0") (- (e + 1)) ++ ds)).
        apply (parseFloat_signed s (ch "0") _ _ _ [] eq_refl).
        change (ch "0" :: [] ++ ch "." :: repeat_unit (ch "0") (- (e + 1)) ++ ds)
          with ([ch "0"] ++ ch "." :: repeat_unit (ch "0") (- (e + 1)) ++ ds).
        rewrite <- (app_nil_r ds) at 1. rewrite app_assoc.
        rewrite (scan_pointed [ch "0"] (repeat_unit (ch "0") (- (e + 1)) ++ ds) [] [] 0).
        -- unfold repeat_unit.
           change ([ch "0"] ++ repeat (ch "0") (Z.to_nat (- (e + 1))) ++ ds)
             with (repeat (ch "0") (S (Z.to_nat (- (e + 1)))) ++ ds).
           rewrite digits_value_zeros, Hval, length_app, repeat_length, Hlen.
           replace (0 - Z.of_nat (Z.to_nat (- (e + 1)) + 12)) with (e - 11) by lia.
           reflexivity.
        -- reflexivity.
        -- rewrite forallb_app. unfold repeat_unit.
           rewrite (forallb_repeat is_digit (ch "0") _ eq_refl). exact Hall.
        -- discriminate.
        -- exact I.
        -- reflexivity.
Qed.

Lemma scale10_max (a b : positive) (sh : Z) :
  scale10 a b sh = (Zpos a * 10 ^ Z.max sh 0, Zpos b * 10 ^ Z.max (- sh) 0).
Proof.
  unfold scale10. destruct (Z.leb_spec 0 sh).
  - rewrite Z.max_l, Z.max_r by lia. change (10 ^ 0) with 1. rewrite Z.mul_1_r.
    reflexivity.
  - rewrite Z.max_r, Z.max_l by lia. change (10 ^ 0) with 1. rewrite Z.mul_1_r.
    reflexivity.
Qed.

Lemma precision_digits_rounds (m : positive) (e2 : Z) :
  rounds_to_12_digits (fst (ratio_of m e2)) (snd (ratio_of m e2))
    (fst (precision_digits m e2 12)) (snd (precision_digits m e2 12)).
Proof.
  split; [apply (toPrecision_twelve_digits m e2) |].
  unfold precision_digits.
  destruct (ratio_of m e2) as [a b]. cbn [fst snd].
  set (e0 := decimal_exponent a b - 1).
  pose proof (scale10_bounds a b 11 ltac:(lia)) as Hb.
  change (12 - 1 - e0) with (11 - e0).
  change (11 - (decimal_exponent a b - 1)) with (11 - e0) in Hb.
  rewrite scale10_max in Hb |- *.
  replace (- (11 - e0)) with (e0 - 11) in Hb |- * by lia.
  set (num := Zpos a * 10 ^ Z.max (11 - e0) 0) in *.
  set (den := Zpos b * 10 ^ Z.max (e0 - 11) 0) in *.
  destruct Hb as [Hden [Hlo Hhi]]. change (11 + 1) with 12 in Hhi.
  pose proof (Z.div_mod num den ltac:(lia)) as Hdm.
  pose proof (Z.mod_pos_bound num den Hden) as Hr.
  assert (Hq : 10 ^ 11 <= num / den < 10 ^ 12).
  { split; [apply Z.div_le_lower_bound; lia | apply Z.div_lt_upper_bound; lia]. }
  set (q := num / den) in *. set (r := num mod den) in *.
  destruct (decimal_exponent_spec a b (Z.max e0 0) (Z.max (- e0) 0)
              (Z.max (e0 + 1) 0) (Z.max (- (e0 + 1)) 0)) as [Hge Hlt];
    try (fold e0; lia).
  exists e0, (if den <=? 2 * r then q + 1 else q).
  split; [exact Hge |]. split; [exact Hlt |].
  split.
  - destruct (Z.leb_spec den (2 * r)); nia.
  - destruct (Z.leb_spec den (2 * r)).
    + destruct (Z.eqb_spec (q + 1) (10 ^ 12)) as [E | E]; cbn [fst snd].
      * right. auto.
      * left. split; [lia | auto].
    + destruct (Z.eqb_spec q (10 ^ 12)) as [E | E]; cbn [fst snd].
      * lia.
      * left. split; [lia | auto].
Qed.

Lemma reaches10_mono (a b i j i' j' : Z) :
  0 < a -> 0 < b -> 0 <= i -> 0 <= j -> 0 <= i' -> 0 <= j' ->
  i - j <= i' - j' ->
  reaches10 a b i' j' -> reaches10 a b i j.
Proof.
  intros Ha Hb Hi Hj Hi' Hj' Hle H. unfold reaches10 in *.
  pose proof (pow10_pos j' Hj') as Pj'.
  apply (Z.mul_le_mono_pos_r _ _ (10 ^ j') Pj').
  assert (Hpow : 10 ^ i * 10 ^ j' <= 10 ^ i' * 10 ^ j).
  { rewrite <- !Z.pow_add_r by lia. apply Z.pow_le_mono_r; lia. }
  pose proof (pow10_pos j Hj) as Pj.
  apply Z.le_trans with (b * 10 ^ i' * 10 ^ j); [nia |].
  replace (a * 10 ^ j * 10 ^ j') with (a * 10 ^ j' * 10 ^ j) by ring.
  apply Z.mul_le_mono_nonneg_r; lia.
Qed.

Lemma rounds_to_12_digits_unique (a b : positive) (n e n' e' : Z) :
  rounds_to_12_digits a b n e -> rounds_to_12_digits a b n' e' ->
  n = n' /\ e = e'.
Proof.
  intros [_ [e0 [n0 [Hge [Hlt [Hnear Hcase]]]]]]
    [_ [e0' [n0' [Hge' [Hlt' [Hnear' Hcase']]]]]].
  assert (He : e0 = e0').
  { destruct (Z.lt_trichotomy e0 e0') as [H | [H | H]]; [| exact H |]; exfalso.
    - apply Hlt. apply (reaches10_mono _ _ _ _ (Z.max e0' 0) (Z.max (- e0') 0));
        try lia. exact Hge'.
    - apply Hlt'. apply (reaches10_mono _ _ _ _ (Z.max e0 0) (Z.max (- e0) 0));
        try lia. exact Hge. }
  subst e0'.
  set (num := Zpos a * 10 ^ Z.max (11 - e0) 0) in *.
  set (den := Zpos b * 10 ^ Z.max (e0 - 11) 0) in *.
  assert (Hden : 0 < den).
  { unfold den. pose proof (pow10_pos (Z.max (e0 - 11) 0) ltac:(lia)). nia. }
  assert (Hn : n0 = n0') by nia.
  subst n0'. destruct Hcase as [[H1 [-> ->]] | [H1 [-> ->]]],
    Hcase' as [[H2 [-> ->]] | [H2 [-> ->]]]; try lia; split; reflexivity.
Qed.

Lemma formats_as_format_result (x : number) (text : jsstring) :
  formats_as x text -> format_result (VNumber x) = text.
Proof.
  unfold formats_as, format_result. destruct x as [s | s | | s m e2].
  - intros ->. reflexivity.
  - intros ->. destruct s; vm_compute; reflexivity.
  - intros ->. vm_compute. reflexivity.
  - destruct (isInteger (S754_finite s m e2)); cbn [negb].
    + intros ->. reflexivity.
    + intros [n [e [Hr ->]]].
      destruct (rounds_to_12_digits_unique _ _ _ _ _ _ Hr (precision_digits_rounds m e2))
        as [-> ->].
      rewrite parseFloat_toPrecision. reflexivity.
Qed.

Lemma formats_as_total (x : number) : exists text, formats_as x text.
Proof.
  destruct x as [s | s | | s m e2]; try (eexists; reflexivity).
  unfold formats_as. destruct (isInteger (S754_finite s m e2)).
  - eexists. reflexivity.
  - eexists. exists (fst (precision_digits m e2 12)), (snd (precision_digits m e2 12)).
    split; [apply precision_digits_rounds | reflexivity].
Qed.

End ReadingBack.

(** ** The rounding of fractions and decimals to Numbers *)

Section ShiftRecords.

Local Open Scope Z_scope.

Lemma shr_1_spec (m : Z) (r s : bool) :
  0 <= m ->
  shr_1 {| shr_m := m; shr_r := r; shr_s := s |}
  = {| shr_m := Z.div2 m; shr_r := Z.odd m; shr_s := r || s |}.
Proof.
  intros Hm. destruct m as [| [p | p |] | p]; try reflexivity. lia.
Qed.

Lemma half_of_fraction (A B : Z) :
  0 <= A -> 0 < B ->
  2 * A / B = 2 * (A / B) + (if B <=? 2 * (A mod B) then 1 else 0)
  /\ 2 * A mod B = 2 * (A mod B) - (if B <=? 2 * (A mod B) then B else 0).
Proof.
  intros HA HB.
  pose proof (Z.div_mod A B ltac:(lia)) as Hdm.
  pose proof (Z.mod_pos_bound A B HB) as Hr.
  set (q := A / B) in *. set (t := A mod B) in *.
  destruct (Z.leb_spec B (2 * t)).
  - assert (H2 : 2 * A = B * (2 * q + 1) + (2 * t - B)) by lia.
    split.
    + symmetry. apply (Z.div_unique_pos _ _ _ (2 * t - B)); lia.
    + symmetry. apply (Z.mod_unique_pos _ _ (2 * q + 1)); lia.
  - assert (H2 : 2 * A = B * (2 * q) + 2 * t) by lia.
    split.
    + symmetry. rewrite Z.add_0_r. apply (Z.div_unique_pos _ _ _ (2 * t)); lia.
    + symmetry. rewrite Z.sub_0_r. apply (Z.mod_unique_pos _ _ (2 * q)); lia.
Qed.

Lemma shr_1_shr_of (A B : Z) :
  0 <= A -> 0 < B -> shr_1 (shr_of A B) = shr_of A (2 * B).
Proof.
  intros HA HB. unfold shr_of.
  rewrite shr_1_spec by (apply Z.div_pos; lia).
  destruct (half_of_fraction A B HA HB) as [Hq Hm].
  pose proof (Z.mod_pos_bound A B HB) as Hr.
  f_equal.
  - rewrite Z.div2_div, Z.div_div by lia. f_equal. lia.
  - rewrite Z.div_mul_cancel_l by lia. reflexivity.
  - rewrite Z.mul_mod_distr_l by lia. rewrite Hq, Hm.
    rewrite Z.add_comm, Z.odd_add_mul_2.
    destruct (Z.leb_spec B (2 * (A mod B))).
    + cbn [Z.odd orb]. destruct (Z.eqb_spec (2 * (A mod B)) 0); [lia | reflexivity].
    + cbn [Z.odd orb]. rewrite Z.sub_0_r. reflexivity.
Qed.

Lemma iter_shr_1_shr_of (p : positive) (A B : Z) :
  0 <= A -> 0 < B ->
  iter_pos shr_1 p (shr_of A B) = shr_of A (B * 2 ^ Zpos p).
Proof.
  intros HA. revert B. induction p as [p IH | p IH |]; intros B HB.
  - cbn [iter_pos]. rewrite shr_1_shr_of by lia.
    assert (H2 : 0 < 2 ^ Zpos p) by (apply Z.pow_pos_nonneg; lia).
    rewrite IH by lia. rewrite IH by nia. f_equal.
    replace (Zpos p~1) with (Zpos p + Zpos p + 1) by lia.
    rewrite !Z.pow_add_r by lia. change (2 ^ 1) with 2. ring.
  - cbn [iter_pos].
    assert (H2 : 0 < 2 ^ Zpos p) by (apply Z.pow_pos_nonneg; lia).
    rewrite IH by lia. rewrite IH by nia. f_equal.
    replace (Zpos p~0) with (Zpos p + Zpos p) by lia.
    rewrite !Z.pow_add_r by lia. ring.
  - cbn [iter_pos]. rewrite shr_1_shr_of by lia. f_equal. change (2 ^ 1) with 2. ring.
Qed.

(** Shifting by [k] places, whatever the sign of [k]. *)
Lemma shr_shr_of (A B e k : Z) :
  0 <= A -> 0 < B ->
  shr (shr_of A B) e k = (shr_of A (B * 2 ^ Z.max k 0), e + Z.max k 0).
Proof.
  intros HA HB. unfold shr. destruct k as [| p | p].
  - change (Z.max 0 0) with 0. rewrite Z.mul_1_r, Z.add_0_r. reflexivity.
  - rewrite iter_shr_1_shr_of by lia. rewrite Z.max_l by lia. reflexivity.
  - rewrite Z.max_r by lia. rewrite Z.mul_1_r, Z.add_0_r. reflexivity.
Qed.

(** The quotient and the location that [SFdiv_core_binary] returns make the
    record of the fraction. *)
Lemma shr_record_of_division (A d : Z) :
  0 <= A -> 0 < d ->
  shr_record_of_loc (A / d) (new_location d (A mod d)) = shr_of A d.
Proof.
  intros HA Hd. unfold shr_of.
  destruct (half_of_fraction A d HA Hd) as [Hq Hm]. rewrite Hq, Hm.
  pose proof (Z.mod_pos_bound A d Hd) as Hr. set (t := A mod d) in *.
  rewrite Z.add_comm, Z.odd_add_mul_2.
  unfold new_location, new_location_even, new_location_odd.
  destruct (Z.even d) eqn:Ed; destruct (Z.eqb_spec t 0) as [Ht | Ht].
  - rewrite Ht. destruct (Z.leb_spec d (2 * 0)); [lia |]. reflexivity.
  - destruct (Z.compare_spec (2 * t) d) as [E | E | E];
      destruct (Z.leb_spec d (2 * t)); try lia; cbn [shr_record_of_loc Z.odd].
    + replace (2 * t - d) with 0 by lia. reflexivity.
    + rewrite Z.sub_0_r. destruct (Z.eqb_spec (2 * t) 0); [lia | reflexivity].
    + destruct (Z.eqb_spec (2 * t - d) 0); [lia | reflexivity].
  - rewrite Ht. destruct (Z.leb_spec d (2 * 0)); [lia |]. reflexivity.
  - assert (Hodd : 2 * t <> d).
    { intros E. rewrite <- E, Z.even_mul in Ed. discriminate. }
    destruct (Z.compare_spec (2 * t + 1) d) as [E | E | E];
      destruct (Z.leb_spec d (2 * t)); try lia; cbn [shr_record_of_loc Z.odd].
    + rewrite Z.sub_0_r. destruct (Z.eqb_spec (2 * t) 0); [lia | reflexivity].
    + rewrite Z.sub_0_r. destruct (Z.eqb_spec (2 * t) 0); [lia | reflexivity].
    + destruct (Z.eqb_spec (2 * t - d) 0); [lia | reflexivity].
Qed.

Lemma shr_of_ext (A B A' B' : Z) :
  0 <= A -> 0 < B -> 0 <= A' -> 0 < B' -> A * B' = A' * B ->
  shr_of A B = shr_of A' B'.
Proof.
  intros HA HB HA' HB' Hx.
  assert (Hdiv : forall a b a' b', 0 < b -> 0 < b' -> a * b' = a' * b -> a / b = a' / b').
  { intros a b a' b' Hb Hb' E.
    rewrite <- (Z.div_mul_cancel_r a b b') by lia.
    rewrite E. rewrite (Z.mul_comm b b'). apply Z.div_mul_cancel_r; lia. }
  unfold shr_of. f_equal.
  - apply Hdiv; assumption.
  - f_equal. apply Hdiv; try assumption. lia.
  - f_equal.
    assert (Hmod : forall a b, 0 < b -> (a mod b =? 0) = (a / b * b =? a)).
    { intros a b Hb. pose proof (Z.div_mod a b ltac:(lia)).
      destruct (Z.eqb_spec (a mod b) 0), (Z.eqb_spec (a / b * b) a); try reflexivity; lia. }
    rewrite !Hmod by assumption.
    rewrite (Hdiv (2 * A) B (2 * A') B') by (try assumption; lia).
    destruct (Z.eqb_spec (2 * A' / B' * B) (2 * A)),
      (Z.eqb_spec (2 * A' / B' * B') (2 * A')); try reflexivity; exfalso; nia.
Qed.

Lemma digits2_pos_bounds (p : positive) :
  2 ^ (Zpos (digits2_pos p) - 1) <= Zpos p < 2 ^ Zpos (digits2_pos p).
Proof.
  induction p as [p IH | p IH |].
  - cbn [digits2_pos]. rewrite Pos2Z.inj_succ.
    replace (Z.succ (Zpos (digits2_pos p)) - 1) with (Zpos (digits2_pos p) - 1 + 1) by lia.
    rewrite Z.pow_succ_r by lia. rewrite Z.pow_add_r by lia. change (2 ^ 1) with 2. lia.
  - cbn [digits2_pos]. rewrite Pos2Z.inj_succ.
    replace (Z.succ (Zpos (digits2_pos p)) - 1) with (Zpos (digits2_pos p) - 1 + 1) by lia.
    rewrite Z.pow_succ_r by lia. rewrite Z.pow_add_r by lia. change (2 ^ 1) with 2. lia.
  - cbn. lia.
Qed.

Lemma Zdigits2_bounds (q : Z) :
  0 < q -> 2 ^ (Zdigits2 q - 1) <= q < 2 ^ Zdigits2 q.
Proof.
  intros Hq. destruct q as [| p | p]; try lia. apply digits2_pos_bounds.
Qed.

Lemma SFdiv_core_binary_spec (n d : positive) :
  SFdiv_core_binary 53 1024 (Zpos n) 0 (Zpos d) 0
  = (Zpos n * 2 ^ (- Z.min (fexp 53 1024 (Zpos (digits2_pos n) - Zpos (digits2_pos d))) 0)
       / Zpos d,
     Z.min (fexp 53 1024 (Zpos (digits2_pos n) - Zpos (digits2_pos d))) 0,
     new_location (Zpos d)
       ((Zpos n * 2 ^ (- Z.min (fexp 53 1024 (Zpos (digits2_pos n) - Zpos (digits2_pos d))) 0))
        mod Zpos d)).
Proof.
  unfold SFdiv_core_binary. cbn [Zdigits2].
  rewrite !Z.add_0_r. change (0 - 0) with 0.
  set (e' := Z.min (fexp 53 1024 (Zpos (digits2_pos n) - Zpos (digits2_pos d))) 0).
  assert (He : e' <= 0) by (unfold e'; lia).
  replace (0 - e') with (- e') by lia.
  assert (Hm : match - e' with
               | 0 => Zpos n
               | Zpos _ => Z.shiftl (Zpos n) (- e')
               | Zneg _ => 0
               end = Zpos n * 2 ^ (- e')).
  { destruct (- e') as [| p | p] eqn:E.
    - change (2 ^ 0) with 1. lia.
    - rewrite Z.shiftl_mul_pow2 by lia. reflexivity.
    - lia. }
  rewrite Hm. unfold Z.div, Z.modulo.
  destruct (Z.div_eucl (Zpos n * 2 ^ (- e')) (Zpos d)) as [q r]. reflexivity.
Qed.

End ShiftRecords.

Section PowersOfTwoAndTen.

Local Open Scope Q_scope.

Lemma Q2_pos z : 0 < Q2 z.
Proof. apply Qpower_0_lt. reflexivity. Qed.
Lemma Q10_pos z : 0 < Q10 z.
Proof. apply Qpower_0_lt. reflexivity. Qed.

Lemma Q2_add a b : Q2 (a + b) == Q2 a * Q2 b.
Proof. apply Qpower_plus. discriminate. Qed.
Lemma Q10_add a b : Q10 (a + b) == Q10 a * Q10 b.
Proof. apply Qpower_plus. discriminate. Qed.

Lemma Q2_le a b : (a <= b)%Z -> Q2 a <= Q2 b.
Proof. intros H. apply Qpower_le_compat_l; [exact H | discriminate]. Qed.
Lemma Q2_lt a b : (a < b)%Z -> Q2 a < Q2 b.
Proof. intros H. apply Qpower_lt_compat_l; [exact H | reflexivity]. Qed.
Lemma Q2_lt_inv a b : Q2 a < Q2 b -> (a < b)%Z.
Proof. intros H. apply (Qpower_lt_compat_l_inv 2); [exact H | reflexivity]. Qed.
Lemma Q10_le a b : (a <= b)%Z -> Q10 a <= Q10 b.
Proof. intros H. apply Qpower_le_compat_l; [exact H | discriminate]. Qed.
Lemma Q10_lt a b : (a < b)%Z -> Q10 a < Q10 b.
Proof. intros H. apply Qpower_lt_compat_l; [exact H | reflexivity]. Qed.
Lemma Q10_lt_inv a b : Q10 a < Q10 b -> (a < b)%Z.
Proof. intros H. apply (Qpower_lt_compat_l_inv 10); [exact H | reflexivity]. Qed.

Lemma Q2_inject z : (0 <= z)%Z -> inject_Z (2 ^ z) == Q2 z.
Proof. intros H. apply (Zpower_Qpower 2 z H). Qed.
Lemma Q10_inject z : (0 <= z)%Z -> inject_Z (10 ^ z) == Q10 z.
Proof. intros H. apply (Zpower_Qpower 10 z H). Qed.

Lemma Q2_0 : Q2 0 == 1.
Proof. reflexivity. Qed.

Lemma Q2_opp a : Q2 (- a) == / Q2 a.
Proof. apply Qpower_opp. Qed.

Lemma bracket2_unique r mu mu' : bracket2 r mu -> bracket2 r mu' -> mu = mu'.
Proof.
  intros [H1 H2] [H1' H2'].
  assert (A : (mu - 1 < mu')%Z) by (apply Q2_lt_inv; lra).
  assert (B : (mu' - 1 < mu)%Z) by (apply Q2_lt_inv; lra).
  lia.
Qed.

Lemma inject_Z_pos z : (0 < z)%Z -> 0 < inject_Z z.
Proof. intros H. change 0 with (inject_Z 0). rewrite <- Zlt_Qlt. exact H. Qed.

(** The bracket of a quotient from the binary digits of its terms. *)
Lemma bracket2_digits (n d : positive) :
  Q2 (Zpos (digits2_pos n) - Zpos (digits2_pos d) - 1)
  < inject_Z (Zpos n) / inject_Z (Zpos d)
  < Q2 (Zpos (digits2_pos n) - Zpos (digits2_pos d) + 1).
Proof.
  pose proof (digits2_pos_bounds n) as [Hn1 Hn2].
  pose proof (digits2_pos_bounds d) as [Hd1 Hd2].
  set (d1 := Zpos (digits2_pos n)) in *. set (d2 := Zpos (digits2_pos d)) in *.
  assert (P1 : (1 <= d1)%Z) by (unfold d1; lia).
  assert (P2 : (1 <= d2)%Z) by (unfold d2; lia).
  rewrite Zle_Qle in Hn1, Hd1. rewrite Zlt_Qlt in Hn2, Hd2.
  rewrite Q2_inject in Hn1, Hn2, Hd1, Hd2 by lia.
  pose proof (inject_Z_pos (Zpos d) eq_refl) as Pd.
  pose proof (inject_Z_pos (Zpos n) eq_refl) as Pn.
  set (N := inject_Z (Zpos n)) in *. set (D := inject_Z (Zpos d)) in *.
  assert (E1 : Q2 (d1 - 1) == Q2 (d1 - d2 - 1) * Q2 d2).
  { rewrite <- Q2_add. replace (d1 - d2 - 1 + d2)%Z with (d1 - 1)%Z by lia. reflexivity. }
  assert (E2 : Q2 d1 == Q2 (d1 - d2 + 1) * Q2 (d2 - 1)).
  { rewrite <- Q2_add. replace (d1 - d2 + 1 + (d2 - 1))%Z with d1 by lia. reflexivity. }
  pose proof (Q2_pos (d1 - d2 - 1)). pose proof (Q2_pos (d1 - d2 + 1)).
  split.
  - apply Qlt_shift_div_l; [exact Pd |]. nra.
  - apply Qlt_shift_div_r; [exact Pd |]. nra.
Qed.

Lemma bracket2_exists (n d : positive) :
  exists mu, bracket2 (inject_Z (Zpos n) / inject_Z (Zpos d)) mu.
Proof.
  destruct (bracket2_digits n d) as [H1 H2].
  set (k := (Zpos (digits2_pos n) - Zpos (digits2_pos d))%Z) in *.
  destruct (Qlt_le_dec (inject_Z (Zpos n) / inject_Z (Zpos d)) (Q2 k)) as [H | H].
  - exists k. split; [apply Qlt_le_weak; exact H1 | exact H].
  - exists (k + 1)%Z. split; [| exact H2].
    replace (k + 1 - 1)%Z with k by lia. exact H.
Qed.

Lemma Qmul_cancel_le (a b c : Q) : 0 < c -> a * c <= b * c -> a <= b.
Proof. intros Hc H. apply (Qmult_le_r _ _ c Hc). exact H. Qed.

Lemma Qmul_cancel_lt (a b c : Q) : 0 < c -> a * c < b * c -> a < b.
Proof. intros Hc H. apply (Qmult_lt_r _ _ c Hc). exact H. Qed.

End PowersOfTwoAndTen.

Section BinaryRounding.

Local Open Scope Z_scope.

Lemma fexp_unfold (z : Z) : fexp 53 1024 z = Z.max (z - 53) (-1074).
Proof. reflexivity. Qed.

(** What [SFdiv_core_binary] and the first [shr_fexp] of [binary_round_aux]
    make of the quotient [n / d]: the record of [(n / d) / 2 ^ E] and the
    exponent [E = fexp mu], where [2 ^ (mu - 1) <= n / d < 2 ^ mu]. *)
Lemma div_then_shift (n d : positive) (mu : Z) :
  bracket2 (inject_Z (Zpos n) / inject_Z (Zpos d))%Q mu ->
  exists sft k,
    0 <= sft /\ 0 <= k /\ k - sft = fexp 53 1024 mu
    /\ (let '(q, e, l) := SFdiv_core_binary 53 1024 (Zpos n) 0 (Zpos d) 0 in
        shr_fexp 53 1024 q e l)
       = (shr_of (Zpos n * 2 ^ sft) (Zpos d * 2 ^ k), fexp 53 1024 mu).
Proof.
  intros Hmu. rewrite SFdiv_core_binary_spec.
  destruct (bracket2_digits n d) as [Hlo Hhi].
  set (delta := Zpos (digits2_pos n) - Zpos (digits2_pos d)) in *.
  set (e' := Z.min (fexp 53 1024 delta) 0).
  assert (He' : e' <= 0) by (unfold e'; lia).
  set (A := Zpos n * 2 ^ (- e')).
  assert (H2 : 0 < 2 ^ (- e')) by (apply Z.pow_pos_nonneg; lia).
  assert (HA : 0 < A) by (unfold A; nia).
  unfold shr_fexp. rewrite shr_record_of_division by lia.
  rewrite shr_shr_of by lia.
  set (q := A / Zpos d).
  set (kraw := fexp 53 1024 (Zdigits2 q + e') - e').
  exists (- e'), (Z.max kraw 0).
  split; [lia |]. split; [lia |].
  (* the position of [mu] *)
  destruct Hmu as [Hmu1 Hmu2].
  assert (Hd1 : delta <= mu).
  { assert (delta - 1 < mu) by (apply Q2_lt_inv; lra). lia. }
  assert (Hd2 : mu <= delta + 1).
  { assert (mu - 1 < delta + 1) by (apply Q2_lt_inv; lra). lia. }
  (* the quotient *)
  assert (Hq0 : 0 <= q) by (apply Z.div_pos; lia).
  pose proof (Z.div_mod A (Zpos d) ltac:(lia)) as Hdm.
  pose proof (Z.mod_pos_bound A (Zpos d) ltac:(lia)) as Hr.
  fold q in Hdm.
  assert (Hq1 : q * Zpos d <= A) by lia.
  assert (Hq2 : A < (q + 1) * Zpos d) by lia.
  pose proof (inject_Z_pos (Zpos d) eq_refl) as Pd.
  pose proof (Q2_pos (- e')) as P2.
  assert (EA : (inject_Z A == inject_Z (Zpos n) * Q2 (- e'))%Q).
  { unfold A. rewrite inject_Z_mult, Q2_inject by lia. reflexivity. }
  rewrite Zle_Qle, inject_Z_mult, EA in Hq1.
  rewrite Zlt_Qlt, inject_Z_mult, inject_Z_plus, EA in Hq2.
  change (inject_Z 1) with 1%Q in Hq2.
  set (r := (inject_Z (Zpos n) / inject_Z (Zpos d))%Q) in *.
  assert (Er : (inject_Z (Zpos n) == r * inject_Z (Zpos d))%Q).
  { unfold r. field. lra. }
  rewrite Er in Hq1, Hq2.
  assert (Hr1 : (inject_Z q <= r * Q2 (- e'))%Q).
  { apply (Qmul_cancel_le _ _ (inject_Z (Zpos d)) Pd). lra. }
  assert (Hr2 : (r * Q2 (- e') < inject_Z q + 1)%Q).
  { apply (Qmul_cancel_lt _ _ (inject_Z (Zpos d)) Pd). lra. }
  assert (HE : e' + Z.max kraw 0 = fexp 53 1024 mu).
  { destruct (Z.eq_dec q 0) as [Hz | Hnz].
    - (* the quotient is zero *)
      rewrite Hz in Hr2. change (inject_Z 0 + 1)%Q with 1%Q in Hr2.
      assert (Hlt : (r < Q2 e')%Q).
      { assert (E : (Q2 e' * Q2 (- e') == 1)%Q).
        { rewrite <- Q2_add. replace (e' + - e') with 0 by lia. reflexivity. }
        pose proof (Q2_pos e'). nra. }
      assert (Hm : mu - 1 < e') by (apply Q2_lt_inv; lra).
      unfold kraw. rewrite Hz. cbn [Zdigits2]. rewrite !fexp_unfold.
      unfold e' in *. rewrite fexp_unfold in *. lia.
    - (* the digits of the quotient give [mu] *)
      assert (Hqpos : 0 < q) by lia.
      pose proof (Zdigits2_bounds q Hqpos) as [HD1 HD2].
      set (D := Zdigits2 q) in *.
      assert (HDpos : 1 <= D).
      { destruct (Z.le_gt_cases 1 D) as [H | H]; [exact H |].
        exfalso. assert (2 ^ D <= 2 ^ 0) by (apply Z.pow_le_mono_r; lia).
        change (2 ^ 0) with 1 in *. lia. }
      rewrite Zle_Qle, Q2_inject in HD1 by lia.
      assert (HD2' : (inject_Z q + 1 <= Q2 D)%Q).
      { assert (q + 1 <= 2 ^ D) by lia.
        rewrite Zle_Qle, inject_Z_plus, Q2_inject in H by lia. exact H. }
      assert (Hb : bracket2 r (D + e')).
      { split.
        - assert (E : (Q2 (D - 1) == Q2 (D + e' - 1) * Q2 (- e'))%Q).
          { rewrite <- Q2_add. replace (D + e' - 1 + - e') with (D - 1) by lia.
            reflexivity. }
          pose proof (Q2_pos (D + e' - 1)). nra.
        - assert (E : (Q2 D == Q2 (D + e') * Q2 (- e'))%Q).
          { rewrite <- Q2_add. replace (D + e' + - e') with D by lia. reflexivity. }
          pose proof (Q2_pos (D + e')). nra. }
      assert (Hmu : mu = D + e') by (apply (bracket2_unique r); [split |]; assumption).
      unfold kraw. rewrite <- Hmu. rewrite !fexp_unfold.
      unfold e' in *. rewrite fexp_unfold in *. lia. }
  split; [lia |].
  rewrite HE. reflexivity.
Qed.

Lemma of_ratio_round_shifted (s : bool) (n d : positive) :
  of_ratio s n d
  = round_shifted s
      (let '(q, e, l) := SFdiv_core_binary 53 1024 (Zpos n) 0 (Zpos d) 0 in
       shr_fexp 53 1024 q e l).
Proof.
  unfold of_ratio. change prec with 53. change emax with 1024.
  destruct (SFdiv_core_binary 53 1024 (Zpos n) 0 (Zpos d) 0) as [[q e] l].
  reflexivity.
Qed.

(** The Number value of a fraction depends on its value only. *)
Lemma of_ratio_ext (s : bool) (n d n' d' : positive) :
  (n * d' = n' * d)%positive -> of_ratio s n d = of_ratio s n' d'.
Proof.
  intros Hx. rewrite !of_ratio_round_shifted. f_equal.
  destruct (bracket2_exists n d) as [mu Hmu].
  assert (Hmu' : bracket2 (inject_Z (Zpos n') / inject_Z (Zpos d'))%Q mu).
  { assert (E : (inject_Z (Zpos n') / inject_Z (Zpos d')
                 == inject_Z (Zpos n) / inject_Z (Zpos d))%Q).
    { pose proof (inject_Z_pos (Zpos d) eq_refl). pose proof (inject_Z_pos (Zpos d') eq_refl).
      assert (Hz : (inject_Z (Zpos n) * inject_Z (Zpos d')
                    == inject_Z (Zpos n') * inject_Z (Zpos d))%Q).
      { rewrite <- !inject_Z_mult. rewrite <- !Pos2Z.inj_mul, Hx. reflexivity. }
      field_simplify_eq; [lra | split; lra]. }
    destruct Hmu as [H1 H2]. unfold bracket2. rewrite E. split; assumption. }
  destruct (div_then_shift n d mu Hmu) as [sft [k [Hs [Hk [Hks ->]]]]].
  destruct (div_then_shift n' d' mu Hmu') as [sft' [k' [Hs' [Hk' [Hks' ->]]]]].
  f_equal.
  assert (P1 : 0 < 2 ^ sft) by (apply Z.pow_pos_nonneg; lia).
  assert (P2 : 0 < 2 ^ k) by (apply Z.pow_pos_nonneg; lia).
  assert (P3 : 0 < 2 ^ sft') by (apply Z.pow_pos_nonneg; lia).
  assert (P4 : 0 < 2 ^ k') by (apply Z.pow_pos_nonneg; lia).
  apply shr_of_ext; try nia.
  assert (Hp : 2 ^ sft * 2 ^ k' = 2 ^ sft' * 2 ^ k).
  { rewrite <- !Z.pow_add_r by lia. f_equal. lia. }
  assert (Hz : Zpos n * Zpos d' = Zpos n' * Zpos d) by (rewrite <- !Pos2Z.inj_mul, Hx; reflexivity).
  transitivity (Zpos n * Zpos d' * (2 ^ sft * 2 ^ k')); [ring |].
  rewrite Hp, Hz. ring.
Qed.

(** Zeros at the end of the digits do not change the Number: the digits
    [10 * c] with the exponent [p - 1] denote what [c] with [p] denotes. *)
Lemma of_decimal_shift (s : bool) (c : N) (p : Z) :
  of_decimal s (10 * c) (p - 1) = of_decimal s c p.
Proof.
  destruct c as [| c]; [reflexivity |].
  change (10 * N.pos c)%N with (N.pos (10 * c)). unfold of_decimal.
  destruct (Z.leb_spec 0 (p - 1)) as [H1 | H1], (Z.leb_spec 0 p) as [H2 | H2]; try lia.
  - apply of_ratio_ext.
    assert (E : 10 ^ p = 10 * 10 ^ (p - 1)).
    { replace p with (Z.succ (p - 1)) at 1 by lia. apply Z.pow_succ_r. lia. }
    assert (P : 0 < 10 ^ (p - 1)) by (apply Z.pow_pos_nonneg; lia).
    apply Pos2Z.inj. rewrite !Pos2Z.inj_mul, !Z2Pos.id by lia. rewrite E. lia.
  - assert (p = 0) by lia. subst p. apply of_ratio_ext.
    change (Z.to_pos (10 ^ 0)) with 1%positive.
    change (Z.to_pos (10 ^ (- (0 - 1)))) with 10%positive. lia.
  - apply of_ratio_ext.
    assert (E : 10 ^ (- (p - 1)) = 10 * 10 ^ (- p)).
    { replace (- (p - 1)) with (Z.succ (- p)) by lia. apply Z.pow_succ_r. lia. }
    assert (P : 0 < 10 ^ (- p)) by (apply Z.pow_pos_nonneg; lia).
    apply Pos2Z.inj. rewrite !Pos2Z.inj_mul, !Z2Pos.id by lia. rewrite E. lia.
Qed.

Lemma nearest_even_spec (A B : Z) :
  0 <= A -> 0 < B ->
  A / B <= nearest_even A B <= A / B + 1
  /\ 2 * Z.abs (nearest_even A B * B - A) <= B.
Proof.
  intros HA HB. unfold nearest_even, shr_of.
  destruct (half_of_fraction A B HA HB) as [Hq Hm]. rewrite Hq, Hm.
  pose proof (Z.div_mod A B ltac:(lia)) as Hdm.
  pose proof (Z.mod_pos_bound A B HB) as Hr.
  set (M := A / B) in *. set (t := A mod B) in *.
  rewrite Z.add_comm, Z.odd_add_mul_2.
  destruct (Z.leb_spec B (2 * t)); cbn [Z.odd loc_of_shr_record].
  - destruct (Z.eqb_spec (2 * t - B) 0); cbn [negb round_nearest_even].
    + destruct (Z.even M); split; nia.
    + split; nia.
  - rewrite Z.sub_0_r.
    destruct (Z.eqb_spec (2 * t) 0); cbn [negb round_nearest_even]; split; nia.
Qed.

Lemma Zdigits2_le (q k : Z) : 0 < q -> q < 2 ^ k -> 0 <= k -> Zdigits2 q <= k.
Proof.
  intros Hq Hlt Hk. pose proof (Zdigits2_bounds q Hq) as [H1 _].
  destruct (Z.le_gt_cases (Zdigits2 q) k) as [H | H]; [exact H |].
  assert (2 ^ k <= 2 ^ (Zdigits2 q - 1)) by (apply Z.pow_le_mono_r; lia). lia.
Qed.

(** The second half of [binary_round_aux], on the record of [A / B] with
    [A / B < 2 ^ 53]. *)
Lemma round_shifted_spec (s : bool) (A B E : Z) :
  0 <= A -> 0 < B -> A < 2 ^ 53 * B -> -1074 <= E ->
  round_shifted s (shr_of A B, E)
  = (if nearest_even A B =? 0 then S754_zero s
     else if nearest_even A B <? 2 ^ 53
          then if E <=? 971 then S754_finite s (Z.to_pos (nearest_even A B)) E
               else S754_infinity s
          else if E + 1 <=? 971 then S754_finite s (Z.to_pos (2 ^ 52)) (E + 1)
               else S754_infinity s).
Proof.
  intros HA HB Hlt HE.
  destruct (nearest_even_spec A B HA HB) as [[Hlo Hhi] _].
  assert (HM : A / B < 2 ^ 53) by (apply Z.div_lt_upper_bound; lia).
  assert (HM0 : 0 <= A / B) by (apply Z.div_pos; lia).
  unfold round_shifted. change (shr_m (shr_of A B)) with (A / B).
  fold (nearest_even A B).
  set (M' := nearest_even A B) in *.
  assert (Hrec : shr_record_of_loc M' loc_Exact = shr_of M' 1).
  { unfold shr_of. cbn [shr_record_of_loc]. rewrite Z.div_1_r, Z.mod_1_r, Z.div_1_r.
    rewrite Z.odd_mul. reflexivity. }
  unfold shr_fexp. rewrite Hrec, shr_shr_of by lia.
  cbn [shr_of shr_m]. rewrite Z.mul_1_l.
  rewrite fexp_unfold.
  destruct (Z.eqb_spec M' 0) as [Hz | Hnz].
  - rewrite Hz. cbn [Zdigits2]. rewrite Z.div_0_l; [reflexivity |].
    apply Z.pow_nonzero; lia.
  - destruct (Z.ltb_spec M' (2 ^ 53)) as [Hs | Hb].
    + pose proof (Zdigits2_le M' 53 ltac:(lia) Hs ltac:(lia)) as HD.
      rewrite Z.max_r by lia. change (2 ^ 0) with 1. rewrite Z.div_1_r, Z.add_0_r.
      destruct M' as [| m | m]; try lia. reflexivity.
    + assert (HM' : M' = 2 ^ 53) by lia. rewrite HM'.
      change (Zdigits2 (2 ^ 53)) with 54.
      replace (Z.max (Z.max (54 + E - 53) (-1074) - E) 0) with 1 by lia.
      reflexivity.
Qed.

Lemma Qratio_pos n d : (0 < Qratio n d)%Q.
Proof.
  unfold Qratio. apply Qlt_shift_div_l; [apply inject_Z_pos; reflexivity |].
  rewrite Qmult_0_l. apply inject_Z_pos. reflexivity.
Qed.

(** [of_ratio] in terms of the value [r = n / d]: with
    [2 ^ (mu - 1) <= r < 2 ^ mu] and [E = fexp mu], the mantissa is the
    integer nearest to [r / 2 ^ E], here the fraction [A / B]. *)
Lemma of_ratio_spec (s : bool) (n d : positive) (mu : Z) :
  bracket2 (Qratio n d) mu ->
  exists A B,
    0 < A /\ 0 < B /\ A < 2 ^ 53 * B
    /\ (inject_Z A * Q2 (fexp 53 1024 mu) == Qratio n d * inject_Z B)%Q
    /\ of_ratio s n d
       = (if nearest_even A B =? 0 then S754_zero s
          else if nearest_even A B <? 2 ^ 53
               then if fexp 53 1024 mu <=? 971
                    then S754_finite s (Z.to_pos (nearest_even A B)) (fexp 53 1024 mu)
                    else S754_infinity s
               else if fexp 53 1024 mu + 1 <=? 971
                    then S754_finite s (Z.to_pos (2 ^ 52)) (fexp 53 1024 mu + 1)
                    else S754_infinity s).
Proof.
  intros Hmu.
  destruct (div_then_shift n d mu Hmu) as [sft [k [Hs [Hk [Hks Hshift]]]]].
  set (E := fexp 53 1024 mu) in *.
  assert (HE : -1074 <= E /\ mu - 53 <= E) by (unfold E; rewrite fexp_unfold; lia).
  assert (P1 : 0 < 2 ^ sft) by (apply Z.pow_pos_nonneg; lia).
  assert (P2 : 0 < 2 ^ k) by (apply Z.pow_pos_nonneg; lia).
  exists (Zpos n * 2 ^ sft), (Zpos d * 2 ^ k).
  assert (HA : 0 < Zpos n * 2 ^ sft) by nia.
  assert (HB : 0 < Zpos d * 2 ^ k) by nia.
  pose proof (inject_Z_pos (Zpos d) eq_refl) as Pd.
  pose proof (inject_Z_pos (Zpos n) eq_refl) as Pn.
  assert (Hval : (inject_Z (Zpos n * 2 ^ sft) * Q2 E
                  == Qratio n d * inject_Z (Zpos d * 2 ^ k))%Q).
  { rewrite !inject_Z_mult, !Q2_inject by lia.
    assert (Ek : (Q2 k == Q2 sft * Q2 E)%Q).
    { rewrite <- Q2_add. replace (sft + E) with k by lia. reflexivity. }
    rewrite Ek. unfold Qratio. field. lra. }
  assert (Hlt : Zpos n * 2 ^ sft < 2 ^ 53 * (Zpos d * 2 ^ k)).
  { destruct Hmu as [_ Hmu2].
    rewrite Zlt_Qlt. rewrite (inject_Z_mult (2 ^ 53)), (Q2_inject 53) by lia.
    pose proof (inject_Z_pos _ HB) as PB. pose proof (Q2_pos E) as PE.
    apply (Qmul_cancel_lt _ _ (Q2 E) PE). rewrite Hval.
    assert (Hle : (Q2 mu <= Q2 53 * Q2 E)%Q).
    { rewrite <- Q2_add. apply Q2_le. lia. }
    set (r := Qratio n d) in *. set (Bq := inject_Z (Zpos d * 2 ^ k)) in *.
    assert (r * Bq < Q2 mu * Bq)%Q by (apply Qmult_lt_compat_r; assumption).
    assert (Q2 mu * Bq <= Q2 53 * Q2 E * Bq)%Q by (apply Qmult_le_compat_r; lra).
    lra. }
  split; [exact HA |]. split; [exact HB |]. split; [exact Hlt |]. split; [exact Hval |].
  rewrite of_ratio_round_shifted, Hshift.
  apply round_shifted_spec; lia.
Qed.

(** A finite result of [of_ratio] lies within half a unit of its last place
    of the fraction, its mantissa has at most 53 bits, and exactly 53 when
    the fraction is at least [2 ^ -1022]. *)
Lemma of_ratio_error (s s' : bool) (n d m : positive) (e : Z) :
  of_ratio s n d = S754_finite s' m e ->
  s' = s
  /\ Zpos m < 2 ^ 53
  /\ (2 * Qratio n d - Q2 e <= 2 * (inject_Z (Zpos m) * Q2 e) <= 2 * Qratio n d + Q2 e)%Q
  /\ ((Q2 (-1022) <= Qratio n d)%Q -> 2 ^ 52 <= Zpos m).
Proof.
  intros Hy.
  destruct (bracket2_exists n d) as [mu Hmu]. fold (Qratio n d) in Hmu.
  destruct (of_ratio_spec s n d mu Hmu) as [A [B [HA [HB [Hlt [Hval Hspec]]]]]].
  rewrite Hy in Hspec. clear Hy.
  set (E := fexp 53 1024 mu) in *.
  assert (HE : -1074 <= E /\ mu - 53 <= E) by (unfold E; rewrite fexp_unfold; lia).
  destruct (nearest_even_spec A B ltac:(lia) HB) as [[Hlo Hhi] Herr].
  assert (HM : A / B < 2 ^ 53) by (apply Z.div_lt_upper_bound; lia).
  assert (HM0 : 0 <= A / B) by (apply Z.div_pos; lia).
  set (M' := nearest_even A B) in *.
  pose proof (Q2_pos E) as PE. pose proof (inject_Z_pos B HB) as PB.
  set (r := Qratio n d) in *.
  (* the error of the mantissa *)
  assert (Herr1 : (2 * r - Q2 E <= 2 * (inject_Z M' * Q2 E))%Q).
  { apply (Qmul_cancel_le _ _ (inject_Z B) PB).
    assert (H : 2 * A <= 2 * (M' * B) + B) by lia.
    clearbody M' E r. clear Hspec.
    rewrite Zle_Qle in H.
    rewrite inject_Z_plus, !inject_Z_mult in H.
    change (inject_Z 2) with 2%Q in H.
    assert (H' : (2 * inject_Z A * Q2 E
                  <= (2 * (inject_Z M' * inject_Z B) + inject_Z B) * Q2 E)%Q)
      by (apply Qmult_le_compat_r; lra).
    lra. }
  assert (Herr2 : (2 * (inject_Z M' * Q2 E) <= 2 * r + Q2 E)%Q).
  { apply (Qmul_cancel_le _ _ (inject_Z B) PB).
    assert (H : 2 * (M' * B) <= 2 * A + B) by lia.
    clearbody M' E r. clear Hspec.
    rewrite Zle_Qle in H.
    rewrite inject_Z_plus, !inject_Z_mult in H.
    change (inject_Z 2) with 2%Q in H.
    assert (H' : (2 * (inject_Z M' * inject_Z B) * Q2 E
                  <= (2 * inject_Z A + inject_Z B) * Q2 E)%Q)
      by (apply Qmult_le_compat_r; lra).
    lra. }
  (* the normal range *)
  assert (Hnormal : (Q2 (-1022) <= r)%Q -> 2 ^ 52 <= A / B).
  { intros Hr. destruct Hmu as [Hmu1 Hmu2].
    assert (Hm : -1022 < mu) by (apply Q2_lt_inv; lra).
    assert (HEm : E = mu - 53) by (unfold E; rewrite fexp_unfold; lia).
    apply Z.div_le_lower_bound; [lia |].
    rewrite Z.mul_comm. rewrite Zle_Qle, inject_Z_mult, (Q2_inject 52) by lia.
    apply (Qmul_cancel_le _ _ (Q2 E) PE). rewrite Hval.
    assert (Hp : (Q2 52 * Q2 E == Q2 (mu - 1))%Q).
    { rewrite <- Q2_add. replace (52 + E) with (mu - 1) by lia. reflexivity. }
    assert (Q2 52 * Q2 E * inject_Z B <= r * inject_Z B)%Q
      by (rewrite Hp; apply Qmult_le_compat_r; lra).
    lra. }
  destruct (Z.eqb_spec M' 0) as [Hz | Hnz]; [discriminate |].
  destruct (Z.ltb_spec M' (2 ^ 53)) as [Hs | Hb].
  - destruct (Z.leb_spec E 971); [| discriminate].
    injection Hspec as -> -> ->.
    rewrite Z2Pos.id by lia.
    split; [reflexivity |]. split; [exact Hs |]. split; [split; assumption |].
    intros Hr. specialize (Hnormal Hr). lia.
  - destruct (Z.leb_spec (E + 1) 971); [| discriminate].
    injection Hspec as -> -> ->.
    assert (HM' : M' = 2 ^ 53) by lia.
    change 4503599627370496 with (2 ^ 52).
    assert (Hp : (inject_Z (2 ^ 52) * Q2 (E + 1) == inject_Z M' * Q2 E)%Q).
    { rewrite HM', !Q2_inject by lia. rewrite <- !Q2_add. 
      replace (52 + (E + 1)) with (53 + E) by lia. reflexivity. }
    assert (Hq : (Q2 E <= Q2 (E + 1))%Q) by (apply Q2_le; lia).
    split; [reflexivity |]. split; [lia |]. split; [rewrite Hp; split; lra |].
    intros _. lia.
Qed.

(** Between [2 ^ -1022] and [2 ^ 1023] the result is finite. *)
Lemma of_ratio_finite (s : bool) (n d : positive) :
  (Q2 (-1022) <= Qratio n d < Q2 1023)%Q ->
  exists m e, of_ratio s n d = S754_finite s m e.
Proof.
  intros [Hr1 Hr2].
  destruct (bracket2_exists n d) as [mu Hmu]. fold (Qratio n d) in Hmu.
  destruct (of_ratio_spec s n d mu Hmu) as [A [B [HA [HB [Hlt [Hval Hspec]]]]]].
  set (E := fexp 53 1024 mu) in *.
  destruct Hmu as [Hmu1 Hmu2].
  assert (Hm1 : -1022 < mu) by (apply Q2_lt_inv; lra).
  assert (Hm2 : mu - 1 < 1023) by (apply Q2_lt_inv; lra).
  assert (HEm : E = mu - 53) by (unfold E; rewrite fexp_unfold; lia).
  destruct (nearest_even_spec A B ltac:(lia) HB) as [[Hlo Hhi] _].
  pose proof (Q2_pos E) as PE. pose proof (inject_Z_pos B HB) as PB.
  assert (HM : 2 ^ 52 <= A / B).
  { apply Z.div_le_lower_bound; [lia |].
    rewrite Z.mul_comm. rewrite Zle_Qle, inject_Z_mult, (Q2_inject 52) by lia.
    apply (Qmul_cancel_le _ _ (Q2 E) PE). rewrite Hval.
    assert (Hp : (Q2 52 * Q2 E == Q2 (mu - 1))%Q).
    { rewrite <- Q2_add. replace (52 + E) with (mu - 1) by lia. reflexivity. }
    assert (Q2 52 * Q2 E * inject_Z B <= Qratio n d * inject_Z B)%Q
      by (rewrite Hp; apply Qmult_le_compat_r; lra).
    lra. }
  rewrite Hspec.
  destruct (Z.eqb_spec (nearest_even A B) 0); [lia |].
  destruct (Z.ltb_spec (nearest_even A B) (2 ^ 53)).
  - destruct (Z.leb_spec E 971); [eauto | lia].
  - destruct (Z.leb_spec (E + 1) 971); [eauto | lia].
Qed.

Lemma Q10_opp a : (Q10 (- a) == / Q10 a)%Q.
Proof. apply Qpower_opp. Qed.

Lemma of_decimal_ratio (s : bool) (c : positive) (p : Z) :
  exists n d, of_decimal s (Npos c) p = of_ratio s n d
              /\ (Qratio n d == Qdec (Zpos c) p)%Q.
Proof.
  unfold of_decimal. destruct (Z.leb_spec 0 p) as [Hp | Hp].
  - exists (c * Z.to_pos (10 ^ p))%positive, 1%positive. split; [reflexivity |].
    unfold Qratio, Qdec.
    assert (P : 0 < 10 ^ p) by (apply Z.pow_pos_nonneg; lia).
    rewrite Pos2Z.inj_mul, Z2Pos.id, inject_Z_mult, Q10_inject by lia.
    change (inject_Z 1) with 1%Q. field.
  - exists c, (Z.to_pos (10 ^ (- p))). split; [reflexivity |].
    unfold Qratio, Qdec.
    assert (P : 0 < 10 ^ (- p)) by (apply Z.pow_pos_nonneg; lia).
    rewrite Z2Pos.id, Q10_inject by lia.
    rewrite Q10_opp. pose proof (Q10_pos p). field. lra.
Qed.

Lemma of_decimal_error (s s' : bool) (c m : positive) (p e : Z) :
  of_decimal s (Npos c) p = S754_finite s' m e ->
  s' = s
  /\ Zpos m < 2 ^ 53
  /\ (2 * Qdec (Zpos c) p - Q2 e <= 2 * (inject_Z (Zpos m) * Q2 e)
      <= 2 * Qdec (Zpos c) p + Q2 e)%Q
  /\ ((Q2 (-1022) <= Qdec (Zpos c) p)%Q -> 2 ^ 52 <= Zpos m).
Proof.
  destruct (of_decimal_ratio s c p) as [n [d [-> Hv]]].
  intros H. apply of_ratio_error in H. rewrite Hv in H. exact H.
Qed.

Lemma of_decimal_finite (s : bool) (c : positive) (p : Z) :
  (Q2 (-1022) <= Qdec (Zpos c) p < Q2 1023)%Q ->
  exists m e, of_decimal s (Npos c) p = S754_finite s m e.
Proof.
  destruct (of_decimal_ratio s c p) as [n [d [-> Hv]]].
  intros H. apply of_ratio_finite. rewrite Hv. exact H.
Qed.

(** Two ways of writing the same decimal give the same Number. *)
Lemma of_decimal_ext (s : bool) (c c' : positive) (p p' : Z) :
  (Qdec (Zpos c) p == Qdec (Zpos c') p')%Q ->
  of_decimal s (Npos c) p = of_decimal s (Npos c') p'.
Proof.
  intros Hv.
  destruct (of_decimal_ratio s c p) as [n [d [-> Hr]]].
  destruct (of_decimal_ratio s c' p') as [n' [d' [-> Hr']]].
  apply of_ratio_ext.
  rewrite <- Hr, <- Hr' in Hv. unfold Qratio in Hv.
  pose proof (inject_Z_pos (Zpos d) eq_refl). pose proof (inject_Z_pos (Zpos d') eq_refl).
  assert (Hx : (inject_Z (Zpos n) * inject_Z (Zpos d')
                == inject_Z (Zpos n') * inject_Z (Zpos d))%Q).
  { apply (Qmult_inj_r _ _ (/ inject_Z (Zpos d) * / inject_Z (Zpos d'))%Q).
    - intros E.
      assert (0 < / inject_Z (Zpos d) * / inject_Z (Zpos d'))%Q.
      { apply Qmult_lt_0_compat; apply Qinv_lt_0_compat; assumption. }
      lra.
    - unfold Qdiv in Hv. 
      transitivity (inject_Z (Zpos n) * / inject_Z (Zpos d))%Q; [field; split; lra |].
      rewrite Hv. field. split; lra. }
  unfold Qeq in Hx. cbn in Hx. lia.
Qed.

Lemma ratio_of_value (m : positive) (e : Z) :
  (Qratio (fst (ratio_of m e)) (snd (ratio_of m e)) == inject_Z (Zpos m) * Q2 e)%Q.
Proof.
  unfold ratio_of, Qratio. destruct (Z.leb_spec 0 e) as [He | He]; cbn [fst snd].
  - assert (P : 0 < 2 ^ e) by (apply Z.pow_pos_nonneg; lia).
    rewrite Pos2Z.inj_mul, Z2Pos.id, inject_Z_mult, Q2_inject by lia.
    change (inject_Z 1) with 1%Q. field.
  - assert (P : 0 < 2 ^ (- e)) by (apply Z.pow_pos_nonneg; lia).
    rewrite Z2Pos.id, Q2_inject by lia. rewrite Q2_opp.
    pose proof (Q2_pos e). field. lra.
Qed.

Lemma reaches10_Q (a b : positive) (i j : Z) :
  0 <= i -> 0 <= j ->
  (reaches10 (Zpos a) (Zpos b) i j <-> (Q10 (i - j) <= Qratio a b)%Q).
Proof.
  intros Hi Hj. unfold reaches10, Qratio.
  pose proof (inject_Z_pos (Zpos b) eq_refl) as Pb.
  pose proof (Q10_pos j) as Pj.
  assert (E : (Q10 i == Q10 (i - j) * Q10 j)%Q).
  { rewrite <- Q10_add. replace (i - j + j) with i by lia. reflexivity. }
  rewrite Zle_Qle, !inject_Z_mult, !Q10_inject by lia.
  set (A := inject_Z (Zpos a)) in *. set (B := inject_Z (Zpos b)) in *.
  split; intros H.
  - apply Qle_shift_div_l; [exact Pb |].
    apply (Qmul_cancel_le _ _ (Q10 j) Pj). rewrite E in H. lra.
  - assert (H' : (Q10 (i - j) * B <= A)%Q).
    { apply (Qmul_cancel_le _ _ (/ B)%Q); [apply Qinv_lt_0_compat; exact Pb |].
      assert (E2 : (Q10 (i - j) * B * / B == Q10 (i - j))%Q) by (field; lra).
      rewrite E2. exact H. }
    rewrite E.
    assert (Q10 (i - j) * B * Q10 j <= A * Q10 j)%Q by (apply Qmult_le_compat_r; lra).
    lra.
Qed.

(** [10 ^ (n - 1) <= a / b < 10 ^ n] for [n = decimal_exponent a b]. *)
Lemma decimal_exponent_Q (a b : positive) :
  (Q10 (decimal_exponent a b - 1) <= Qratio a b < Q10 (decimal_exponent a b))%Q.
Proof.
  set (n := decimal_exponent a b).
  destruct (decimal_exponent_spec a b (Z.max (n - 1) 0) (Z.max (- (n - 1)) 0)
              (Z.max n 0) (Z.max (- n) 0)) as [Hge Hlt]; try (fold n; lia).
  apply reaches10_Q in Hge; try lia.
  rewrite reaches10_Q in Hlt by lia.
  replace (Z.max (n - 1) 0 - Z.max (- (n - 1)) 0) with (n - 1) in Hge by lia.
  replace (Z.max n 0 - Z.max (- n) 0) with n in Hlt by lia.
  split; [exact Hge |]. apply Qnot_le_lt. exact Hlt.
Qed.

Lemma scale10_Q (a b : positive) (sh : Z) :
  0 < fst (scale10 a b sh) /\ 0 < snd (scale10 a b sh)
  /\ (inject_Z (fst (scale10 a b sh))
      == Qratio a b * Q10 sh * inject_Z (snd (scale10 a b sh)))%Q.
Proof.
  unfold scale10, Qratio.
  pose proof (inject_Z_pos (Zpos b) eq_refl) as Pb.
  destruct (Z.leb_spec 0 sh) as [H | H]; cbn [fst snd].
  - assert (P : 0 < 10 ^ sh) by (apply Z.pow_pos_nonneg; lia).
    split; [nia |]. split; [lia |].
    rewrite inject_Z_mult, Q10_inject by lia. field. lra.
  - assert (P : 0 < 10 ^ (- sh)) by (apply Z.pow_pos_nonneg; lia).
    split; [lia |]. split; [nia |].
    rewrite inject_Z_mult, Q10_inject by lia. rewrite Q10_opp.
    pose proof (Q10_pos sh). field. split; lra.
Qed.

(** The candidates at [k] digits are the integers next to
    [(a / b) * 10 ^ (k - n)]. *)
Lemma candidates_spec (a b : positive) (n k s : Z) :
  In s (candidates a b n k)
  <-> 0 <= s
      /\ (inject_Z s - 1 < Qratio a b * Q10 (k - n) < inject_Z s + 1)%Q.
Proof.
  unfold candidates.
  destruct (scale10_Q a b (k - n)) as [Hnum [Hden Hval]].
  destruct (scale10 a b (k - n)) as [num den]. cbn [fst snd] in *.
  set (Y := (Qratio a b * Q10 (k - n))%Q) in *.
  pose proof (Z.div_mod num den ltac:(lia)) as Hdm.
  pose proof (Z.mod_pos_bound num den Hden) as Hr.
  assert (Hq0 : 0 <= num / den) by (apply Z.div_pos; lia).
  set (q := num / den) in *. set (r := num mod den) in *.
  pose proof (inject_Z_pos den Hden) as Pden.
  (* [q + r / den = Y] *)
  assert (HY : (inject_Z q * inject_Z den + inject_Z r == Y * inject_Z den)%Q).
  { rewrite <- Hval, Hdm, inject_Z_plus, inject_Z_mult. ring. }
  assert (Hr0 : (0 <= inject_Z r)%Q) by (change 0%Q with (inject_Z 0); rewrite <- Zle_Qle; lia).
  assert (Hr1 : (inject_Z r < inject_Z den)%Q) by (rewrite <- Zlt_Qlt; lia).
  assert (HqY : (inject_Z q <= Y)%Q).
  { apply (Qmul_cancel_le _ _ (inject_Z den) Pden). lra. }
  assert (HYq : (Y < inject_Z q + 1)%Q).
  { apply (Qmul_cancel_lt _ _ (inject_Z den) Pden). lra. }
  assert (Hexact : r = 0 -> (Y == inject_Z q)%Q).
  { intros Hz. rewrite Hz in HY. change (inject_Z 0) with 0%Q in HY.
    apply (Qmult_inj_r _ _ (inject_Z den)); [lra |]. lra. }
  assert (Hinexact : r <> 0 -> (inject_Z q < Y)%Q).
  { intros Hnz. assert (0 < r) by lia.
    assert (0 < inject_Z r)%Q by (apply inject_Z_pos; assumption).
    apply (Qmul_cancel_lt _ _ (inject_Z den) Pden). lra. }
  assert (Hmem : In s (if r =? 0 then [q]
                       else match 2 * r ?= den with
                            | Eq => if Z.even q then [q; q + 1] else [q + 1; q]
                            | Lt => [q; q + 1]
                            | Gt => [q + 1; q]
                            end)
                 <-> (s = q \/ (r <> 0 /\ s = q + 1))).
  { destruct (Z.eqb_spec r 0) as [Hz | Hnz].
    - cbn [In]. split; [intros [H | []]; auto | intros [H | [H _]]; [auto | tauto]].
    - destruct (2 * r ?= den); [destruct (Z.even q) |..]; cbn [In];
        split; intros H; repeat destruct H as [H | H]; auto; try tauto;
        try (destruct H as [_ H]; auto). }
  rewrite Hmem. split.
  - intros [-> | [Hnz ->]].
    + split; [exact Hq0 |]. split; lra.
    + split; [lia |]. specialize (Hinexact Hnz).
      rewrite inject_Z_plus. change (inject_Z 1) with 1%Q. split; lra.
  - intros [Hs [H1 H2]].
    assert (Hlo : q < s + 1).
    { rewrite Zlt_Qlt. rewrite inject_Z_plus.
      change (inject_Z 1) with 1%Q. lra. }
    assert (Hhi : s < q + 2).
    { rewrite Zlt_Qlt. rewrite inject_Z_plus.
      change (inject_Z 2) with 2%Q. lra. }
    destruct (Z.eq_dec s q) as [E | E]; [left; exact E |].
    right. assert (Es : s = q + 1) by lia. split; [| exact Es].
    intros Hz. specialize (Hexact Hz). rewrite Es, inject_Z_plus in H1.
    change (inject_Z 1) with 1%Q in H1. lra.
Qed.

Lemma eqb_finite (m : positive) (e : Z) (y : number) :
  Number.eqb (S754_finite false m e) y = true <-> y = S754_finite false m e.
Proof.
  split.
  - destruct y as [s | s | | s m' e']; try discriminate. cbn [Number.eqb].
    intros H. apply andb_prop in H as [H He]. apply andb_prop in H as [Hs Hm].
    apply Pos.eqb_eq in Hm. apply Z.eqb_eq in He. destruct s; [discriminate |].
    subst. reflexivity.
  - intros ->. cbn [Number.eqb]. rewrite Pos.eqb_refl, Z.eqb_refl. reflexivity.
Qed.

Lemma Q10_succ (z : Z) : (Q10 (z + 1) == 10 * Q10 z)%Q.
Proof. rewrite Q10_add. change (Q10 1) with 10%Q. ring. Qed.

Lemma inject_Z_inj (a b : Z) : (inject_Z a == inject_Z b)%Q -> a = b.
Proof. intros H. unfold Qeq in H. cbn in H. lia. Qed.

Lemma inject_Z_le_1 (t : Z) : 1 <= t -> (1 <= inject_Z t)%Q.
Proof. intros H. change 1%Q with (inject_Z 1). rewrite <- Zle_Qle. exact H. Qed.

Lemma find_all_false {A} (f : A -> bool) (l : list A) :
  (forall x, f x = false) -> find f l = None.
Proof.
  intros H. induction l as [| x l IH]; [reflexivity |].
  cbn [find]. rewrite H. exact IH.
Qed.

Lemma find_the_one {A} (f : A -> bool) (l : list A) (x0 : A) :
  In x0 l -> f x0 = true -> (forall x, f x = true -> x = x0) -> find f l = Some x0.
Proof.
  intros Hin Hf Huniq. destruct (find f l) as [x |] eqn:E.
  - apply find_some in E as [_ Hx]. rewrite (Huniq x Hx). reflexivity.
  - rewrite (find_none f l E x0 Hin) in Hf. discriminate.
Qed.

Lemma shortest_from_skip (t fuel : nat) (x : number) (a b : positive) (n k : Z) :
  (forall j s, k <= j < k + Z.of_nat t -> round_trips x n j s = false) ->
  shortest_from (t + fuel) x a b n k = shortest_from fuel x a b n (k + Z.of_nat t).
Proof.
  revert k. induction t as [| t IH]; intros k H.
  - cbn [Nat.add Z.of_nat]. rewrite Z.add_0_r. reflexivity.
  - cbn [Nat.add shortest_from].
    rewrite find_all_false by (intros s; apply H; lia).
    rewrite IH by (intros j s Hj; apply H; lia).
    f_equal. lia.
Qed.

Lemma round_trips_iff (m : positive) (e n k s : Z) :
  round_trips (S754_finite false m e) n k s = true
  <-> of_decimal false (Z.to_N s) (n - k) = S754_finite false m e.
Proof. unfold round_trips. apply eqb_finite. Qed.

Section ShortestDigits.

Variables (c : positive) (p k0 : Z) (m : positive) (e : Z).

Hypothesis Hk0 : 1 <= k0 <= 15.
Hypothesis Hc : 10 ^ (k0 - 1) <= Zpos c < 10 ^ k0.
Hypothesis Hc10 : Zpos c mod 10 <> 0.
Hypothesis Hy : of_decimal false (Npos c) p = S754_finite false m e.
Hypothesis Hnorm : (Q2 (-1022) <= Qdec (Zpos c) p)%Q.

(** The unit of the last binary place is small against the value, and
    against the last decimal place. *)
Lemma binary_unit_small :
  (4503599627370496 * Q2 e <= inject_Z (Zpos m) * Q2 e)%Q
  /\ (2 * Qdec (Zpos c) p - Q2 e <= 2 * (inject_Z (Zpos m) * Q2 e)
      <= 2 * Qdec (Zpos c) p + Q2 e)%Q
  /\ (inject_Z (Zpos m) * Q2 e <= 2 * Qdec (Zpos c) p)%Q
  /\ (inject_Z (Zpos c) < 1000000000000000)%Q
  /\ (Q2 e < Q10 p)%Q.
Proof.
  destruct (of_decimal_error _ _ _ _ _ _ Hy) as [_ [Hm53 [Herr Hnormal]]].
  specialize (Hnormal Hnorm).
  pose proof (Q2_pos e) as PE. pose proof (Q10_pos p) as PP.
  assert (H52 : (4503599627370496 * Q2 e <= inject_Z (Zpos m) * Q2 e)%Q).
  { apply Qmult_le_compat_r; [| lra].
    change 4503599627370496%Q with (inject_Z (2 ^ 52)). rewrite <- Zle_Qle. exact Hnormal. }
  assert (Hc15 : (inject_Z (Zpos c) < 1000000000000000)%Q).
  { change 1000000000000000%Q with (inject_Z (10 ^ 15)). rewrite <- Zlt_Qlt.
    assert (10 ^ k0 <= 10 ^ 15) by (apply Z.pow_le_mono_r; lia). lia. }
  assert (Hy2 : (inject_Z (Zpos m) * Q2 e <= 2 * Qdec (Zpos c) p)%Q) by lra.
  split; [exact H52 |]. split; [exact Herr |]. split; [exact Hy2 |].
  split; [exact Hc15 |].
  unfold Qdec in *.
  assert (inject_Z (Zpos c) * Q10 p < 1000000000000000 * Q10 p)%Q
    by (apply Qmult_lt_compat_r; assumption).
  lra.
Qed.

(** The decade of the Number: that of the decimal, or the one below when
    the decimal is a power of ten that was rounded down. *)
Lemma decade_of_result :
  let n' := decimal_exponent (fst (ratio_of m e)) (snd (ratio_of m e)) in
  (Q10 (n' - 1) <= inject_Z (Zpos m) * Q2 e < Q10 n')%Q
  /\ (n' = p + k0 \/ (n' = p /\ k0 = 1 /\ c = 1%positive)).
Proof.
  intros n'.
  pose proof (decimal_exponent_Q (fst (ratio_of m e)) (snd (ratio_of m e))) as Hdec.
  rewrite ratio_of_value in Hdec. fold n' in Hdec.
  split; [exact Hdec |].
  destruct binary_unit_small as [H52 [[Herr1 Herr2] [Hy2 [Hc15 HK]]]].
  destruct Hdec as [Hd1 Hd2].
  set (yv := (inject_Z (Zpos m) * Q2 e)%Q) in *.
  unfold Qdec in *.
  pose proof (Q10_pos p) as PT. pose proof (Q2_pos e) as PE.
  set (T := Q10 p) in *. set (C := inject_Z (Zpos c)) in *.
  assert (HC1 : (Q10 (k0 - 1) <= C)%Q).
  { unfold C. rewrite <- Q10_inject by lia. rewrite <- Zle_Qle. lia. }
  assert (HC2 : (C + 1 <= Q10 k0)%Q).
  { unfold C. rewrite <- Q10_inject by lia. change 1%Q with (inject_Z 1).
    rewrite <- inject_Z_plus, <- Zle_Qle. lia. }
  assert (Hone : (1 <= Q10 (k0 - 1))%Q).
  { rewrite <- Q10_inject by lia. apply inject_Z_le_1.
    assert (0 < 10 ^ (k0 - 1)) by (apply Z.pow_pos_nonneg; lia). lia. }
  assert (EP : (Q10 (p + k0) == Q10 k0 * T)%Q).
  { rewrite Q10_add. unfold T. ring. }
  assert (EP1 : (Q10 (p + k0 - 1) == Q10 (k0 - 1) * T)%Q).
  { replace (p + k0 - 1) with (p + (k0 - 1)) by lia. rewrite Q10_add. unfold T. ring. }
  assert (M1 : (C * T + T <= Q10 k0 * T)%Q).
  { assert ((C + 1) * T <= Q10 k0 * T)%Q by (apply Qmult_le_compat_r; lra). lra. }
  assert (M2 : (Q10 (k0 - 1) * T <= C * T)%Q) by (apply Qmult_le_compat_r; lra).
  assert (M3 : (T <= Q10 (k0 - 1) * T)%Q).
  { assert (1 * T <= Q10 (k0 - 1) * T)%Q by (apply Qmult_le_compat_r; lra). lra. }
  assert (Hup : n' <= p + k0).
  { assert (n' - 1 < p + k0) by (apply Q10_lt_inv; rewrite EP; lra). lia. }
  assert (Hdown : p + k0 - 1 <= n').
  { assert (E2 : (Q10 (p + k0 - 1) == 10 * Q10 (p + k0 - 2))%Q).
    { replace (p + k0 - 1) with (p + k0 - 2 + 1) by lia. apply Q10_succ. }
    pose proof (Q10_pos (p + k0 - 2)).
    assert (p + k0 - 2 < n') by (apply Q10_lt_inv; lra). lia. }
  destruct (Z.eq_dec n' (p + k0)) as [E | E]; [left; exact E |].
  right. assert (En : n' = p + k0 - 1) by lia.
  rewrite En, EP1 in Hd2.
  assert (Hlt : (2 * C < 2 * Q10 (k0 - 1) + 1)%Q).
  { apply (Qmul_cancel_lt _ _ T PT). lra. }
  assert (Hcz : Zpos c = 10 ^ (k0 - 1)).
  { assert (2 * Zpos c < 2 * 10 ^ (k0 - 1) + 1); [| lia].
    rewrite Zlt_Qlt, inject_Z_plus, !inject_Z_mult, Q10_inject by lia.
    exact Hlt. }
  assert (Hk1 : k0 = 1).
  { destruct (Z.eq_dec k0 1) as [Hk | Hk]; [exact Hk |]. exfalso. apply Hc10.
    rewrite Hcz. replace (k0 - 1) with (Z.succ (k0 - 2)) by lia.
    rewrite Z.pow_succ_r by lia. rewrite Z.mul_comm. apply Z.mod_mul. lia. }
  split; [lia |]. split; [exact Hk1 |].
  rewrite Hk1 in Hcz. change (10 ^ (1 - 1)) with 1 in Hcz. lia.
Qed.

(** Digits that read back as the Number denote the decimal itself, when
    there are at most fifteen of them. *)
Lemma round_trip_same_decimal (k s : Z) :
  let n' := decimal_exponent (fst (ratio_of m e)) (snd (ratio_of m e)) in
  1 <= k <= 15 ->
  of_decimal false (Z.to_N s) (n' - k) = S754_finite false m e ->
  (Qdec s (n' - k) == Qdec (Zpos c) p)%Q.
Proof.
  intros n' Hk Hs.
  destruct decade_of_result as [[Hd1 Hd2] Hn']. fold n' in Hd1, Hd2, Hn'.
  destruct binary_unit_small as [H52 [[Herr1 Herr2] [Hy2 [Hc15 HK]]]].
  destruct s as [| s | s]; try discriminate.
  cbn [Z.to_N] in Hs.
  destruct (of_decimal_error _ _ _ _ _ _ Hs) as [_ [_ [[Hs1 Hs2] _]]].
  set (yv := (inject_Z (Zpos m) * Q2 e)%Q) in *.
  pose proof (Q2_pos e) as PE.
  set (g := Z.min p (n' - k)).
  set (T := Zpos s * 10 ^ (n' - k - g) - Zpos c * 10 ^ (p - g)).
  assert (Hdiff : (Qdec (Zpos s) (n' - k) - Qdec (Zpos c) p == inject_Z T * Q10 g)%Q).
  { unfold T, Qdec.
    assert (E : (inject_Z (Zpos s * 10 ^ (n' - k - g) - Zpos c * 10 ^ (p - g))
                 == inject_Z (Zpos s) * Q10 (n' - k - g)
                    - inject_Z (Zpos c) * Q10 (p - g))%Q).
    { unfold Z.sub at 1. rewrite inject_Z_plus, inject_Z_opp, !inject_Z_mult.
      rewrite !Q10_inject by (unfold g; lia). ring. }
    rewrite E.
    assert (E1 : (Q10 (n' - k) == Q10 (n' - k - g) * Q10 g)%Q).
    { rewrite <- Q10_add. replace (n' - k - g + g) with (n' - k) by lia. reflexivity. }
    assert (E2 : (Q10 p == Q10 (p - g) * Q10 g)%Q).
    { rewrite <- Q10_add. replace (p - g + g) with p by lia. reflexivity. }
    rewrite E1, E2. ring. }
  assert (HKg : (Q2 e < Q10 g)%Q).
  { unfold g. destruct (Z.min_spec p (n' - k)) as [[_ ->] | [_ ->]]; [exact HK |].
    assert (En : (Q10 n' == Q10 k * Q10 (n' - k))%Q).
    { rewrite <- Q10_add. replace (k + (n' - k)) with n' by lia. reflexivity. }
    assert (Hk15 : (Q10 k <= 1000000000000000)%Q).
    { rewrite <- Q10_inject by lia. change 1000000000000000%Q with (inject_Z (10 ^ 15)).
      rewrite <- Zle_Qle. apply Z.pow_le_mono_r; lia. }
    pose proof (Q10_pos (n' - k)) as Pnk.
    assert (Q10 k * Q10 (n' - k) <= 1000000000000000 * Q10 (n' - k))%Q
      by (apply Qmult_le_compat_r; lra).
    lra. }
  pose proof (Q10_pos g) as Pg.
  assert (HT : T = 0).
  { destruct (Z.lt_trichotomy T 0) as [Hneg | [Hz | Hpos]]; [| exact Hz |]; exfalso.
    - assert (H1 : (1 <= inject_Z (- T))%Q) by (apply inject_Z_le_1; lia).
      rewrite inject_Z_opp in H1.
      assert (H2 : (1 * Q10 g <= - inject_Z T * Q10 g)%Q)
        by (apply Qmult_le_compat_r; lra).
      lra.
    - assert (H1 : (1 <= inject_Z T)%Q) by (apply inject_Z_le_1; lia).
      assert (H2 : (1 * Q10 g <= inject_Z T * Q10 g)%Q)
        by (apply Qmult_le_compat_r; lra).
      lra. }
  rewrite HT in Hdiff. change (inject_Z 0) with 0%Q in Hdiff. lra.
Qed.

Lemma no_shorter_digits (j s : Z) :
  let n' := decimal_exponent (fst (ratio_of m e)) (snd (ratio_of m e)) in
  n' = p + k0 -> 1 <= j < k0 ->
  round_trips (S754_finite false m e) n' j s = false.
Proof.
  intros n' Hn' Hj.
  destruct (round_trips (S754_finite false m e) n' j s) eqn:E; [| reflexivity].
  exfalso. apply round_trips_iff in E.
  pose proof (round_trip_same_decimal j s ltac:(lia) E) as Hsame.
  fold n' in Hsame. rewrite Hn' in Hsame. unfold Qdec in Hsame.
  pose proof (Q10_pos p) as PT.
  assert (E1 : (Q10 (p + k0 - j) == Q10 (k0 - j) * Q10 p)%Q).
  { rewrite <- Q10_add. replace (k0 - j + p) with (p + k0 - j) by lia. reflexivity. }
  rewrite E1 in Hsame.
  assert (Hz : (inject_Z s * Q10 (k0 - j) == inject_Z (Zpos c))%Q).
  { apply (Qmult_inj_r _ _ (Q10 p)); [lra |]. lra. }
  assert (Hz' : (inject_Z (s * 10 ^ (k0 - j)) == inject_Z (Zpos c))%Q)
    by (rewrite inject_Z_mult, Q10_inject by lia; exact Hz).
  apply inject_Z_inj in Hz'.
  apply Hc10. rewrite <- Hz'.
  replace (k0 - j) with (Z.succ (k0 - j - 1)) by lia.
  rewrite Z.pow_succ_r by lia.
  replace (s * (10 * 10 ^ (k0 - j - 1))) with (s * 10 ^ (k0 - j - 1) * 10) by ring.
  apply Z.mod_mul. lia.
Qed.

Lemma found_with_all_digits :
  let n' := decimal_exponent (fst (ratio_of m e)) (snd (ratio_of m e)) in
  n' = p + k0 ->
  find (round_trips (S754_finite false m e) n' k0)
    (candidates (fst (ratio_of m e)) (snd (ratio_of m e)) n' k0)
  = Some (Zpos c).
Proof.
  intros n' Hn'.
  destruct binary_unit_small as [H52 [[Herr1 Herr2] [Hy2 [Hc15 HK]]]].
  pose proof (Q10_pos p) as PT. pose proof (Q2_pos e) as PE.
  apply find_the_one.
  - apply candidates_spec. split; [lia |].
    rewrite ratio_of_value. rewrite Hn'.
    replace (k0 - (p + k0)) with (- p) by lia. rewrite Q10_opp.
    unfold Qdec in *.
    set (yv := (inject_Z (Zpos m) * Q2 e)%Q) in *.
    set (T := Q10 p) in *. set (C := inject_Z (Zpos c)) in *.
    assert (PI : (0 < / T)%Q) by (apply Qinv_lt_0_compat; exact PT).
    assert (EI : forall z : Q, (z * T * / T == z)%Q) by (intros z; field; lra).
    split.
    + apply (Qmul_cancel_lt _ _ T PT).
      assert (E : (yv * / T * T == yv)%Q) by (field; lra). rewrite E. lra.
    + apply (Qmul_cancel_lt _ _ T PT).
      assert (E : (yv * / T * T == yv)%Q) by (field; lra). rewrite E. lra.
  - apply round_trips_iff. rewrite Hn'.
    replace (p + k0 - k0) with p by lia. exact Hy.
  - intros s Hs. apply round_trips_iff in Hs.
    pose proof (round_trip_same_decimal k0 s ltac:(lia) Hs) as Hsame.
    fold n' in Hsame. rewrite Hn' in Hsame.
    replace (p + k0 - k0) with p in Hsame by lia. unfold Qdec in Hsame.
    assert (Hz : (inject_Z s == inject_Z (Zpos c))%Q).
    { apply (Qmult_inj_r _ _ (Q10 p)); [lra |]. exact Hsame. }
    apply inject_Z_inj in Hz. exact Hz.
Qed.

Lemma found_power_of_ten :
  let n' := decimal_exponent (fst (ratio_of m e)) (snd (ratio_of m e)) in
  n' = p -> k0 = 1 -> c = 1%positive ->
  find (round_trips (S754_finite false m e) n' 1)
    (candidates (fst (ratio_of m e)) (snd (ratio_of m e)) n' 1)
  = Some 10.
Proof.
  intros n' Hn' Hk Hc1.
  destruct binary_unit_small as [H52 [[Herr1 Herr2] [Hy2 [Hc15 HK]]]].
  pose proof (Q10_pos p) as PT. pose proof (Q2_pos e) as PE.
  pose proof (Q10_pos (p - 1)) as PT1.
  assert (ET : (Q10 p == 10 * Q10 (p - 1))%Q).
  { replace p with (p - 1 + 1) at 1 by lia. apply Q10_succ. }
  assert (Ev : (Qdec (Zpos c) p == Q10 p)%Q).
  { rewrite Hc1. unfold Qdec. change (inject_Z 1) with 1%Q. ring. }
  rewrite Ev in Herr1, Herr2, Hy2.
  apply find_the_one.
  - apply candidates_spec. split; [lia |].
    rewrite ratio_of_value. rewrite Hn'.
    replace (1 - p) with (- (p - 1)) by lia. rewrite Q10_opp.
    set (yv := (inject_Z (Zpos m) * Q2 e)%Q) in *.
    change (inject_Z 10) with 10%Q.
    split.
    + apply (Qmul_cancel_lt _ _ (Q10 (p - 1)) PT1).
      assert (E : (yv * / Q10 (p - 1) * Q10 (p - 1) == yv)%Q) by (field; lra).
      rewrite E. lra.
    + apply (Qmul_cancel_lt _ _ (Q10 (p - 1)) PT1).
      assert (E : (yv * / Q10 (p - 1) * Q10 (p - 1) == yv)%Q) by (field; lra).
      rewrite E. lra.
  - apply round_trips_iff. rewrite Hn'.
    change (Z.to_N 10) with (10 * 1)%N. rewrite of_decimal_shift.
    rewrite <- Hc1. exact Hy.
  - intros s Hs. apply round_trips_iff in Hs.
    pose proof (round_trip_same_decimal 1 s ltac:(lia) Hs) as Hsame.
    fold n' in Hsame. rewrite Hn', Ev in Hsame. unfold Qdec in Hsame.
    assert (Hz : (inject_Z s == inject_Z 10)%Q).
    { change (inject_Z 10) with 10%Q.
      apply (Qmult_inj_r _ _ (Q10 (p - 1))); [lra |]. lra. }
    apply inject_Z_inj in Hz. exact Hz.
Qed.

(** The digits that [Number::toString] finds are the digits of the decimal,
    and the exponent is its decade. *)
Lemma shortest_of_decimal : shortest m e = (decimal_digits (Npos c), p + k0).
Proof.
  unfold shortest.
  pose proof decade_of_result as Hdec.
  pose proof no_shorter_digits as Hshort.
  pose proof found_with_all_digits as Hfound.
  pose proof found_power_of_ten as Hten.
  cbv zeta in Hdec, Hshort, Hfound, Hten.
  destruct (ratio_of m e) as [a b]. cbn [fst snd] in *.
  set (n' := decimal_exponent a b) in *.
  destruct Hdec as [_ [Hn' | [Hn' [Hk Hc1]]]].
  - (* the digits of the decimal *)
    assert (Hfuel : (17 = Z.to_nat (k0 - 1) + S (Z.to_nat (17 - k0)))%nat) by lia.
    rewrite Hfuel.
    rewrite shortest_from_skip
      by (intros j s Hj; apply Hshort; [exact Hn' | lia]).
    replace (1 + Z.of_nat (Z.to_nat (k0 - 1))) with k0 by lia.
    cbn [shortest_from]. rewrite (Hfound Hn').
    destruct (Z.eqb_spec (Zpos c) (10 ^ k0)); [lia |].
    rewrite Hn'. reflexivity.
  - (* a power of ten that was rounded down *)
    change 17%nat with (S 16). cbn [shortest_from].
    rewrite (Hten Hn' Hk Hc1).
    change (10 =? 10 ^ 1) with true. cbn iota.
    rewrite Hn', Hk, Hc1. reflexivity.
Qed.

End ShortestDigits.

Lemma toString_finite (s : bool) (m : positive) (e : Z) :
  toString (S754_finite s m e)
  = sign_text s ++ decimal_text (fst (shortest m e)) (snd (shortest m e)).
Proof.
  unfold toString, decimal_text. destruct (shortest m e) as [ds n]. reflexivity.
Qed.

Lemma round_shifted_sign (s s' : bool) (x : shr_record * Z) (m : positive) (e : Z) :
  round_shifted s x = S754_finite s' m e ->
  round_shifted false x = S754_finite false m e.
Proof.
  unfold round_shifted. destruct x as [mrs e0].
  destruct (shr_fexp 53 1024 _ e0 loc_Exact) as [mrs'' e''].
  destruct (shr_m mrs''); try discriminate.
  destruct (e'' <=? 1024 - 53); [| discriminate].
  intros H. injection H as _ -> ->. reflexivity.
Qed.

Lemma of_decimal_sign (s s' : bool) (c m : positive) (p e : Z) :
  of_decimal s (Npos c) p = S754_finite s' m e ->
  of_decimal false (Npos c) p = S754_finite false m e.
Proof.
  unfold of_decimal. destruct (0 <=? p); rewrite !of_ratio_round_shifted;
    apply round_shifted_sign.
Qed.

(** What [String] prints for the Number of a decimal of at most fifteen
    digits, between [2 ^ -1022] and [2 ^ 1023]: the digits of the decimal. *)
Lemma toString_of_decimal (s : bool) (c : positive) (p k0 : Z) :
  1 <= k0 <= 15 ->
  10 ^ (k0 - 1) <= Zpos c < 10 ^ k0 ->
  Zpos c mod 10 <> 0 ->
  (Q2 (-1022) <= Qdec (Zpos c) p < Q2 1023)%Q ->
  toString (of_decimal s (Npos c) p)
  = sign_text s ++ decimal_text (decimal_digits (Npos c)) (p + k0).
Proof.
  intros Hk0 Hc Hc10 Hrange.
  destruct (of_decimal_finite s c p Hrange) as [m [e Hy]].
  pose proof (of_decimal_sign _ _ _ _ _ _ Hy) as Hy0.
  rewrite Hy, toString_finite.
  rewrite (shortest_of_decimal c p k0 m e Hk0 Hc Hc10 Hy0 (proj1 Hrange)).
  reflexivity.
Qed.

Lemma drop_trailing_zeros_spec (fuel : nat) (n : Z) :
  0 < n < 10 ^ Z.of_nat fuel ->
  exists z, 0 <= z
    /\ n = drop_trailing_zeros fuel n * 10 ^ z
    /\ 0 < drop_trailing_zeros fuel n
    /\ drop_trailing_zeros fuel n mod 10 <> 0.
Proof.
  revert n. induction fuel as [| f IH]; intros n Hn.
  - change (10 ^ Z.of_nat 0) with 1 in Hn. lia.
  - cbn [drop_trailing_zeros]. destruct (Z.eqb_spec (n mod 10) 0) as [Hz | Hnz].
    + pose proof (Z.div_mod n 10 ltac:(lia)) as Hdm. rewrite Hz in Hdm.
      rewrite Nat2Z.inj_succ, Z.pow_succ_r in Hn by lia.
      destruct (IH (n / 10)) as [z [Hz0 [Hval [Hpos Hmod]]]]; [lia |].
      exists (z + 1). split; [lia |]. split; [| split; assumption].
      rewrite Z.pow_add_r by lia. change (10 ^ 1) with 10. lia.
    + exists 0. change (10 ^ 0) with 1. split; [lia |].
      split; [lia |]. split; [lia | exact Hnz].
Qed.

Lemma pow10_bounds_Q :
  (Q2 (-1022) <= Q10 (-307))%Q /\ (Q10 307 < Q2 1023)%Q.
Proof.
  assert (H1 : 10 ^ 307 <= 2 ^ 1022) by (vm_compute; discriminate).
  assert (H2 : 10 ^ 307 < 2 ^ 1023) by (vm_compute; reflexivity).
  rewrite Zle_Qle, Q10_inject, Q2_inject in H1 by lia.
  rewrite Zlt_Qlt, Q10_inject, Q2_inject in H2 by lia.
  split; [| exact H2].
  assert (E2 : (Q2 (-1022) == / Q2 1022)%Q) by exact (Q2_opp 1022).
  assert (E10 : (Q10 (-307) == / Q10 307)%Q) by exact (Q10_opp 307).
  rewrite E2, E10.
  pose proof (Q2_pos 1022). pose proof (Q10_pos 307).
  apply Qle_shift_inv_l; [assumption |].
  assert (E : (/ Q2 1022 * Q10 307 == Q10 307 / Q2 1022)%Q) by (field; lra).
  rewrite E. apply Qle_shift_div_r; [assumption |]. lra.
Qed.

(** The text for a decimal of twelve digits [n] and exponent [e - 11]
    within the range of the normal numbers: the digits without the zeros at
    their end, laid out for the decade [e]. *)
Lemma toString_twelve_digits (s : bool) (n e : Z) :
  10 ^ 11 <= n < 10 ^ 12 -> -307 <= e <= 306 ->
  toString (of_decimal s (Z.to_N n) (e - 11))
  = sign_text s
    ++ decimal_text (decimal_digits (Z.to_N (drop_trailing_zeros 12 n))) (e + 1).
Proof.
  intros Hn He.
  destruct (drop_trailing_zeros_spec 12 n) as [z [Hz [Hval [Hpos Hmod]]]].
  { change (Z.of_nat 12) with 12. lia. }
  set (c := drop_trailing_zeros 12 n) in *.
  assert (P : 0 < 10 ^ z) by (apply Z.pow_pos_nonneg; lia).
  assert (Hz11 : z <= 11).
  { destruct (Z.le_gt_cases z 11) as [H | H]; [exact H |].
    assert (10 ^ 12 <= 10 ^ z) by (apply Z.pow_le_mono_r; lia). nia. }
  assert (Hc : 10 ^ (12 - z - 1) <= c < 10 ^ (12 - z)).
  { assert (E1 : 10 ^ 11 = 10 ^ (12 - z - 1) * 10 ^ z).
    { rewrite <- Z.pow_add_r by lia. f_equal. lia. }
    assert (E2 : 10 ^ 12 = 10 ^ (12 - z) * 10 ^ z).
    { rewrite <- Z.pow_add_r by lia. f_equal. lia. }
    split; nia. }
  destruct c as [| c' | c'] eqn:Ec; try lia.
  destruct n as [| n' | n'] eqn:En; try lia.
  cbn [Z.to_N].
  assert (Hsame : (Qdec (Zpos n') (e - 11) == Qdec (Zpos c') (e - 11 + z))%Q).
  { unfold Qdec. rewrite Hval, inject_Z_mult, Q10_inject by lia.
    rewrite (Q10_add (e - 11) z). ring. }
  rewrite (of_decimal_ext s n' c' (e - 11) (e - 11 + z) Hsame).
  rewrite (toString_of_decimal s c' (e - 11 + z) (12 - z)); try lia.
  - replace (e - 11 + z + (12 - z)) with (e + 1) by lia. reflexivity.
  - rewrite <- Hsame. unfold Qdec.
    destruct pow10_bounds_Q as [B1 B2].
    pose proof (Q10_pos (e - 11)) as PT.
    assert (Hn1 : (Q10 11 <= inject_Z (Zpos n'))%Q).
    { rewrite <- Q10_inject by lia. rewrite <- Zle_Qle. lia. }
    assert (Hn2 : (inject_Z (Zpos n') < Q10 12)%Q).
    { rewrite <- Q10_inject by lia. rewrite <- Zlt_Qlt. lia. }
    assert (E1 : (Q10 e == Q10 11 * Q10 (e - 11))%Q).
    { rewrite <- Q10_add. replace (11 + (e - 11)) with e by lia. reflexivity. }
    assert (E2 : (Q10 (e + 1) == Q10 12 * Q10 (e - 11))%Q).
    { rewrite <- Q10_add. replace (12 + (e - 11)) with (e + 1) by lia. reflexivity. }
    assert (L1 : (Q10 (-307) <= Q10 e)%Q) by (apply Q10_le; lia).
    assert (L2 : (Q10 (e + 1) <= Q10 307)%Q) by (apply Q10_le; lia).
    assert (M1 : (Q10 11 * Q10 (e - 11) <= inject_Z (Zpos n') * Q10 (e - 11))%Q)
      by (apply Qmult_le_compat_r; lra).
    assert (M2 : (inject_Z (Zpos n') * Q10 (e - 11) < Q10 12 * Q10 (e - 11))%Q)
      by (apply Qmult_lt_compat_r; lra).
    split; lra.
Qed.

(** *** Integers *)

Lemma digits_aux_acc (fuel : nat) (n : N) (acc : jsstring) :
  digits_aux fuel n acc = digits_aux fuel n [] ++ acc.
Proof.
  revert n acc. induction fuel as [| f IH]; intros n acc; [reflexivity |].
  cbn [digits_aux]. destruct (N.ltb n 10); [reflexivity |].
  rewrite IH, (IH _ [_]), <- app_assoc. reflexivity.
Qed.

Lemma digits_aux_fuel (f1 f2 : nat) (n : N) (acc : jsstring) :
  (0 < n)%N -> (n < 2 ^ N.of_nat f1)%N -> (n < 2 ^ N.of_nat f2)%N ->
  digits_aux f1 n acc = digits_aux f2 n acc.
Proof.
  revert f2 n acc. induction f1 as [| f1 IH]; intros f2 n acc Hpos H1 H2.
  - cbn in H1. lia.
  - destruct f2 as [| f2]; [cbn in H2; lia |].
    cbn [digits_aux]. destruct (N.ltb_spec n 10) as [Hs | Hb]; [reflexivity |].
    rewrite Nat2N.inj_succ, N.pow_succ_r' in H1, H2.
    apply IH.
    + apply N.div_str_pos. lia.
    + apply N.Div0.div_lt_upper_bound. lia.
    + apply N.Div0.div_lt_upper_bound. lia.
Qed.

Lemma decimal_digits_times_10 (n : N) :
  (0 < n)%N -> decimal_digits (10 * n) = decimal_digits n ++ [ch "0"].
Proof.
  intros Hn. unfold decimal_digits at 1. cbn [digits_aux].
  destruct (N.ltb_spec (10 * n) 10) as [H | _]; [lia |].
  replace (10 * n / 10)%N with n by (rewrite N.mul_comm, N.div_mul; [reflexivity | discriminate]).
  replace ((10 * n) mod 10)%N with 0%N
    by (rewrite N.mul_comm, N.Div0.mod_mul; reflexivity).
  rewrite digits_aux_acc. f_equal.
  unfold decimal_digits. apply digits_aux_fuel.
  - exact Hn.
  - rewrite N2Nat.id.
    pose proof (N.log2_spec (10 * n) ltac:(lia)) as [_ Hup].
    rewrite N.pow_succ_r' in Hup. lia.
  - rewrite Nat2N.inj_succ, N2Nat.id. apply N.log2_spec. exact Hn.
Qed.

Lemma decimal_digits_times_pow10 (c : N) (z : nat) :
  (0 < c)%N ->
  decimal_digits (c * 10 ^ N.of_nat z) = decimal_digits c ++ repeat (ch "0") z.
Proof.
  intros Hc. induction z as [| z IH].
  - cbn [repeat]. rewrite app_nil_r. f_equal. cbn. lia.
  - rewrite Nat2N.inj_succ, N.pow_succ_r'.
    replace (c * (10 * 10 ^ N.of_nat z))%N with (10 * (c * 10 ^ N.of_nat z))%N by lia.
    rewrite decimal_digits_times_10.
    + rewrite IH, <- app_assoc. f_equal.
      change [ch "0"] with (repeat (ch "0") 1). rewrite <- repeat_app.
      f_equal. lia.
    + assert (0 < 10 ^ N.of_nat z)%N by (apply N.neq_0_lt_0, N.pow_nonzero; discriminate).
      lia.
Qed.

(** Rounding gives back a Number whose value it is asked to round. *)
Lemma of_ratio_exact (s : bool) (n d m : positive) (e : Z) :
  valid_binary 53 1024 (S754_finite s m e) = true ->
  (Qratio n d == inject_Z (Zpos m) * Q2 e)%Q ->
  of_ratio s n d = S754_finite s m e.
Proof.
  intros Hvalid Hval. cbn [valid_binary] in Hvalid. unfold bounded in Hvalid.
  apply andb_prop in Hvalid as [Hcan He].
  unfold canonical_mantissa in Hcan. apply Z.eqb_eq in Hcan. apply Z.leb_le in He.
  change (1024 - 53) with 971 in He.
  pose proof (digits2_pos_bounds m) as [HD1 HD2].
  set (D := Zpos (digits2_pos m)) in *.
  assert (HDpos : 1 <= D) by (unfold D; lia).
  assert (HD53 : D <= 53) by (rewrite fexp_unfold in Hcan; lia).
  pose proof (Q2_pos e) as PE.
  assert (Hmu : bracket2 (Qratio n d) (D + e)).
  { unfold bracket2. rewrite Hval.
    rewrite Zle_Qle, Q2_inject in HD1 by lia.
    rewrite Zlt_Qlt, Q2_inject in HD2 by lia.
    assert (E1 : (Q2 (D + e - 1) == Q2 (D - 1) * Q2 e)%Q).
    { rewrite <- Q2_add. replace (D - 1 + e) with (D + e - 1) by lia. reflexivity. }
    assert (E2 : (Q2 (D + e) == Q2 D * Q2 e)%Q) by apply Q2_add.
    rewrite E1, E2. split.
    - apply Qmult_le_compat_r; lra.
    - apply Qmult_lt_compat_r; lra. }
  destruct (of_ratio_spec s n d (D + e) Hmu) as [A [B [HA [HB [Hlt [HvalA ->]]]]]].
  rewrite Hcan in *.
  assert (HAB : A = Zpos m * B).
  { apply inject_Z_inj. rewrite inject_Z_mult.
    apply (Qmult_inj_r _ _ (Q2 e)); [lra |]. rewrite HvalA, Hval. ring. }
  assert (Hnear : nearest_even A B = Zpos m).
  { unfold nearest_even, shr_of. rewrite HAB.
    rewrite Z.div_mul by lia.
    replace (2 * (Zpos m * B)) with (2 * Zpos m * B) by ring.
    rewrite Z.div_mul, Z.mod_mul by lia.
    rewrite Z.odd_mul. reflexivity. }
  rewrite Hnear.
  destruct (Z.ltb_spec (Zpos m) (2 ^ 53)) as [_ | Hbig].
  - destruct (Z.leb_spec e 971); [reflexivity | lia].
  - assert (2 ^ D <= 2 ^ 53) by (apply Z.pow_le_mono_r; lia). lia.
Qed.

Lemma integer_value_spec (s : bool) (m : positive) (e2 : Z) :
  isInteger (S754_finite s m e2) = true ->
  0 < integer_value m e2
  /\ (inject_Z (integer_value m e2) == inject_Z (Zpos m) * Q2 e2)%Q.
Proof.
  unfold isInteger, integer_value. destruct (Z.leb_spec 0 e2) as [He | He]; intros Hint.
  - assert (P : 0 < 2 ^ e2) by (apply Z.pow_pos_nonneg; lia).
    split; [nia |]. rewrite inject_Z_mult, Q2_inject by lia. reflexivity.
  - apply Z.eqb_eq in Hint.
    assert (P : 0 < 2 ^ (- e2)) by (apply Z.pow_pos_nonneg; lia).
    pose proof (Z.div_mod (Zpos m) (2 ^ (- e2)) ltac:(lia)) as Hdm.
    rewrite Hint, Z.add_0_r in Hdm.
    split; [nia |].
    rewrite Hdm at 2. rewrite inject_Z_mult, Q2_inject by lia.
    assert (E : (Q2 (- e2) * Q2 e2 == 1)%Q).
    { rewrite <- Q2_add. replace (- e2 + e2) with 0 by lia. reflexivity. }
    set (v := inject_Z (Zpos m / 2 ^ (- e2))) in *.
    transitivity (v * (Q2 (- e2) * Q2 e2))%Q; [rewrite E; ring | ring].
Qed.

(** [String] writes an integer Number below [10 ^ 15] as the decimal digits
    of its value. *)
Lemma toString_integer (s : bool) (m : positive) (e2 : Z) :
  valid_binary 53 1024 (S754_finite s m e2) = true ->
  isInteger (S754_finite s m e2) = true ->
  integer_value m e2 < 10 ^ 15 ->
  toString (S754_finite s m e2)
  = sign_text s ++ decimal_digits (Z.to_N (integer_value m e2)).
Proof.
  intros Hvalid Hint Hsmall.
  destruct (integer_value_spec s m e2 Hint) as [Hpos Hval].
  set (N := integer_value m e2) in *.
  destruct (drop_trailing_zeros_spec 15 N) as [z [Hz [HN [Hcpos Hcmod]]]].
  { change (Z.of_nat 15) with 15. lia. }
  set (c := drop_trailing_zeros 15 N) in *.
  destruct c as [| c' | c'] eqn:Ec; try lia.
  destruct N as [| N' | N'] eqn:EN; try lia.
  pose proof (digits10_bounds c') as [Hk1 [Hk2 Hk3]].
  set (k0 := digits10 c') in *.
  assert (P : 0 < 10 ^ z) by (apply Z.pow_pos_nonneg; lia).
  assert (Hkz : k0 + z <= 15).
  { destruct (Z.le_gt_cases (k0 + z) 15) as [H | H]; [exact H |]. exfalso.
    assert (10 ^ 15 <= 10 ^ (k0 - 1 + z)) by (apply Z.pow_le_mono_r; lia).
    rewrite Z.pow_add_r in H0 by lia. nia. }
  (* the Number is the Number of its value *)
  assert (Hx : S754_finite s m e2 = of_decimal s (Npos c') z).
  { destruct (of_decimal_ratio s c' z) as [n [d [-> Hr]]].
    symmetry. apply of_ratio_exact; [exact Hvalid |].
    rewrite Hr, <- Hval. unfold Qdec. rewrite HN, inject_Z_mult, Q10_inject by lia.
    reflexivity. }
  rewrite Hx.
  rewrite (toString_of_decimal s c' z k0); try lia.
  - f_equal. unfold decimal_text.
    assert (Hlen : Z.of_nat (List.length (decimal_digits (Npos c'))) = k0) by reflexivity.
    rewrite Hlen.
    destruct (Z.leb_spec (-5) (z + k0)); [| lia].
    destruct (Z.leb_spec (z + k0) 21); [| lia]. cbn [andb].
    destruct (Z.leb_spec k0 (z + k0)); [| lia].
    unfold repeat_unit. replace (z + k0 - k0) with z by lia.
    rewrite <- decimal_digits_times_pow10 by reflexivity.
    f_equal. cbn [Z.to_N].
    apply N2Z.inj. rewrite N2Z.inj_mul, N2Z.inj_pow, nat_N_Z, Z2Nat.id by lia.
    change (Z.of_N (N.pos N')) with (Zpos N'). change (Z.of_N (N.pos c')) with (Zpos c').
    change (Z.of_N 10) with 10. symmetry. exact HN.
  - unfold Qdec.
    assert (E : (inject_Z (Zpos c') * Q10 z == inject_Z (Zpos N'))%Q).
    { rewrite HN, inject_Z_mult, Q10_inject by lia. reflexivity. }
    rewrite E.
    assert (H1 : (1 <= inject_Z (Zpos N'))%Q) by (apply inject_Z_le_1; lia).
    assert (H2 : (inject_Z (Zpos N') < 1000000000000000)%Q).
    { change 1000000000000000%Q with (inject_Z (10 ^ 15)). rewrite <- Zlt_Qlt. exact Hsmall. }
    assert (B1 : (Q2 (-1022) <= 1)%Q).
    { change 1%Q with (Q2 0). apply Q2_le. lia. }
    assert (B2 : (1000000000000000 <= Q2 1023)%Q).
    { change 1000000000000000%Q with (inject_Z (10 ^ 15)).
      rewrite <- Q2_inject by lia. rewrite <- Zle_Qle. vm_compute. discriminate. }
    split; lra.
Qed.

End BinaryRounding.


(** The text of a number that is not an integer, between [1e-307] and
    [1e307] in magnitude: the twelve digits of its rounding without the zeros
    at their end. *)
Lemma formats_as_twelve_digit_text (s : bool) (m : positive) (e2 n e : Z) :
  isInteger (S754_finite s m e2) = false ->
  rounds_to_12_digits (fst (ratio_of m e2)) (snd (ratio_of m e2)) n e ->
  (-307 <= e <= 306)%Z ->
  formats_as (S754_finite s m e2) (twelve_digit_text s n e).
Proof.
  intros Hint Hround He. unfold formats_as. rewrite Hint.
  exists n, e. split; [exact Hround |].
  symmetry. apply toString_twelve_digits; [apply Hround | exact He].
Qed.

(** The text of an integer below [10 ^ 15] in magnitude: the decimal digits
    of its value.  The number is one that the arithmetic returns, with its
    mantissa and exponent in canonical form. *)
Lemma formats_as_integer_digits (s : bool) (m : positive) (e2 : Z) :
  valid_binary 53 1024 (S754_finite s m e2) = true ->
  isInteger (S754_finite s m e2) = true ->
  (integer_value m e2 < 10 ^ 15)%Z ->
  formats_as (S754_finite s m e2)
    (sign_text s ++ decimal_digits (Z.to_N (integer_value m e2))).
Proof.
  intros Hvalid Hint Hsmall. unfold formats_as. rewrite Hint.
  symmetry. apply toString_integer; assumption.
Qed.

(** C6.  When the evaluation returns a number, the buffer and the display
    become its text as [formats_as] describes it.  An integer is printed
    directly by [String]: below [10 ^ 15] in magnitude these are the sign and
    the decimal digits of the integer.  Any other finite number is rounded to twelve
    significant digits: to the decimal [n * 10 ^ (e - 11)] with twelve
    digits [n] that is nearest to it, the larger one on a tie; what is
    printed is the Number which that decimal denotes.  Between [1e-307] and
    [1e307] in magnitude that text is [twelve_digit_text]: the sign and the
    twelve digits without the zeros at their end, with the point or the
    exponent where [String] puts them.  Every number has such a text.
    ["2+2"] gives ["4"] and ["10/4"] gives ["2.5"], where [toPrecision(12)]
    had written ["2.50000000000"]; ["0.1+0.2"] gives ["0.3"], ["2/3"] gives
    ["0.666666666667"] and ["9.9999999999996"] gives ["10"].  The extended
    variant does the same on the preprocessed text. *)
Theorem evaluate_formats_numbers run (c : calc) (x : number) :
  trim (buffer c) <> [] ->
  (exists text, formats_as x text)
  /\ (forall s m e2,
        x = S754_finite s m e2 -> valid_binary 53 1024 x = true ->
        isInteger x = true -> (integer_value m e2 < 10 ^ 15)%Z ->
        formats_as x (sign_text s ++ decimal_digits (Z.to_N (integer_value m e2))))
  /\ (forall s m e2 n e,
        x = S754_finite s m e2 -> isInteger x = false ->
        rounds_to_12_digits (fst (ratio_of m e2)) (snd (ratio_of m e2)) n e ->
        (-307 <= e <= 306)%Z ->
        formats_as x (twelve_digit_text s n e))
  /\ (forall text, formats_as x text ->
        (Basic.sanitizeExpression (trim (buffer c)) = true ->
         run (js "return " ++ trim (buffer c)) = Normal (VNumber x) ->
         Basic.evaluateExpression run c
         = Normal {| buffer := text; display := display_of text; local := local c |})
        /\ (Rich.sanitizeExpression (Rich.preprocessExpression (trim (buffer c))) = true ->
            run (js "return " ++ Rich.preprocessExpression (trim (buffer c)))
              = Normal (VNumber x) ->
            Rich.evaluateExpression run c
            = Normal {| buffer := text; display := display_of text; local := local c |}))
  /\ (forall m e2,
        (10 ^ 11 <= fst (precision_digits m e2 12) < 10 ^ 12)%Z
        /\ List.length (decimal_digits (Z.to_N (fst (precision_digits m e2 12))))
           = 12%nat)
  /\ (forall pow_approx,
        Basic.evaluateExpression (Engine.run pow_approx) (with_buffer (js "2+2"))
          = Normal {| buffer := js "4"; display := js "4"; local := fresh_storage |}
        /\ Basic.evaluateExpression (Engine.run pow_approx) (with_buffer (js "10/4"))
          = Normal {| buffer := js "2.5"; display := js "2.5"; local := fresh_storage |}
        /\ Rich.evaluateExpression (Engine.run pow_approx) (with_buffer (js "2+2"))
          = Normal {| buffer := js "4"; display := js "4"; local := fresh_storage |}
        /\ Rich.evaluateExpression (Engine.run pow_approx) (with_buffer (js "10/4"))
          = Normal {| buffer := js "2.5"; display := js "2.5"; local := fresh_storage |}
        /\ toPrecision (div (of_N 10) (of_N 4)) 12 = js "2.50000000000"
        /\ Basic.evaluateExpression (Engine.run pow_approx) (with_buffer (js "0.1+0.2"))
          = Normal {| buffer := js "0.3"; display := js "0.3"; local := fresh_storage |}
        /\ Basic.evaluateExpression (Engine.run pow_approx) (with_buffer (js "2/3"))
          = Normal {| buffer := js "0.666666666667"; display := js "0.666666666667";
                      local := fresh_storage |}
        /\ Rich.evaluateExpression (Engine.run pow_approx)
             (with_buffer (js "9.9999999999996"))
          = Normal {| buffer := js "10"; display := js "10"; local := fresh_storage |}).
Proof.
  intros Hne. split; [apply formats_as_total |].
  split; [| split; [| split; [| split]]].
  - intros s m e2 -> Hvalid Hint Hsmall.
    apply formats_as_integer_digits; assumption.
  - intros s m e2 n e -> Hint Hround He.
    apply formats_as_twelve_digit_text; assumption.
  - intros text Htext. apply formats_as_format_result in Htext. split.
    + intros Hok Hrun. unfold Basic.evaluateExpression.
      destruct (trim (buffer c)) as [| u t]; [congruence |].
      rewrite Hok, Hrun. cbn [negb bind try_catch]. rewrite Htext. reflexivity.
    + intros Hok Hrun. unfold Rich.evaluateExpression.
      destruct (trim (buffer c)) as [| u t]; [congruence |].
      rewrite Hok, Hrun. cbn [negb bind try_catch]. rewrite Htext. reflexivity.
  - apply toPrecision_twelve_digits.
  - intros pow_approx.
    split; [| split; [| split; [| split; [| split; [| split; [| split]]]]]];
      vm_compute; reflexivity.
Qed.

Lemma evaluate_formats_numbers_witness :
  Basic.evaluateExpression (Engine.run pow_sample) (with_buffer (js "1/3"))
  = Normal {| buffer := js "0.333333333333";
              display := display_of (js "0.333333333333");
              local := local (with_buffer (js "1/3")) |}.
Proof.
  refine (proj1 (proj1 (proj2 (proj2 (proj2
                   (evaluate_formats_numbers (Engine.run pow_sample)
                      (with_buffer (js "1/3"))
                      (S754_finite false 6004799503160661 (-54)) _))))
                   (js "0.333333333333") _) _ _).
  - vm_compute. discriminate.
  - exists 333333333333%Z, (-1)%Z. split.
    + split; [lia |]. exists (-1)%Z, 333333333333%Z.
      split; [vm_compute; discriminate |].
      split; [vm_compute; intros H; apply H; reflexivity |].
      split; [split; vm_compute; [reflexivity | discriminate] |].
      left. split; [lia | split; reflexivity].
    + vm_compute. reflexivity.
  - vm_compute. reflexivity.
  - vm_compute. reflexivity.
Defined.

(** ** Memory operations on a buffer that does not evaluate *)

Lemma evaluateForMemory_null run (c : calc) :
  trim (buffer c) = []
  \/ Rich.sanitizeExpression (Rich.preprocessExpression (trim (buffer c))) = false
  \/ run (js "return " ++ Rich.preprocessExpression (trim (buffer c))) = Throw ->
  Rich.evaluateForMemory run c = Normal None.
Proof.
  intros H. unfold Rich.evaluateForMemory.
  destruct (trim (buffer c)) as [| u t]; [reflexivity |].
  destruct (Rich.sanitizeExpression _); cbn [negb]; [| reflexivity].
  destruct H as [H | [H | H]]; try discriminate.
  rewrite H. reflexivity.
Qed.

(** C10.  When the trimmed buffer is empty, or the whitelist rejects the
    preprocessed text, or the dynamic evaluation throws, [memoryAdd] and
    [memorySub] complete normally and change nothing: the persisted
    register, the buffer (which is not set to ["Error"]) and the display
    are as before. *)
Theorem memory_add_sub_silent run (c : calc) :
  trim (buffer c) = []
  \/ Rich.sanitizeExpression (Rich.preprocessExpression (trim (buffer c))) = false
  \/ run (js "return " ++ Rich.preprocessExpression (trim (buffer c))) = Throw ->
  Rich.memoryAdd run c = Normal c /\ Rich.memorySub run c = Normal c.
Proof.
  intros H. unfold Rich.memoryAdd, Rich.memorySub.
  rewrite (evaluateForMemory_null run c H). split; reflexivity.
Qed.

Lemma memory_add_sub_silent_witness :
  Rich.memoryAdd (Engine.run pow_sample) (with_buffer (js "2+a"))
    = Normal (with_buffer (js "2+a"))
  /\ Rich.memorySub (Engine.run pow_sample) (with_buffer (js "2+a"))
    = Normal (with_buffer (js "2+a")).
Proof.
  apply (memory_add_sub_silent (Engine.run pow_sample) (with_buffer (js "2+a"))).
  right. left. vm_compute. reflexivity.
Defined.

(** ** [applyFunction] *)

Lemma applyFunction_total run (fn : jsstring) (c : calc) :
  exists c', Rich.applyFunction run fn c = Normal c'.
Proof.
  unfold Rich.applyFunction.
  destruct (trim (buffer c)) as [| u t]; [eexists; reflexivity |].
  destruct (negb (Rich.sanitizeExpression _)); [eexists; reflexivity |].
  destruct (run _) as [v |]; cbn [bind try_catch].
  - destruct (Rich.unary fn v); eexists; reflexivity.
  - eexists; reflexivity.
Qed.

(** C7.  When the buffer evaluates to zero (of either sign),
    [applyFunction('reciprocal')] completes normally and the buffer is
    ["NaN"], which is what the formatting step of [evaluate] makes of the
    not-a-number value; [applyFunction] throws on no buffer and no function
    name; on the buffer ["0"] the result is ["NaN"]. *)
Theorem reciprocal_of_zero run (c : calc) (s : bool) :
  trim (buffer c) <> [] ->
  Rich.sanitizeExpression (Rich.preprocessExpression (trim (buffer c))) = true ->
  run (js "return " ++ Rich.preprocessExpression (trim (buffer c)))
    = Normal (VNumber (S754_zero s)) ->
  Rich.applyFunction run (js "reciprocal") c
    = Normal {| buffer := js "NaN"; display := js "NaN"; local := local c |}
  /\ (forall run', run' (js "return " ++ Rich.preprocessExpression (trim (buffer c)))
                     = Normal (VNumber NaN) ->
        Rich.evaluateExpression run' c = Rich.applyFunction run (js "reciprocal") c)
  /\ (forall fn c0, exists c', Rich.applyFunction run fn c0 = Normal c')
  /\ (forall pow_approx,
        Rich.applyFunction (Engine.run pow_approx) (js "reciprocal") (with_buffer (js "0"))
        = Normal {| buffer := js "NaN"; display := js "NaN"; local := fresh_storage |}).
Proof.
  intros Hne Hok Hrun.
  assert (Happly : Rich.applyFunction run (js "reciprocal") c
            = Normal {| buffer := js "NaN"; display := js "NaN"; local := local c |}).
  { unfold Rich.applyFunction.
    destruct (trim (buffer c)) as [| u t]; [congruence |].
    rewrite Hok, Hrun. reflexivity. }
  split; [| split; [| split]].
  - exact Happly.
  - intros run' Hrun'. rewrite Happly. unfold Rich.evaluateExpression.
    destruct (trim (buffer c)) as [| u t]; [congruence |].
    rewrite Hok, Hrun'. reflexivity.
  - intros fn c0. apply applyFunction_total.
  - intros pow_approx. vm_compute. reflexivity.
Qed.

Lemma reciprocal_of_zero_witness :
  Rich.applyFunction (Engine.run pow_sample) (js "reciprocal") (with_buffer (js "0*5"))
  = Normal {| buffer := js "NaN"; display := js "NaN"; local := fresh_storage |}.
Proof.
  apply (reciprocal_of_zero (Engine.run pow_sample) (with_buffer (js "0*5")) false).
  - vm_compute. discriminate.
  - vm_compute. reflexivity.
  - vm_compute. reflexivity.
Defined.

(** ** The memory register *)




(** ** Preprocessing *)

Lemma replace_all_single (c : code_unit) (repl s : jsstring) :
  replace_all [c] repl s
  = flat_map (fun x => if N.eqb c x then repl else [x]) s.
Proof.
  unfold replace_all.
  induction s as [| x s IH]; [reflexivity |].
  cbn [replace_from starts_with flat_map List.length Nat.sub].
  rewrite IH. destruct s; rewrite andb_true_r; destruct (N.eqb c x); reflexivity.
Qed.

Lemma replace_all_absent (p : code_unit) (pat repl s : jsstring) :
  ~ In p s -> replace_all (p :: pat) repl s = s.
Proof.
  unfold replace_all.
  induction s as [| x s IH]; [reflexivity |].
  intros Hn. cbn [replace_from starts_with].
  assert (Hx : N.eqb p x = false).
  { apply N.eqb_neq. intros ->. apply Hn. left. reflexivity. }
  rewrite Hx. cbn [andb]. f_equal. apply IH.
  intros Hin. apply Hn. right. exact Hin.
Qed.

Lemma flat_map_twice {A : Type} (f g : A -> list A) (s : list A) :
  flat_map g (flat_map f s) = flat_map (fun x => flat_map g (f x)) s.
Proof.
  induction s as [| x s IH]; [reflexivity |].
  cbn [flat_map]. rewrite flat_map_app, IH. reflexivity.
Qed.

(** The part of C2 that holds: on a text without the code units U+00EF and
    U+00C3 (with which the two garbled patterns start), [preprocess]
    rewrites every [^] to [**] and every [%] to [/100] and nothing else. *)
Lemma preprocess_caret_percent (expr : jsstring) :
  ~ In 239%N expr -> ~ In 195%N expr ->
  Rich.preprocessExpression expr = flat_map rewrite_unit expr.
Proof.
  intros H1 H2. unfold Rich.preprocessExpression.
  destruct expr as [| u t] eqn:E; [reflexivity |]. rewrite <- E in *. clear E.
  unfold Rich.times_pattern, Rich.divide_pattern.
  rewrite (replace_all_absent _ _ _ _ H1), (replace_all_absent _ _ _ _ H2).
  change (js "^") with [ch "^"]. change (js "%") with [ch "%"].
  rewrite !replace_all_single, flat_map_twice.
  apply flat_map_ext. intros x. unfold rewrite_unit.
  rewrite (N.eqb_sym x (ch "^")), (N.eqb_sym x (ch "%")).
  destruct (N.eqb (ch "^") x) eqn:Ec.
  - reflexivity.
  - cbn [flat_map app]. destruct (N.eqb (ch "%") x); reflexivity.
Qed.

(** The example of C2 that holds: [evaluate] on ["50%"] gives ["0.5"]. *)
Lemma evaluate_fifty_percent pow_approx :
  Rich.preprocessExpression (js "50%") = js "50/100"
  /\ Rich.evaluateExpression (Engine.run pow_approx) (with_buffer (js "50%"))
     = Normal {| buffer := js "0.5"; display := js "0.5"; local := fresh_storage |}.
Proof. split; vm_compute; reflexivity. Qed.

(** C2, the part that fails.  The source's comment announces that the
    multiplication and division glyphs become [*] and [/], but the two
    patterns in the file are garbled and match neither glyph: [preprocess]
    leaves ["2×3"] and ["6÷2"] as they are, the whitelist then rejects them,
    and [evaluate] answers ["Error"] instead of the product or quotient. *)
Theorem preprocess_misses_glyphs run :
  Rich.preprocessExpression (js "2" ++ [times_glyph] ++ js "3")
    = js "2" ++ [times_glyph] ++ js "3"
  /\ Rich.preprocessExpression (js "6" ++ [divide_glyph] ++ js "2")
    = js "6" ++ [divide_glyph] ++ js "2"
  /\ Rich.evaluateExpression run (with_buffer (js "2" ++ [times_glyph] ++ js "3"))
    = Normal (error_state (with_buffer (js "2" ++ [times_glyph] ++ js "3")))
  /\ Rich.evaluateExpression run (with_buffer (js "6" ++ [divide_glyph] ++ js "2"))
    = Normal (error_state (with_buffer (js "6" ++ [divide_glyph] ++ js "2"))).
Proof.
  split; [| split; [| split]]; vm_compute; reflexivity.
Qed.

(** ** The error state *)

Lemma shortest_head (m : positive) (e : Z) :
  exists d rest n, shortest m e = (d :: rest, n) /\ is_digit d = true.
Proof.
  unfold shortest.
  destruct (ratio_of m e) as [a b].
  destruct (shortest_from _ _ _ _ _ _) as [s k].
  destruct (Z.eqb s (10 ^ k)).
  - destruct (decimal_digits_head (Z.to_N (10 ^ (k - 1)))) as [d [rest [-> Hd]]].
    eauto.
  - destruct (decimal_digits_head (Z.to_N s)) as [d [rest [-> Hd]]].
    eauto.
Qed.

Lemma digit_is_not_E (d : code_unit) : is_digit d = true -> d <> ch "E".
Proof.
  unfold is_digit. intros H ->. vm_compute in H. discriminate.
Qed.

(** No number prints as ["Error"]. *)
Lemma toString_not_Error (x : number) : toString x <> Error.
Proof.
  destruct x as [s | s | | s m e].
  - destruct s; vm_compute; discriminate.
  - destruct s; vm_compute; discriminate.
  - vm_compute. discriminate.
  - unfold toString.
    destruct (shortest_head m e) as [d [rest [n [-> Hd]]]].
    apply digit_is_not_E in Hd.
    destruct s; [cbn; discriminate |].
    cbn [sign_text app].
    assert (Hhead : forall t, d :: t <> Error)
      by (intros t Ht; injection Ht as Ht _; exact (Hd Ht)).
    destruct ((-5 <=? n)%Z && (n <=? 21)%Z).
    + destruct (Z.of_nat (List.length (d :: rest)) <=? n)%Z; [apply Hhead |].
      destruct (0 <? n)%Z eqn:Hn.
      * apply Z.ltb_lt in Hn.
        destruct (Z.to_nat n) as [| k] eqn:Hk; [lia |].
        cbn [firstn app]. apply Hhead.
      * cbn. discriminate.
    + destruct rest; apply Hhead.
Qed.

Lemma trim_Error : trim Error = Error.
Proof. reflexivity. Qed.

Lemma rich_rejects_Error :
  Rich.sanitizeExpression (Rich.preprocessExpression Error) = false.
Proof. reflexivity. Qed.

Lemma basic_rejects_Error : Basic.sanitizeExpression Error = false.
Proof. reflexivity. Qed.

(** C9, as stated, fails on [delete]: it is neither [clear] nor [append],
    and on the buffer ["Error"] it leaves ["Erro"]. *)
Lemma delete_exits_error_state_counterexample :
  Basic.perform (fun _ => Throw) Basic.Delete (with_buffer Error)
    = Normal {| buffer := js "Erro"; display := js "Erro"; local := fresh_storage |}
  /\ js "Erro" <> Error
  /\ Basic.Delete <> Basic.Clear
  /\ forall char, Basic.Delete <> Basic.Append char.
Proof.
  split; [reflexivity |].
  split; [discriminate |].
  split; [discriminate |].
  intros char. discriminate.
Qed.

(** C9, amended.  On a buffer that holds ["Error"] no operation throws;
    [evaluate], [applyFunction], [memoryAdd], [memorySub] and [memoryClear]
    leave the buffer at ["Error"]; the error state is left by [clear], by
    [delete] (which leaves ["Erro"]), by [memoryRecall] (which loads the
    register) and by [append] of a non-empty token (which concatenates).
    The basic variants have [append], [clear], [delete] and [evaluate]
    only, with the same outcomes. *)
Theorem error_state_exits run (c : calc) :
  buffer c = Error ->
  (forall op, exists c',
      Rich.perform run op c = Normal c'
      /\ buffer c' = after_error (Rich.memoryGet c) op)
  /\ (forall op, after_error (Rich.memoryGet c) op <> Error <->
        op = Rich.Clear \/ op = Rich.Delete \/ op = Rich.MemRecall
        \/ exists u char, op = Rich.Append (u :: char))
  /\ (forall op, exists c',
        Basic.perform run op c = Normal c'
        /\ buffer c' = match op with
                       | Basic.Append char => Error ++ char
                       | Basic.Clear => []
                       | Basic.Delete => js "Erro"
                       | Basic.Equals => Error
                       end).
Proof.
  intros Hb. split; [| split].
  - intros op. destruct op; cbn [Rich.perform after_error].
    + eexists. split; [reflexivity |]. unfold append. rewrite Hb. reflexivity.
    + eexists. split; reflexivity.
    + eexists. split; [reflexivity |]. unfold del. rewrite Hb. reflexivity.
    + eexists. unfold Rich.evaluateExpression.
      rewrite Hb, trim_Error.
      split; reflexivity.
    + eexists. unfold Rich.applyFunction. rewrite Hb, trim_Error.
      split; reflexivity.
    + eexists. split; [reflexivity |].
      unfold Rich.memoryClear. destruct (removeItem (local c)); exact Hb.
    + eexists. split; reflexivity.
    + exists c. split; [| exact Hb].
      unfold Rich.memoryAdd. rewrite evaluateForMemory_null; [reflexivity |].
      right. left. rewrite Hb. reflexivity.
    + exists c. split; [| exact Hb].
      unfold Rich.memorySub. rewrite evaluateForMemory_null; [reflexivity |].
      right. left. rewrite Hb. reflexivity.
  - intros op. split.
    + destruct op; cbn [after_error]; intros H; try congruence; auto.
      destruct char as [| u char].
      * exfalso. apply H. reflexivity.
      * right. right. right. eauto.
    + intros [-> | [-> | [-> | [u [char ->]]]]]; cbn [after_error].
      * discriminate.
      * discriminate.
      * apply toString_not_Error.
      * discriminate.
  - intros op. destruct op; cbn [Basic.perform].
    + eexists. split; [reflexivity |]. unfold append. rewrite Hb. reflexivity.
    + eexists. split; reflexivity.
    + eexists. split; [reflexivity |]. unfold del. rewrite Hb. reflexivity.
    + eexists. unfold Basic.evaluateExpression. rewrite Hb, trim_Error.
      split; reflexivity.
Qed.

Lemma error_state_exits_witness :
  exists c',
    Rich.perform (Engine.run pow_sample) Rich.Equals (with_buffer Error) = Normal c'
    /\ buffer c' = Error.
Proof.
  apply (error_state_exits (Engine.run pow_sample) (with_buffer Error)).
  reflexivity.
Defined.

(** ** The evaluation facility is consulted on whitelisted text only *)

Lemma basic_class_covers_rich (c : code_unit) :
  Regex.in_class Rich.allowed_class c = true ->
  Regex.in_class Basic.allowed_class c = true.
Proof.
  intros H. apply basic_class_spec. left. apply rich_class_spec. exact H.
Qed.

Lemma engine_covers_basic pow_approx (pre : jsstring) :
  Basic.sanitizeExpression pre = true ->
  Engine.run pow_approx (js "return " ++ pre) = Engine.call_return pow_approx pre.
Proof.
  rewrite basic_sanitize_forallb. intros H.
  unfold Engine.run.
  change (skipn 7 (js "return " ++ pre)) with pre.
  replace (starts_with (js "return ") (js "return " ++ pre)) with true
    by (cbn; repeat rewrite N.eqb_refl; reflexivity).
  destruct pre as [| u t]; [discriminate |].
  rewrite H. reflexivity.
Qed.

Lemma engine_covers_rich pow_approx (pre : jsstring) :
  Rich.sanitizeExpression pre = true ->
  Engine.run pow_approx (js "return " ++ pre) = Engine.call_return pow_approx pre.
Proof.
  intros H. apply engine_covers_basic.
  rewrite basic_sanitize_forallb. rewrite rich_sanitize_forallb in H.
  destruct pre as [| u t]; [discriminate |].
  rewrite forallb_forall in *. intros x Hx.
  apply basic_class_covers_rich. exact (H x Hx).
Qed.

(** Two evaluation facilities that agree on whitelisted text are not told
    apart by the calculator. *)
Lemma basic_perform_ext run1 run2 (op : Basic.operation) (c : calc) :
  (forall pre, Basic.sanitizeExpression pre = true ->
               run1 (js "return " ++ pre) = run2 (js "return " ++ pre)) ->
  Basic.perform run1 op c = Basic.perform run2 op c.
Proof.
  intros Hagree. destruct op; try reflexivity.
  cbn [Basic.perform]. unfold Basic.evaluateExpression.
  destruct (trim (buffer c)) as [| u t]; [reflexivity |].
  destruct (Basic.sanitizeExpression (u :: t)) eqn:Hok; [| reflexivity].
  cbn [negb]. rewrite (Hagree _ Hok). reflexivity.
Qed.

Lemma rich_perform_ext run1 run2 (op : Rich.operation) (c : calc) :
  (forall pre, Rich.sanitizeExpression pre = true ->
               run1 (js "return " ++ pre) = run2 (js "return " ++ pre)) ->
  Rich.perform run1 op c = Rich.perform run2 op c.
Proof.
  intros Hagree.
  assert (Hmem : Rich.evaluateForMemory run1 c = Rich.evaluateForMemory run2 c).
  { unfold Rich.evaluateForMemory.
    destruct (trim (buffer c)) as [| u t]; [reflexivity |].
    destruct (Rich.sanitizeExpression _) eqn:Hok; [| reflexivity].
    cbn [negb]. rewrite (Hagree _ Hok). reflexivity. }
  destruct op; try reflexivity; cbn [Rich.perform].
  - unfold Rich.evaluateExpression.
    destruct (trim (buffer c)) as [| u t]; [reflexivity |].
    destruct (Rich.sanitizeExpression _) eqn:Hok; [| reflexivity].
    cbn [negb]. rewrite (Hagree _ Hok). reflexivity.
  - unfold Rich.applyFunction.
    destruct (trim (buffer c)) as [| u t]; [reflexivity |].
    destruct (Rich.sanitizeExpression _) eqn:Hok; [| reflexivity].
    cbn [negb]. rewrite (Hagree _ Hok). reflexivity.
  - unfold Rich.memoryAdd. rewrite Hmem. reflexivity.
  - unfold Rich.memorySub. rewrite Hmem. reflexivity.
Qed.

(** ** Checks of the number conversions and of the evaluation facility *)

Example toString_samples :
  map (fun s => toString (parseFloat (js s)))
    ["0.5"; "3"; "1e21"; "1e-7"; "0.000001"; "123456789012345680000";
     "5e-324"; "1.7976931348623157e308"; "1e400"; "-0"; "-1.5e-10";
     "9007199254740993"; "  12.5px"; ".5"; "5."; "-.5e1"; "1e+"; "."]%string
  = map js
    ["0.5"; "3"; "1e+21"; "1e-7"; "0.000001"; "123456789012345680000";
     "5e-324"; "1.7976931348623157e+308"; "Infinity"; "0"; "-1.5e-10";
     "9007199254740992"; "12.5"; "0.5"; "5"; "-5"; "1"; "NaN"]%string.
Proof. vm_compute. reflexivity. Qed.

Example toPrecision_samples :
  map (fun s => toPrecision (parseFloat (js s)) 12)
    ["0.5"; "0.30000000000000004"; "1e21"; "123456789012.5"; "0.0000001234";
     "0.000001234"; "1234567890123"; "99999999999.95"; "999999999999.5";
     "-2.675"; "NaN"; "-Infinity"]%string
  = map js
    ["0.500000000000"; "0.300000000000"; "1.00000000000e+21"; "123456789013";
     "1.23400000000e-7"; "0.00000123400000000"; "1.23456789012e+12";
     "99999999999.9"; "1.00000000000e+12"; "-2.67500000000"; "NaN";
     "-Infinity"]%string.
Proof. vm_compute. reflexivity. Qed.

Example StringToNumber_samples :
  map (fun s => toString (StringToNumber (js s)))
    [" 12 "; "   "; "0x1F"; "1e3"; "12px"; "-Infinity"; "+0x10"; "0b101";
     "0o17"; ".5"; "."; "/1/"; "1/1/"; "00012"]%string
  = map js
    ["12"; "0"; "31"; "1000"; "NaN"; "-Infinity"; "NaN"; "5"; "15"; "0.5";
     "NaN"; "NaN"; "NaN"; "12"]%string.
Proof. vm_compute. reflexivity. Qed.

Example formatted_samples :
  formatted (div (of_N 1) (of_N 3)) = js "0.333333333333"
  /\ formatted (add (parseFloat (js "0.1")) (parseFloat (js "0.2"))) = js "0.3"
  /\ toString (add (parseFloat (js "0.1")) (parseFloat (js "0.2")))
     = js "0.30000000000000004"
  /\ formatted (div (of_N 1) (S754_zero false)) = js "Infinity"
  /\ formatted (parseFloat (js "1e21")) = js "1e+21".
Proof. vm_compute. repeat split. Qed.

Example arithmetic_samples :
  map (fun s => evaluated (js s))
    ["2+2"; "10/4"; "1+2*3"; "(1+2)*3"; "2*-3"; "1- -2"; "1+010"; "09.5";
     ".5+5."; "-7%3"; "5.5%2"; "1/2/4"; "2**0"; "1 /* 2 */ + 3"; "1//2"]%string
  = map (fun literal => Normal (num literal))
    ["4"; "2.5"; "7"; "9"; "-6"; "3"; "9"; "9.5"; "5.5"; "-1"; "1.5"; "0.125";
     "1"; "4"; "1"]%string.
Proof. vm_compute. reflexivity. Qed.

Example syntax_error_samples :
  forallb (fun s => match evaluated (js s) with Throw => true | Normal _ => false end)
    ["--2"; "1--2"; "1++2"; "010.5"; "00.5"; "1.5.5"; "()"; "(1"; "1)"; "(()";
     "2*"; "*2"; "5%"; "1 2"; "-2**2"; "/+/"; "/(/"; "/1/2"; "/*"; "1(2)";
     "1()"; "1(...2)"; "...1"; "++1"; "1()++"]%string
  = true.
Proof. vm_compute. reflexivity. Qed.

Example other_value_samples :
  evaluated (js "/1/") = Normal (VRegExp (js "1"))
  /\ evaluated (js "1+/1/") = Normal (VString (js "1/1/"))
  /\ evaluated (js "/1/*2") = Normal (VNumber NaN)
  /\ evaluated (js "//") = Normal VUndefined
  /\ evaluated (js "1/0") = Normal (VNumber (S754_infinity false))
  /\ evaluated (js "0/0") = Normal (VNumber NaN).
Proof. vm_compute. repeat split. Qed.

(** Line terminators: a semicolon is inserted where the next token cannot
    continue the expression, and nowhere else. *)
Example line_terminator_samples :
  evaluated (js "1" ++ line_feed ++ js "2") = Normal (VNumber (of_N 1))
  /\ evaluated (js "1" ++ line_feed ++ js "+2") = Normal (VNumber (of_N 3))
  /\ evaluated (js "1" ++ line_feed ++ js "(2)") = Throw
  /\ evaluated (js "1" ++ line_feed ++ js "2()") = Normal (VNumber (of_N 1))
  /\ evaluated (js "1" ++ line_feed ++ js "++2") = Throw
  /\ evaluated (js "/*" ++ line_feed ++ js "*/1") = Normal VUndefined
  /\ evaluated (js "(1" ++ line_feed ++ js "2)") = Throw.
Proof. vm_compute. repeat split. Qed.

(* ===================================================================== *)
(** * Further properties                                                  *)
(* ===================================================================== *)

(** ** The display follows the buffer *)

Lemma shown_updateDisplay (c : calc) : shown (updateDisplay c).
Proof. reflexivity. Qed.

Lemma shown_set_local (c : calc) (l : storage) : shown c -> shown (set_local c l).
Proof. intros H. exact H. Qed.

Lemma rich_perform_shown run (op : Rich.operation) (c : calc) :
  shown c -> exists c', Rich.perform run op c = Normal c' /\ shown c'.
Proof.
  intros Hs. destruct op; cbn [Rich.perform].
  - eexists. split; [reflexivity |]. unfold append.
    destruct (_ && _); apply shown_updateDisplay.
  - eexists. split; [reflexivity | apply shown_updateDisplay].
  - eexists. split; [reflexivity | apply shown_updateDisplay].
  - unfold Rich.evaluateExpression.
    destruct (trim (buffer c)) as [| u t]; [eauto |].
    destruct (negb _); [eexists; split; [reflexivity | apply shown_updateDisplay] |].
    destruct (run _); eexists; (split; [reflexivity | apply shown_updateDisplay]).
  - unfold Rich.applyFunction.
    destruct (trim (buffer c)) as [| u t]; [eauto |].
    destruct (negb _); [eexists; split; [reflexivity | apply shown_updateDisplay] |].
    destruct (run _) as [v |]; cbn [bind try_catch].
    + destruct (Rich.unary fn v); eexists; (split; [reflexivity |]);
        [apply shown_updateDisplay | exact Hs].
    + eexists. split; [reflexivity | apply shown_updateDisplay].
  - eexists. split; [reflexivity |]. unfold Rich.memoryClear.
    destruct (removeItem _); [apply shown_set_local |]; exact Hs.
  - eexists. split; [reflexivity | apply shown_updateDisplay].
  - unfold Rich.memoryAdd. destruct (Rich.evaluateForMemory run c) as [[v |] |] eqn:E;
      cbn [bind].
    + eexists. split; [reflexivity |]. unfold Rich.memorySet.
      destruct (setItem _ _); [apply shown_set_local |]; exact Hs.
    + eauto.
    + exfalso. unfold Rich.evaluateForMemory in E.
      destruct (trim (buffer c)); [discriminate |].
      destruct (negb _); [discriminate |]. destruct (run _); discriminate.
  - unfold Rich.memorySub. destruct (Rich.evaluateForMemory run c) as [[v |] |] eqn:E;
      cbn [bind].
    + eexists. split; [reflexivity |]. unfold Rich.memorySet.
      destruct (setItem _ _); [apply shown_set_local |]; exact Hs.
    + eauto.
    + exfalso. unfold Rich.evaluateForMemory in E.
      destruct (trim (buffer c)); [discriminate |].
      destruct (negb _); [discriminate |]. destruct (run _); discriminate.
Qed.

Lemma basic_perform_shown run (op : Basic.operation) (c : calc) :
  shown c -> exists c', Basic.perform run op c = Normal c' /\ shown c'.
Proof.
  intros Hs. destruct op; cbn [Basic.perform].
  - eexists. split; [reflexivity |]. unfold append.
    destruct (_ && _); apply shown_updateDisplay.
  - eexists. split; [reflexivity | apply shown_updateDisplay].
  - eexists. split; [reflexivity | apply shown_updateDisplay].
  - unfold Basic.evaluateExpression.
    destruct (trim (buffer c)) as [| u t]; [eauto |].
    destruct (negb _); [eexists; split; [reflexivity | apply shown_updateDisplay] |].
    destruct (run _); eexists; (split; [reflexivity | apply shown_updateDisplay]).
Qed.

Lemma shown_not_empty (c : calc) : shown c -> display c <> [].
Proof.
  unfold shown. intros ->. destruct (buffer c); discriminate.
Qed.

(** X1.  After the initial [clearAll] the display always shows the buffer,
    and ["0"] for the empty buffer: no run of operations, in any variant and
    whatever the evaluation facility does, throws or leaves the display
    behind the buffer or empty. *)
Theorem display_follows_buffer run (c : calc) :
  shown c ->
  (forall ops, exists c',
      Input.rich_session run ops c = Normal c' /\ shown c' /\ display c' <> [])
  /\ (forall ops, exists c',
      Input.basic_session run ops c = Normal c' /\ shown c' /\ display c' <> [])
  /\ (forall c0, shown (clearAll c0)).
Proof.
  intros Hs. split; [| split].
  - intros ops. revert c Hs. induction ops as [| op rest IH]; intros c Hs.
    + exists c. split; [reflexivity |]. split; [exact Hs | exact (shown_not_empty c Hs)].
    + destruct (rich_perform_shown run op c Hs) as [c1 [H1 Hs1]].
      destruct (IH c1 Hs1) as [c' [H' Hc']].
      exists c'. split; [| exact Hc'].
      cbn [Input.rich_session]. rewrite H1. exact H'.
  - intros ops. revert c Hs. induction ops as [| op rest IH]; intros c Hs.
    + exists c. split; [reflexivity |]. split; [exact Hs | exact (shown_not_empty c Hs)].
    + destruct (basic_perform_shown run op c Hs) as [c1 [H1 Hs1]].
      destruct (IH c1 Hs1) as [c' [H' Hc']].
      exists c'. split; [| exact Hc'].
      cbn [Input.basic_session]. rewrite H1. exact H'.
  - intros c0. apply shown_updateDisplay.
Qed.

Lemma display_follows_buffer_witness :
  exists c',
    Input.rich_session (Engine.run pow_sample)
      [Rich.Append (js "7"); Rich.MemAdd; Rich.Clear; Rich.MemRecall; Rich.Func (js "square")]
      (clearAll (with_buffer (js "12")))
    = Normal c' /\ shown c' /\ display c' <> [].
Proof.
  refine (proj1 (display_follows_buffer (Engine.run pow_sample)
                   (clearAll (with_buffer (js "12"))) _) _).
  reflexivity.
Defined.

(** ** What the operations leave alone *)

(** X2.  Only the memory operations touch the persisted register, and of
    these only [memoryRecall] touches the buffer and the display: every other
    operation leaves the storage entry as it is, and [memoryAdd],
    [memorySub] and [memoryClear] leave buffer and display as they are,
    whether they succeed or not. *)
Theorem operations_frame run (op : Rich.operation) (c c' : calc) :
  Rich.perform run op c = Normal c' ->
  (is_memory_operation op = false -> local c' = local c)
  /\ (op = Rich.MemAdd \/ op = Rich.MemSub \/ op = Rich.MemClear ->
      buffer c' = buffer c /\ display c' = display c)
  /\ (op = Rich.MemRecall -> local c' = local c).
Proof.
  intros H.
  assert (Hmem : forall v, buffer (Rich.memorySet v c) = buffer c
                           /\ display (Rich.memorySet v c) = display c).
  { intros v. unfold Rich.memorySet. destruct (setItem _ _); split; reflexivity. }
  assert (Hnull : forall r, Rich.evaluateForMemory run c = r -> r <> Throw).
  { intros r <-. unfold Rich.evaluateForMemory.
    destruct (trim (buffer c)); [discriminate |].
    destruct (negb _); [discriminate |]. destruct (run _); discriminate. }
  split; [| split].
  - intros Hop. destruct op; try discriminate; cbn [Rich.perform] in H.
    + injection H as <-. unfold append. destruct (_ && _); reflexivity.
    + injection H as <-. reflexivity.
    + injection H as <-. reflexivity.
    + unfold Rich.evaluateExpression in H.
      destruct (trim (buffer c)); [injection H as <-; reflexivity |].
      destruct (negb _); [injection H as <-; reflexivity |].
      destruct (run _); injection H as <-; reflexivity.
    + unfold Rich.applyFunction in H.
      destruct (trim (buffer c)); [injection H as <-; reflexivity |].
      destruct (negb _); [injection H as <-; reflexivity |].
      destruct (run _) as [v |]; cbn [bind try_catch] in H.
      * destruct (Rich.unary fn v); injection H as <-; reflexivity.
      * injection H as <-. reflexivity.
  - intros [-> | [-> | ->]]; cbn [Rich.perform] in H.
    + unfold Rich.memoryAdd in H.
      destruct (Rich.evaluateForMemory run c) as [[v |] |] eqn:E; cbn [bind] in H.
      * injection H as <-. apply Hmem.
      * injection H as <-. split; reflexivity.
      * discriminate.
    + unfold Rich.memorySub in H.
      destruct (Rich.evaluateForMemory run c) as [[v |] |] eqn:E; cbn [bind] in H.
      * injection H as <-. apply Hmem.
      * injection H as <-. split; reflexivity.
      * discriminate.
    + injection H as <-. unfold Rich.memoryClear.
      destruct (removeItem _); split; reflexivity.
  - intros ->. cbn [Rich.perform] in H. injection H as <-. reflexivity.
Qed.

Lemma operations_frame_witness :
  (is_memory_operation Rich.Equals = false ->
   local {| buffer := js "4"; display := js "4"; local := fresh_storage |}
   = local (with_buffer (js "2+2")))
  /\ (Rich.Equals = Rich.MemAdd \/ Rich.Equals = Rich.MemSub \/ Rich.Equals = Rich.MemClear ->
      buffer {| buffer := js "4"; display := js "4"; local := fresh_storage |}
      = buffer (with_buffer (js "2+2"))
      /\ display {| buffer := js "4"; display := js "4"; local := fresh_storage |}
         = display (with_buffer (js "2+2")))
  /\ (Rich.Equals = Rich.MemRecall ->
      local {| buffer := js "4"; display := js "4"; local := fresh_storage |}
      = local (with_buffer (js "2+2"))).
Proof.
  apply (operations_frame (Engine.run pow_sample) Rich.Equals
           (with_buffer (js "2+2"))
           {| buffer := js "4"; display := js "4"; local := fresh_storage |}).
  vm_compute. reflexivity.
Defined.

(** ** Sequences of [append] *)

Lemma eqb_false_of_neq (a b : jsstring) : a <> b -> JSString.eqb a b = false.
Proof.
  intros H. unfold JSString.eqb. destruct (list_eq_dec N.eq_dec a b); congruence.
Qed.

Lemma eqb_refl (a : jsstring) : JSString.eqb a a = true.
Proof.
  unfold JSString.eqb. destruct (list_eq_dec N.eq_dec a a); congruence.
Qed.

Lemma append_plain (token : jsstring) (c : calc) :
  buffer c <> js "0" -> buffer (append token c) = buffer c ++ token.
Proof.
  intros H. unfold append. rewrite (eqb_false_of_neq _ _ H). reflexivity.
Qed.

Lemma longer_is_not_zero (b token : jsstring) :
  b <> [] -> b <> js "0" -> b ++ token <> js "0".
Proof.
  intros Hne Hz H. destruct b as [| u [| v b']]; [congruence | |].
  - destruct token; [rewrite app_nil_r in H; congruence | discriminate].
  - discriminate.
Qed.

Lemma type_all_plain (tokens : list jsstring) (c : calc) :
  buffer c <> [] -> buffer c <> js "0" ->
  buffer (type_all tokens c) = buffer c ++ List.concat tokens.
Proof.
  revert c. induction tokens as [| t rest IH]; intros c Hne Hz.
  - cbn. rewrite app_nil_r. reflexivity.
  - cbn [type_all fold_left List.concat]. fold (type_all rest (append t c)).
    pose proof (append_plain t c Hz) as Ht.
    rewrite IH; rewrite Ht.
    + rewrite app_assoc. reflexivity.
    + destruct (buffer c); [congruence | discriminate].
    + apply longer_is_not_zero; assumption.
Qed.

(** X3.  Once the buffer is neither empty nor exactly ["0"], [append] is
    plain concatenation from then on: typing any tokens one after the other
    gives the buffer followed by the tokens in order, and the display shows
    exactly that. *)
Theorem append_concatenates (tokens : list jsstring) (c : calc) :
  buffer c <> [] -> buffer c <> js "0" ->
  buffer (type_all tokens c) = buffer c ++ List.concat tokens
  /\ (tokens <> [] -> display (type_all tokens c) = buffer c ++ List.concat tokens).
Proof.
  intros Hne Hz. split; [exact (type_all_plain tokens c Hne Hz) |].
  intros Ht.
  assert (Hshown : shown (type_all tokens c)).
  { destruct tokens as [| t rest]; [congruence |].
    clear Ht. revert c t Hne Hz. induction rest as [| t' rest IH]; intros c t Hne Hz.
    - cbn. unfold append. destruct (_ && _); apply shown_updateDisplay.
    - cbn [type_all fold_left]. fold (type_all (t' :: rest) (append t c)).
      apply IH.
      + rewrite (append_plain t c Hz). destruct (buffer c); [congruence | discriminate].
      + rewrite (append_plain t c Hz). apply longer_is_not_zero; assumption. }
  unfold shown in Hshown. rewrite Hshown, (type_all_plain tokens c Hne Hz).
  destruct (buffer c) as [| u b]; [congruence | reflexivity].
Qed.

Lemma append_concatenates_witness :
  buffer (type_all [js "+"; js "2"; js "*"; js "3"] (with_buffer (js "1")))
  = buffer (with_buffer (js "1")) ++ List.concat [js "+"; js "2"; js "*"; js "3"]
  /\ ([js "+"; js "2"; js "*"; js "3"] <> [] ->
      display (type_all [js "+"; js "2"; js "*"; js "3"] (with_buffer (js "1")))
      = buffer (with_buffer (js "1")) ++ List.concat [js "+"; js "2"; js "*"; js "3"]).
Proof.
  apply (append_concatenates [js "+"; js "2"; js "*"; js "3"] (with_buffer (js "1")));
    vm_compute; discriminate.
Defined.

Lemma concat_singletons (ds : jsstring) : List.concat (map (fun d => [d]) ds) = ds.
Proof.
  induction ds as [| d ds IH]; [reflexivity |]. cbn. rewrite IH. reflexivity.
Qed.

Lemma append_digit_on_fresh (d : code_unit) (c : calc) :
  is_digit d = true -> buffer c = [] \/ buffer c = js "0" ->
  buffer (append [d] c) = [d].
Proof.
  intros Hd [Hb | Hb]; unfold append; rewrite Hb.
  - reflexivity.
  - rewrite eqb_refl. cbn [andb]. rewrite one_unit_between_0_and_9, Hd. reflexivity.
Qed.

Lemma digit_zero : is_digit (ch "0") = true.
Proof. reflexivity. Qed.

Lemma typed_number_after_zero (ds : jsstring) :
  typed_number (ch "0" :: ds)
  = match ds with
    | [] => js "0"
    | _ :: _ => typed_number ds
    end.
Proof.
  unfold typed_number. cbn [drop_zeros]. rewrite N.eqb_refl.
  destruct ds; reflexivity.
Qed.

Lemma type_digits_fresh (ds : jsstring) (c : calc) :
  forallb is_digit ds = true -> ds <> [] ->
  buffer c = [] \/ buffer c = js "0" ->
  buffer (type_all (map (fun d => [d]) ds) c) = typed_number ds.
Proof.
  revert c. induction ds as [| d ds IH]; intros c Hall Hne Hb; [congruence |].
  cbn [forallb] in Hall. apply andb_prop in Hall as [Hd Hds].
  cbn [map type_all fold_left]. fold (type_all (map (fun x => [x]) ds) (append [d] c)).
  pose proof (append_digit_on_fresh d c Hd Hb) as H1.
  destruct (N.eqb_spec d (ch "0")) as [-> | Hnz].
  - rewrite typed_number_after_zero. destruct ds as [| d' ds'].
    + cbn. exact H1.
    + apply IH; [exact Hds | discriminate | right; exact H1].
  - rewrite type_all_plain, H1.
    + rewrite concat_singletons. unfold typed_number. cbn [drop_zeros].
      apply N.eqb_neq in Hnz. rewrite Hnz. reflexivity.
    + rewrite H1. discriminate.
    + rewrite H1. intros H. injection H as H. exact (Hnz H).
Qed.

(** X4.  Leading zeros are suppressed: typing any non-empty sequence of
    digits into an empty buffer (or into ["0"]) leaves exactly that sequence
    without its leading zeros, and ["0"] when all digits are zero; so digit
    typing alone never starts the buffer with a superfluous zero. *)
Theorem typing_digits_drops_leading_zeros (ds : jsstring) (c : calc) :
  forallb is_digit ds = true -> ds <> [] ->
  buffer c = [] \/ buffer c = js "0" ->
  buffer (type_all (map (fun d => [d]) ds) c) = typed_number ds
  /\ (typed_number ds = js "0"
      \/ exists d rest, typed_number ds = d :: rest /\ d <> ch "0").
Proof.
  intros Hall Hne Hb. split; [exact (type_digits_fresh ds c Hall Hne Hb) |].
  unfold typed_number. destruct ds as [| d0 ds0]; [congruence |].
  destruct (drop_zeros (d0 :: ds0)) as [| d rest] eqn:E; [left; reflexivity |].
  right. exists d, rest. split; [reflexivity |].
  clear Hall Hne. revert E. generalize (d0 :: ds0) as l.
  induction l as [| x l IH]; cbn [drop_zeros]; intros E; [discriminate |].
  destruct (N.eqb_spec x (ch "0")) as [-> | Hx]; [exact (IH E) |].
  injection E as <- _. exact Hx.
Qed.

Lemma typing_digits_drops_leading_zeros_witness :
  buffer (type_all (map (fun d => [d]) (js "00705")) (with_buffer [])) = js "705".
Proof.
  refine (proj1 (typing_digits_drops_leading_zeros (js "00705") (with_buffer []) _ _ _)).
  - reflexivity.
  - discriminate.
  - left. reflexivity.
Defined.

(** ** [del] after [append] *)

(** X5.  [del] takes back the [append] of one character, except when that
    character was a digit replacing the buffer ["0"], where [del] leaves the
    empty buffer; of a longer token [del] takes back the last code unit only;
    and on the empty buffer [del] changes nothing but shows ["0"]. *)
Theorem del_after_append (d : code_unit) (token : jsstring) (c : calc) :
  buffer (del (append [d] c))
    = (if JSString.eqb (buffer c) (js "0") && is_digit d then [] else buffer c)
  /\ (buffer c <> js "0" -> token <> [] ->
      buffer (del (append token c)) = buffer c ++ removelast token)
  /\ (buffer c = [] -> buffer (del c) = [] /\ display (del c) = js "0").
Proof.
  split; [| split].
  - unfold del, slice_0_m1. cbn [updateDisplay set_buffer buffer].
    unfold append. rewrite <- andb_assoc, one_unit_between_0_and_9.
    destruct (JSString.eqb (buffer c) (js "0") && is_digit d).
    + reflexivity.
    + cbn [updateDisplay set_buffer buffer]. apply removelast_last.
  - intros Hz Ht. unfold del, slice_0_m1. cbn [updateDisplay set_buffer buffer].
    rewrite (append_plain token c Hz). apply removelast_app. exact Ht.
  - intros Hb. unfold del, slice_0_m1. cbn [updateDisplay set_buffer buffer display].
    rewrite Hb. split; reflexivity.
Qed.

Lemma del_after_append_witness :
  buffer (del (append (js "sin(") (with_buffer (js "2*"))))
  = buffer (with_buffer (js "2*")) ++ removelast (js "sin(").
Proof.
  refine (proj1 (proj2 (del_after_append 0%N (js "sin(") (with_buffer (js "2*")))) _ _);
    vm_compute; discriminate.
Defined.

(** ** What the extended whitelist accepts after preprocessing *)

Lemma forallb_flat_map {A : Type} (P : A -> bool) (f : A -> list A) (s : list A) :
  forallb P (flat_map f s) = forallb (fun x => forallb P (f x)) s.
Proof.
  induction s as [| x s IH]; [reflexivity |].
  cbn [flat_map forallb]. rewrite forallb_app, IH. reflexivity.
Qed.

Lemma rewrite_unit_in_class (x : code_unit) :
  forallb (Regex.in_class Rich.allowed_class) (rewrite_unit x) = true
  <-> Regex.in_class Rich.allowed_class x = true \/ x = ch "^" \/ x = ch "%".
Proof.
  unfold rewrite_unit.
  destruct (N.eqb_spec x (ch "^")) as [-> | H1].
  - split; [auto | reflexivity].
  - destruct (N.eqb_spec x (ch "%")) as [-> | H2].
    + split; [auto | reflexivity].
    + cbn [forallb]. rewrite andb_true_r. intuition congruence.
Qed.

Lemma flat_map_rewrite_nonempty (u : code_unit) (t : jsstring) :
  flat_map rewrite_unit (u :: t) <> [].
Proof.
  cbn [flat_map]. unfold rewrite_unit at 1.
  destruct (N.eqb u (ch "^")); [discriminate |].
  destruct (N.eqb u (ch "%")); discriminate.
Qed.

Lemma preprocess_as_flat_maps (u : code_unit) (t : jsstring) :
  exists inner,
    Rich.preprocessExpression (u :: t)
    = flat_map (fun x => if N.eqb (ch "%") x then js "/100" else [x])
        (flat_map (fun x => if N.eqb (ch "^") x then js "**" else [x]) inner).
Proof.
  unfold Rich.preprocessExpression.
  change (js "^") with [ch "^"]. change (js "%") with [ch "%"].
  rewrite !replace_all_single. eexists. reflexivity.
Qed.

Lemma preprocess_no_caret_no_percent (s : jsstring) :
  ~ In (ch "^") (Rich.preprocessExpression s)
  /\ ~ In (ch "%") (Rich.preprocessExpression s).
Proof.
  destruct s as [| u t]; [split; intros [] |].
  destruct (preprocess_as_flat_maps u t) as [inner ->].
  split; intros H; apply in_flat_map in H as [y [Hy Hin]].
  - destruct (N.eqb_spec (ch "%") y) as [Hy' | Hne].
    + subst y. vm_compute in Hin. intuition discriminate.
    + destruct Hin as [Hy' | []]. subst y.
      apply in_flat_map in Hy as [x [_ Hx]].
      destruct (N.eqb_spec (ch "^") x) as [Hx' | Hx'].
      * subst x. vm_compute in Hx. intuition discriminate.
      * destruct Hx as [Hx | []]. congruence.
  - destruct (N.eqb_spec (ch "%") y) as [Hy' | Hne].
    + subst y. vm_compute in Hin. intuition discriminate.
    + destruct Hin as [Hy' | []]. congruence.
Qed.

Lemma rich_accepts_preprocessed (s : jsstring) :
  ~ In 239%N s -> ~ In 195%N s ->
  (Rich.sanitizeExpression (Rich.preprocessExpression s) = true
   <-> s <> []
       /\ forall x, In x s ->
            Regex.in_class Rich.allowed_class x = true \/ x = ch "^" \/ x = ch "%").
Proof.
  intros H1 H2. rewrite (preprocess_caret_percent s H1 H2), rich_sanitize_forallb.
  destruct s as [| u t].
  - split; [discriminate | intros [H _]; congruence].
  - destruct (flat_map rewrite_unit (u :: t)) as [| v w] eqn:E.
    + exfalso. exact (flat_map_rewrite_nonempty u t E).
    + rewrite <- E, forallb_flat_map, forallb_forall. split.
      * intros H. split; [discriminate |].
        intros x Hx. apply rewrite_unit_in_class, H, Hx.
      * intros [_ H] x Hx. apply rewrite_unit_in_class, H, Hx.
Qed.

(** X6.  The input alphabet of the extended variant: a text without the
    code units U+00EF and U+00C3 passes the whitelist after preprocessing
    exactly when it is not empty and each of its characters is in the class
    [[0-9+\-*/().\s]] or is [^] or [%]; and whatever the text, no [^] and no
    [%] is left after preprocessing. *)
Theorem preprocessed_alphabet (s : jsstring) :
  (~ In 239%N s -> ~ In 195%N s ->
   (Rich.sanitizeExpression (Rich.preprocessExpression s) = true
    <-> s <> []
        /\ Forall (fun x => in_spec_class x \/ x = ch "^" \/ x = ch "%") s))
  /\ ~ In (ch "^") (Rich.preprocessExpression s)
  /\ ~ In (ch "%") (Rich.preprocessExpression s).
Proof.
  split; [| apply preprocess_no_caret_no_percent].
  intros H1 H2. rewrite (rich_accepts_preprocessed s H1 H2), Forall_forall.
  split; intros [Hne H]; (split; [exact Hne |]); intros x Hx;
    destruct (H x Hx) as [Hc | Hc]; auto; left; apply rich_class_spec; exact Hc.
Qed.

Lemma preprocessed_alphabet_witness :
  Rich.sanitizeExpression (Rich.preprocessExpression (js "2^3 + 50%")) = true
  <-> js "2^3 + 50%" <> []
      /\ Forall (fun x => in_spec_class x \/ x = ch "^" \/ x = ch "%") (js "2^3 + 50%").
Proof.
  refine (proj1 (preprocessed_alphabet (js "2^3 + 50%")) _ _);
    vm_compute; intuition discriminate.
Defined.

(** ** The two evaluators on plain buffers *)

Lemma in_trim_start (x : code_unit) (s : jsstring) :
  In x (trim_start s) -> In x s.
Proof.
  induction s as [| c s IH]; cbn [trim_start]; [auto |].
  destruct (is_space c); [intros H; right; exact (IH H) | auto].
Qed.

Lemma in_trim (x : code_unit) (s : jsstring) : In x (trim s) -> In x s.
Proof.
  unfold trim, trim_end. intros H.
  apply in_trim_start. apply in_rev in H. apply in_trim_start in H.
  apply in_rev. exact H.
Qed.

Lemma flat_map_rewrite_plain (s : jsstring) :
  ~ In (ch "^") s -> ~ In (ch "%") s -> flat_map rewrite_unit s = s.
Proof.
  induction s as [| x s IH]; [reflexivity |].
  intros H1 H2. cbn [flat_map]. rewrite IH.
  - unfold rewrite_unit.
    destruct (N.eqb_spec x (ch "^")) as [-> | _]; [exfalso; apply H1; left; reflexivity |].
    destruct (N.eqb_spec x (ch "%")) as [-> | _]; [exfalso; apply H2; left; reflexivity |].
    reflexivity.
  - intros H. apply H1. right. exact H.
  - intros H. apply H2. right. exact H.
Qed.

Lemma classes_agree_without_percent (x : code_unit) :
  x <> ch "%" ->
  Regex.in_class Basic.allowed_class x = Regex.in_class Rich.allowed_class x.
Proof.
  intros Hx. apply eq_iff_eq_true.
  rewrite basic_class_spec, rich_class_spec. intuition congruence.
Qed.

Lemma sanitizers_agree_without_percent (s : jsstring) :
  ~ In (ch "%") s -> Rich.sanitizeExpression s = Basic.sanitizeExpression s.
Proof.
  intros H. rewrite rich_sanitize_forallb, basic_sanitize_forallb.
  destruct s as [| u t]; [reflexivity |].
  apply eq_iff_eq_true. rewrite !forallb_forall.
  split; intros Hall x Hx.
  - rewrite classes_agree_without_percent; [exact (Hall x Hx) |].
    intros ->. exact (H Hx).
  - rewrite <- classes_agree_without_percent; [exact (Hall x Hx) |].
    intros ->. exact (H Hx).
Qed.

(** X7.  The extended evaluator extends the basic one conservatively: on a
    buffer that holds no [^], no [%] and none of the code units U+00EF and
    U+00C3, preprocessing changes nothing and [evaluate] of the extended
    variant gives the same state as [evaluate] of [script.js], whatever the
    evaluation facility does. *)
Theorem evaluators_agree_on_plain_buffers run (c : calc) :
  ~ In (ch "^") (buffer c) -> ~ In (ch "%") (buffer c) ->
  ~ In 239%N (buffer c) -> ~ In 195%N (buffer c) ->
  Rich.preprocessExpression (trim (buffer c)) = trim (buffer c)
  /\ Rich.evaluateExpression run c = Basic.evaluateExpression run c.
Proof.
  intros H1 H2 H3 H4.
  assert (Hpre : Rich.preprocessExpression (trim (buffer c)) = trim (buffer c)).
  { rewrite preprocess_caret_percent.
    - apply flat_map_rewrite_plain; intros H; [apply H1 | apply H2]; exact (in_trim _ _ H).
    - intros H. apply H3. exact (in_trim _ _ H).
    - intros H. apply H4. exact (in_trim _ _ H). }
  split; [exact Hpre |].
  assert (Hsan : Rich.sanitizeExpression (trim (buffer c))
                 = Basic.sanitizeExpression (trim (buffer c))).
  { apply sanitizers_agree_without_percent. intros H. apply H2. exact (in_trim _ _ H). }
  unfold Rich.evaluateExpression, Basic.evaluateExpression.
  cbv zeta. rewrite Hpre, Hsan. reflexivity.
Qed.

Lemma evaluators_agree_on_plain_buffers_witness :
  Rich.preprocessExpression (trim (buffer (with_buffer (js " (1+2)*3 "))))
    = trim (buffer (with_buffer (js " (1+2)*3 ")))
  /\ Rich.evaluateExpression (Engine.run pow_sample) (with_buffer (js " (1+2)*3 "))
     = Basic.evaluateExpression (Engine.run pow_sample) (with_buffer (js " (1+2)*3 ")).
Proof.
  apply (evaluators_agree_on_plain_buffers (Engine.run pow_sample)
           (with_buffer (js " (1+2)*3 ")));
    vm_compute; intuition discriminate.
Defined.

(** ** The keyboard *)

Lemma starts_with_in (x : code_unit) (k s : jsstring) :
  starts_with k s = true -> In x k -> In x s.
Proof.
  revert s. induction k as [| p k IH]; intros s Hs Hin; [destruct Hin |].
  destruct s as [| c s]; [discriminate |].
  cbn [starts_with] in Hs. apply andb_prop in Hs as [Hp Hk].
  apply N.eqb_eq in Hp. subst c.
  destruct Hin as [-> | Hin]; [left; reflexivity | right; exact (IH s Hk Hin)].
Qed.

Lemma includes_in (x : code_unit) (s k : jsstring) :
  Input.includes s k = true -> In x k -> In x s.
Proof.
  induction s as [| c s IH]; cbn [Input.includes]; intros H Hin.
  - rewrite orb_false_r in H. exact (starts_with_in x k [] H Hin).
  - apply orb_prop in H as [H | H].
    + exact (starts_with_in x k (c :: s) H Hin).
    + right. exact (IH H Hin).
Qed.

Lemma symbols_whitelisted (x : code_unit) :
  In x (js "+-*/().%") -> Regex.in_class Basic.allowed_class x = true.
Proof.
  intros H. cbn in H.
  repeat (destruct H as [<- | H]; [reflexivity |]). destruct H.
Qed.

Lemma digit_whitelisted (x : code_unit) :
  is_digit x = true -> Regex.in_class Basic.allowed_class x = true.
Proof.
  intros H. unfold Regex.in_class, Basic.allowed_class.
  cbn [existsb Regex.item_matches]. change (ch "0") with 48%N. change (ch "9") with 57%N.
  unfold is_digit in H. rewrite H. reflexivity.
Qed.

Lemma digit_range_key (key : jsstring) :
  plain_key key = true ->
  geb key (js "0") && leb key (js "9") = true ->
  exists u, key = [u] /\ is_digit u = true.
Proof.
  intros Hp H. destruct key as [| u [| v t]].
  - discriminate.
  - exists u. split; [reflexivity |]. rewrite <- one_unit_between_0_and_9. exact H.
  - exfalso. cbn [plain_key] in Hp. apply negb_true_iff in Hp.
    unfold geb, leb, js in H. cbn [list_ascii_of_string map ltb] in H.
    change (N_of_ascii "0") with 48%N in H. change (N_of_ascii "9") with 57%N in H.
    unfold is_digit in Hp.
    destruct (N.ltb_spec u 48), (N.ltb_spec 48 u), (N.ltb_spec 57 u),
      (N.ltb_spec u 57), (N.leb_spec 48 u), (N.leb_spec u 57);
      cbn in H, Hp; try discriminate; lia.
Qed.

Lemma forallb_removelast {A : Type} (P : A -> bool) (l : list A) :
  forallb P l = true -> forallb P (removelast l) = true.
Proof.
  induction l as [| x l IH]; [auto |].
  cbn [forallb]. intros H. apply andb_prop in H as [Hx Hl].
  destruct l as [| y l']; [reflexivity |].
  change (removelast (x :: y :: l')) with (x :: removelast (y :: l')).
  cbn [forallb]. rewrite Hx. exact (IH Hl).
Qed.

Lemma forallb_append (P : code_unit -> bool) (token : jsstring) (c : calc) :
  forallb P (buffer c) = true -> forallb P token = true ->
  forallb P (buffer (append token c)) = true.
Proof.
  intros Hb Ht. unfold append. destruct (_ && _); cbn [updateDisplay set_buffer buffer].
  - exact Ht.
  - rewrite forallb_app, Hb, Ht. reflexivity.
Qed.

(** The keys that enter text enter text of the class [P], and the editing
    keys keep a buffer inside it. *)
Lemma keydown_keeps_class (P : code_unit -> bool) extra evaluate
    (key : jsstring) (c c' : calc) (prevented : bool) :
  (forall u, Regex.in_class Basic.allowed_class u = true -> P u = true) ->
  (extra key = true -> forallb P key = true) ->
  plain_key key = true ->
  forallb P (buffer c) = true ->
  Input.keydown extra evaluate key c = Normal (c', prevented) ->
  (key = js "Enter" \/ key = js "=") \/ forallb P (buffer c') = true.
Proof.
  intros Hclass Hextra Hplain Hb H. unfold Input.keydown in H.
  destruct (_ || _ || _) eqn:Htext.
  - right. injection H as <- _. apply forallb_append; [exact Hb |].
    apply orb_prop in Htext as [Htext | Htext]; [| exact (Hextra Htext)].
    apply orb_prop in Htext as [Hdigit | Hsym].
    + destruct (digit_range_key key Hplain Hdigit) as [u [-> Hu]].
      cbn [forallb]. rewrite (Hclass u (digit_whitelisted u Hu)). reflexivity.
    + apply forallb_forall. intros x Hx.
      apply Hclass, symbols_whitelisted. exact (includes_in x _ key Hsym Hx).
  - destruct (JSString.eqb key (js "Enter") || JSString.eqb key (js "=")) eqn:He.
    + left. apply orb_prop in He as [He | He]; unfold JSString.eqb in He;
        destruct (list_eq_dec _ _ _); try discriminate; auto.
    + right. destruct (JSString.eqb key (js "Backspace")).
      * injection H as <- _. cbn [del updateDisplay set_buffer buffer].
        apply forallb_removelast. exact Hb.
      * destruct (JSString.eqb key (js "Escape")); [injection H as <- _; reflexivity |].
        destruct (JSString.eqb key (js ",")).
        -- injection H as <- _. apply forallb_append; [exact Hb |].
           cbn [forallb js list_ascii_of_string map]. rewrite andb_true_r.
           apply Hclass. reflexivity.
        -- injection H as <- _. exact Hb.
Qed.

Lemma whitelisted_passes (b : jsstring) :
  whitelisted b -> trim b <> [] -> Basic.sanitizeExpression (trim b) = true.
Proof.
  unfold whitelisted. intros Hb Hne. rewrite basic_sanitize_forallb.
  destruct (trim b) as [| u t] eqn:E; [congruence |]. rewrite <- E.
  apply forallb_forall. intros x Hx.
  rewrite forallb_forall in Hb. exact (Hb x (in_trim x b Hx)).
Qed.

Lemma digit_led_key_leaves_class (P : code_unit -> bool) (c : calc) :
  P (ch "x") = false -> ~ forallb P (buffer (append (js "0x") c)) = true.
Proof.
  intros Hx. change (ch "x") with 120%N in Hx.
  assert (Hkey : forallb P (js "0x") = false).
  { change (js "0x") with [48%N; 120%N]. cbn [forallb].
    rewrite Hx. apply andb_false_r. }
  unfold append.
  destruct (_ && _); cbn [updateDisplay set_buffer buffer]; intros H.
  - congruence.
  - rewrite forallb_app, Hkey, andb_false_r in H. discriminate.
Qed.

(** X8.  In [script.js] and the animated variant a key that is one
    character, or a key name that does not begin with a digit, cannot take
    the buffer out of the whitelist: when every character of the buffer is
    in the class, then after such a key other than [Enter] and [=] every
    character still is; and [evaluate] never rejects such a buffer by the
    whitelist.  The comma key enters a dot.  The condition on the key is
    needed, since the handler compares strings: a key value of several
    characters that begins with a digit, such as ["0x"], is appended whole
    and takes the buffer out of the whitelist. *)
Theorem keyboard_keeps_whitelist run (key : jsstring) (c c' : calc) (prevented : bool) :
  plain_key key = true ->
  whitelisted (buffer c) ->
  Input.basic_keydown run key c = Normal (c', prevented) ->
  ((key = js "Enter" \/ key = js "=") \/ whitelisted (buffer c'))
  /\ (trim (buffer c) <> [] -> Basic.sanitizeExpression (trim (buffer c)) = true)
  /\ (key = js "," -> buffer c' = buffer (append (js ".") c))
  /\ (forall c0, exists c1,
        Input.basic_keydown run (js "0x") c0 = Normal (c1, true)
        /\ ~ whitelisted (buffer c1)).
Proof.
  intros Hplain Hb H. split; [| split; [| split]].
  - exact (keydown_keeps_class _ _ _ key c c' prevented (fun u Hu => Hu)
             (fun Hf => False_ind _ (Bool.diff_false_true Hf)) Hplain Hb H).
  - exact (whitelisted_passes (buffer c) Hb).
  - intros ->. vm_compute in H. injection H as <- _. reflexivity.
  - intros c0. exists (append (js "0x") c0). split; [reflexivity |].
    exact (digit_led_key_leaves_class _ c0 eq_refl).
Qed.

Lemma keyboard_keeps_whitelist_witness :
  ((js "(" = js "Enter" \/ js "(" = js "=")
   \/ whitelisted (buffer (append (js "(") (with_buffer (js "2*")))))
  /\ (trim (buffer (with_buffer (js "2*"))) <> [] ->
      Basic.sanitizeExpression (trim (buffer (with_buffer (js "2*")))) = true)
  /\ (js "(" = js "," ->
      buffer (append (js "(") (with_buffer (js "2*")))
      = buffer (append (js ".") (with_buffer (js "2*"))))
  /\ (forall c0, exists c1,
        Input.basic_keydown (Engine.run pow_sample) (js "0x") c0 = Normal (c1, true)
        /\ ~ whitelisted (buffer c1)).
Proof.
  apply (keyboard_keeps_whitelist (Engine.run pow_sample) (js "(")
           (with_buffer (js "2*")) (append (js "(") (with_buffer (js "2*"))) true);
    reflexivity.
Defined.

Lemma typeable_has_no_garbled_unit (b : jsstring) (x : code_unit) :
  typeable b -> x = 239%N \/ x = 195%N -> ~ In x b.
Proof.
  unfold typeable. intros Hb Hx Hin.
  rewrite forallb_forall in Hb. specialize (Hb x Hin).
  destruct Hx as [-> | ->]; vm_compute in Hb; discriminate.
Qed.

Lemma typeable_passes (b : jsstring) :
  typeable b -> trim b <> [] ->
  Rich.sanitizeExpression (Rich.preprocessExpression (trim b)) = true.
Proof.
  intros Hb Hne. apply rich_accepts_preprocessed.
  - intros H. exact (typeable_has_no_garbled_unit b _ Hb (or_introl eq_refl) (in_trim _ _ H)).
  - intros H. exact (typeable_has_no_garbled_unit b _ Hb (or_intror eq_refl) (in_trim _ _ H)).
  - split; [exact Hne |]. intros x Hx.
    unfold typeable in Hb. rewrite forallb_forall in Hb.
    specialize (Hb x (in_trim x b Hx)).
    apply orb_prop in Hb as [Hc | Hc].
    + apply basic_class_spec in Hc as [Hc | Hc]; [left; apply rich_class_spec; exact Hc | auto].
    + apply N.eqb_eq in Hc. auto.
Qed.

(** X9.  In the extended variant a key that is one character, or a key
    name that does not begin with a digit, enters only characters of the
    class, [%] and [^]: a buffer of such characters stays one under such a
    key other than [Enter] and [=], and [evaluate], [applyFunction] and the
    memory operations never reject it by the whitelist, since preprocessing
    turns [^] and [%] into whitelisted text.  The condition on the key is
    needed: a key value of several characters that begins with a digit,
    such as ["0x"], is appended whole. *)
Theorem extended_keyboard_keeps_whitelist run (key : jsstring) (c c' : calc)
    (prevented : bool) :
  plain_key key = true ->
  typeable (buffer c) ->
  Input.rich_keydown run key c = Normal (c', prevented) ->
  ((key = js "Enter" \/ key = js "=") \/ typeable (buffer c'))
  /\ (trim (buffer c) <> [] ->
      Rich.sanitizeExpression (Rich.preprocessExpression (trim (buffer c))) = true)
  /\ (forall c0, exists c1,
        Input.rich_keydown run (js "0x") c0 = Normal (c1, true)
        /\ ~ typeable (buffer c1)).
Proof.
  intros Hplain Hb H. split; [| split].
  - refine (keydown_keeps_class _ _ _ key c c' prevented _ _ Hplain Hb H).
    + intros u Hu. rewrite Hu. reflexivity.
    + intros He. unfold JSString.eqb in He.
      destruct (list_eq_dec _ _ _) as [-> |]; [reflexivity | discriminate].
  - exact (typeable_passes (buffer c) Hb).
  - intros c0. exists (append (js "0x") c0). split; [reflexivity |].
    exact (digit_led_key_leaves_class _ c0 eq_refl).
Qed.

Lemma extended_keyboard_keeps_whitelist_witness :
  ((js "^" = js "Enter" \/ js "^" = js "=")
   \/ typeable (buffer (append (js "^") (with_buffer (js "2")))))
  /\ (trim (buffer (with_buffer (js "2"))) <> [] ->
      Rich.sanitizeExpression
        (Rich.preprocessExpression (trim (buffer (with_buffer (js "2"))))) = true)
  /\ (forall c0, exists c1,
        Input.rich_keydown (Engine.run pow_sample) (js "0x") c0 = Normal (c1, true)
        /\ ~ typeable (buffer c1)).
Proof.
  apply (extended_keyboard_keeps_whitelist (Engine.run pow_sample) (js "^")
           (with_buffer (js "2")) (append (js "^") (with_buffer (js "2"))) true);
    reflexivity.
Defined.

Lemma letter_key_is_no_text (u : code_unit) (t : jsstring) :
  is_letter u = true ->
  (geb (u :: t) (js "0") && leb (u :: t) (js "9"))
  || Input.includes (js "+-*/().%") (u :: t) = false.
Proof.
  intros Hu. apply orb_false_intro.
  - unfold geb, leb, js. cbn [list_ascii_of_string map ltb].
    change (N_of_ascii "0") with 48%N. change (N_of_ascii "9") with 57%N.
    unfold is_letter in Hu.
    destruct (N.ltb_spec u 48), (N.ltb_spec 57 u), (N.leb_spec 65 u),
      (N.leb_spec u 90), (N.leb_spec 97 u), (N.leb_spec u 122);
      cbn in Hu |- *; try reflexivity; try discriminate; lia.
  - destruct (Input.includes (js "+-*/().%") (u :: t)) eqn:E; [| reflexivity].
    exfalso. pose proof (includes_in u _ _ E (or_introl eq_refl)) as Hin.
    cbn in Hin.
    repeat (destruct Hin as [<- | Hin]; [vm_compute in Hu; discriminate |]).
    destruct Hin.
Qed.

(** X10.  Keys the calculator has no use for are left to the browser: a
    key whose name begins with a letter and is not [Enter], [Backspace] or
    [Escape] changes nothing and [preventDefault] is not called, in both
    keyboard handlers; and whenever [preventDefault] is not called the
    state is untouched. *)
Theorem foreign_keys_pass_through run (u : code_unit) (name : jsstring) (c : calc) :
  is_letter u = true ->
  u :: name <> js "Enter" -> u :: name <> js "Backspace" -> u :: name <> js "Escape" ->
  Input.basic_keydown run (u :: name) c = Normal (c, false)
  /\ Input.rich_keydown run (u :: name) c = Normal (c, false)
  /\ (forall key c', Input.basic_keydown run key c = Normal (c', false) -> c' = c)
  /\ (forall key c', Input.rich_keydown run key c = Normal (c', false) -> c' = c).
Proof.
  intros Hu H1 H2 H3.
  assert (Hkey : forall extra evaluate,
             extra (u :: name) = false ->
             Input.keydown extra evaluate (u :: name) c = Normal (c, false)).
  { intros extra evaluate Hextra. unfold Input.keydown.
    rewrite (letter_key_is_no_text u name Hu), Hextra. cbn [orb].
    rewrite (eqb_false_of_neq _ _ H1), (eqb_false_of_neq _ _ H2),
      (eqb_false_of_neq _ _ H3).
    assert (He : JSString.eqb (u :: name) (js "=") = false).
    { apply eqb_false_of_neq. intros E. injection E as -> _. discriminate. }
    assert (Hc : JSString.eqb (u :: name) (js ",") = false).
    { apply eqb_false_of_neq. intros E. injection E as -> _. discriminate. }
    rewrite He, Hc. reflexivity. }
  assert (Hquiet : forall extra evaluate key c',
             (forall c0, exists c1, evaluate c0 = Normal c1) ->
             Input.keydown extra evaluate key c = Normal (c', false) -> c' = c).
  { intros extra evaluate key c' Htotal H. unfold Input.keydown in H.
    destruct (_ || _ || _); [discriminate |].
    destruct (_ || _).
    - destruct (Htotal c) as [c1 Hc1]. rewrite Hc1 in H. discriminate.
    - destruct (JSString.eqb key (js "Backspace")); [discriminate |].
      destruct (JSString.eqb key (js "Escape")); [discriminate |].
      destruct (JSString.eqb key (js ",")); [discriminate |].
      injection H as <-. reflexivity. }
  split; [| split; [| split]].
  - apply Hkey. reflexivity.
  - apply Hkey. apply eqb_false_of_neq. intros E. injection E as -> _. discriminate.
  - intros key c'. apply Hquiet. apply basic_evaluate_total.
  - intros key c'. apply Hquiet. apply rich_evaluate_total.
Qed.

Lemma foreign_keys_pass_through_witness :
  Input.basic_keydown (Engine.run pow_sample) (js "F5") (with_buffer (js "2+2"))
  = Normal (with_buffer (js "2+2"), false).
Proof.
  refine (proj1 (foreign_keys_pass_through (Engine.run pow_sample) (ch "F") (js "5")
                   (with_buffer (js "2+2")) _ _ _ _));
    vm_compute; discriminate || reflexivity.
Defined.

(** ** Results that cannot be evaluated again *)

Lemma dead_text (b : jsstring) :
  trim b = b -> b <> [] ->
  Basic.sanitizeExpression b = false ->
  Rich.sanitizeExpression (Rich.preprocessExpression b) = false ->
  forall run c, buffer c = b ->
    Basic.evaluateExpression run c = Normal (error_state c)
    /\ Rich.evaluateExpression run c = Normal (error_state c).
Proof.
  intros Htrim Hne Hb Hr run c Hc.
  unfold Basic.evaluateExpression, Rich.evaluateExpression.
  rewrite Hc, Htrim. destruct b as [| u t]; [congruence |].
  rewrite Hb, Hr. split; reflexivity.
Qed.

Lemma non_finite_formats (x : number) :
  isFinite x = false ->
  format_result (VNumber x) = js "NaN"
  \/ format_result (VNumber x) = js "Infinity"
  \/ format_result (VNumber x) = js "-Infinity".
Proof.
  destruct x as [s | [|] | | s m e]; try discriminate; intros _.
  - right. right. reflexivity.
  - right. left. reflexivity.
  - left. reflexivity.
Qed.

Lemma dead_after_format run (x : number) (c : calc) :
  isFinite x = false ->
  Basic.evaluateExpression run (updateDisplay (set_buffer c (format_result (VNumber x))))
    = Normal (error_state c)
  /\ Rich.evaluateExpression run (updateDisplay (set_buffer c (format_result (VNumber x))))
    = Normal (error_state c).
Proof.
  intros Hx.
  destruct (non_finite_formats x Hx) as [H | [H | H]]; rewrite H.
  - exact (dead_text (js "NaN") eq_refl ltac:(discriminate) eq_refl eq_refl run
             (updateDisplay (set_buffer c (js "NaN"))) eq_refl).
  - exact (dead_text (js "Infinity") eq_refl ltac:(discriminate) eq_refl eq_refl run
             (updateDisplay (set_buffer c (js "Infinity"))) eq_refl).
  - exact (dead_text (js "-Infinity") eq_refl ltac:(discriminate) eq_refl eq_refl run
             (updateDisplay (set_buffer c (js "-Infinity"))) eq_refl).
Qed.

(** X11.  A result that is not a finite number is a dead end: when the
    evaluation returns NaN or an infinity (as for [0/0] or [1/0]),
    [evaluate] shows ["NaN"], ["Infinity"] or ["-Infinity"], and the next
    [evaluate] on that buffer gives ["Error"], in both variants and whatever
    the evaluation facility would do, because letters are not whitelisted. *)
Theorem non_finite_result_is_dead_end run run' (c : calc) (x : number) :
  trim (buffer c) <> [] ->
  isFinite x = false ->
  (Basic.sanitizeExpression (trim (buffer c)) = true ->
   run (js "return " ++ trim (buffer c)) = Normal (VNumber x) ->
   exists c1,
     Basic.evaluateExpression run c = Normal c1
     /\ (buffer c1 = js "NaN" \/ buffer c1 = js "Infinity" \/ buffer c1 = js "-Infinity")
     /\ Basic.evaluateExpression run' c1 = Normal (error_state c1))
  /\ (Rich.sanitizeExpression (Rich.preprocessExpression (trim (buffer c))) = true ->
      run (js "return " ++ Rich.preprocessExpression (trim (buffer c)))
        = Normal (VNumber x) ->
      exists c1,
        Rich.evaluateExpression run c = Normal c1
        /\ (buffer c1 = js "NaN" \/ buffer c1 = js "Infinity" \/ buffer c1 = js "-Infinity")
        /\ Rich.evaluateExpression run' c1 = Normal (error_state c1)).
Proof.
  intros Hne Hx. split; intros Hok Hrun;
    exists (updateDisplay (set_buffer c (format_result (VNumber x)))).
  - split; [| split].
    + unfold Basic.evaluateExpression.
      destruct (trim (buffer c)) as [| u t]; [congruence |].
      rewrite Hok, Hrun. reflexivity.
    + exact (non_finite_formats x Hx).
    + exact (proj1 (dead_after_format run' x c Hx)).
  - split; [| split].
    + unfold Rich.evaluateExpression.
      destruct (trim (buffer c)) as [| u t]; [congruence |].
      rewrite Hok, Hrun. reflexivity.
    + exact (non_finite_formats x Hx).
    + exact (proj2 (dead_after_format run' x c Hx)).
Qed.

Lemma non_finite_result_is_dead_end_witness :
  exists c1,
    Basic.evaluateExpression (Engine.run pow_sample) (with_buffer (js "1/0")) = Normal c1
    /\ (buffer c1 = js "NaN" \/ buffer c1 = js "Infinity" \/ buffer c1 = js "-Infinity")
    /\ Basic.evaluateExpression (Engine.run pow_sample) c1 = Normal (error_state c1).
Proof.
  refine (proj1 (non_finite_result_is_dead_end (Engine.run pow_sample)
                   (Engine.run pow_sample) (with_buffer (js "1/0"))
                   (S754_infinity false) _ _) _ _).
  - vm_compute. discriminate.
  - reflexivity.
  - vm_compute. reflexivity.
  - vm_compute. reflexivity.
Defined.

(** ** The memory register reads as a finite number *)

Lemma memoryGet_finite (c : calc) : isFinite (Rich.memoryGet c) = true.
Proof.
  unfold Rich.memoryGet. destruct (getItem (local c)) as [[raw |] |]; try reflexivity.
  destruct (isFinite (parseFloat raw)) eqn:E; [exact E | reflexivity].
Qed.

Lemma non_finite_reads_zero (v : number) :
  isFinite v = false ->
  isFinite (parseFloat (String_of (VNumber v))) = false.
Proof.
  destruct v as [s | [|] | | s m e]; try discriminate; intros _; reflexivity.
Qed.

Lemma memorySet_non_finite (v : number) (c : calc) :
  isFinite v = false ->
  accessible (local c) = true -> writable (local c) = true ->
  Rich.memoryGet (Rich.memorySet v c) = S754_zero false
  /\ buffer (Rich.memoryRecall (Rich.memorySet v c)) = js "0".
Proof.
  intros Hv Ha Hw. destruct c as [b d [acc wr it]].
  cbn [local accessible writable] in Ha, Hw. subst acc wr.
  assert (Hget : Rich.memoryGet
                   (Rich.memorySet v
                      {| buffer := b; display := d;
                         local := {| accessible := true; writable := true; item := it |} |})
                 = S754_zero false).
  { unfold Rich.memoryGet, Rich.memorySet, setItem, getItem, set_local.
    cbn [local accessible writable item andb].
    rewrite (non_finite_reads_zero v Hv). reflexivity. }
  split; [exact Hget |].
  unfold Rich.memoryRecall. rewrite Hget. reflexivity.
Qed.

(** X12.  The register never reads as NaN or an infinity, whatever the
    storage holds; and a sum or difference that is not finite wipes it: when
    [memoryAdd] or [memorySub] stores such a value (the storage working),
    the register reads 0 afterwards and [memoryRecall] shows ["0"]. *)
Theorem memory_reads_finite run (c : calc) (v : number) :
  Rich.evaluateForMemory run c = Normal (Some v) ->
  accessible (local c) = true -> writable (local c) = true ->
  (forall c0, isFinite (Rich.memoryGet c0) = true)
  /\ (isFinite (add (Rich.memoryGet c) v) = false ->
      exists c1, Rich.memoryAdd run c = Normal c1
                 /\ Rich.memoryGet c1 = S754_zero false
                 /\ buffer (Rich.memoryRecall c1) = js "0")
  /\ (isFinite (sub (Rich.memoryGet c) v) = false ->
      exists c1, Rich.memorySub run c = Normal c1
                 /\ Rich.memoryGet c1 = S754_zero false
                 /\ buffer (Rich.memoryRecall c1) = js "0").
Proof.
  intros Hv Ha Hw. split; [exact memoryGet_finite |].
  split; intros Hinf.
  - exists (Rich.memorySet (add (Rich.memoryGet c) v) c).
    split; [unfold Rich.memoryAdd; rewrite Hv; reflexivity |].
    exact (memorySet_non_finite _ c Hinf Ha Hw).
  - exists (Rich.memorySet (sub (Rich.memoryGet c) v) c).
    split; [unfold Rich.memorySub; rewrite Hv; reflexivity |].
    exact (memorySet_non_finite _ c Hinf Ha Hw).
Qed.

Lemma memory_reads_finite_witness :
  exists c1,
    Rich.memoryAdd (Engine.run pow_sample)
      {| buffer := js "1/0"; display := js "1/0";
         local := {| accessible := true; writable := true; item := Some (js "42") |} |}
    = Normal c1
    /\ Rich.memoryGet c1 = S754_zero false
    /\ buffer (Rich.memoryRecall c1) = js "0".
Proof.
  refine (proj1 (proj2 (memory_reads_finite (Engine.run pow_sample)
                          {| buffer := js "1/0"; display := js "1/0";
                             local := {| accessible := true; writable := true;
                                         item := Some (js "42") |} |}
                          (S754_infinity false) _ _ _)) _);
    vm_compute; reflexivity.
Defined.

(** X13.  [memoryClear] empties the register whatever the storage does:
    afterwards the register reads 0 and [memoryRecall] shows ["0"], the
    entry is gone when the storage grants access, and clearing twice is the
    same as clearing once. *)
Theorem memoryClear_resets (c : calc) :
  Rich.memoryGet (Rich.memoryClear c) = S754_zero false
  /\ buffer (Rich.memoryRecall (Rich.memoryClear c)) = js "0"
  /\ (accessible (local c) = true -> item (local (Rich.memoryClear c)) = None)
  /\ Rich.memoryClear (Rich.memoryClear c) = Rich.memoryClear c.
Proof.
  destruct c as [b d [[|] wr it]].
  - split; [reflexivity |]. split; [reflexivity |].
    split; [intros _; reflexivity | reflexivity].
  - split; [reflexivity |]. split; [reflexivity |].
    split; [discriminate | reflexivity].
Qed.

Lemma memoryClear_resets_witness :
  item (local (Rich.memoryClear
                 {| buffer := js "7"; display := js "7";
                    local := {| accessible := true; writable := true;
                                item := Some (js "42") |} |})) = None.
Proof.
  refine (proj1 (proj2 (proj2 (memoryClear_resets
                   {| buffer := js "7"; display := js "7";
                      local := {| accessible := true; writable := true;
                                  item := Some (js "42") |} |}))) _).
  reflexivity.
Defined.

(** ** [applyFunction] with a name it does not know *)

Lemma unknown_unary (fn : jsstring) (v : value) :
  known_function fn = false -> Rich.unary fn v = None.
Proof.
  unfold known_function, Rich.unary. intros H.
  apply orb_false_elim in H as [H Hn]. apply orb_false_elim in H as [H Hr].
  apply orb_false_elim in H as [Hq Hs]. rewrite Hq, Hs, Hr, Hn. reflexivity.
Qed.

(** X14.  A function name other than [sqrt], [square], [reciprocal] and
    [negate]: when the buffer evaluates, [applyFunction] leaves buffer and
    display exactly as they are; but when the whitelist rejects the buffer
    or the evaluation throws, the buffer still becomes ["Error"]. *)
Theorem unknown_function_name run (fn : jsstring) (c : calc) :
  known_function fn = false ->
  trim (buffer c) <> [] ->
  (Rich.sanitizeExpression (Rich.preprocessExpression (trim (buffer c))) = true ->
   forall v, run (js "return " ++ Rich.preprocessExpression (trim (buffer c))) = Normal v ->
             Rich.applyFunction run fn c = Normal c)
  /\ (Rich.sanitizeExpression (Rich.preprocessExpression (trim (buffer c))) = false
      \/ run (js "return " ++ Rich.preprocessExpression (trim (buffer c))) = Throw ->
      Rich.applyFunction run fn c = Normal (error_state c)).
Proof.
  intros Hfn Hne. unfold Rich.applyFunction.
  destruct (trim (buffer c)) as [| u t]; [congruence |].
  split.
  - intros Hok v Hrun. rewrite Hok, Hrun. cbn [negb bind try_catch].
    rewrite (unknown_unary fn v Hfn). reflexivity.
  - intros H. destruct (Rich.sanitizeExpression _); cbn [negb]; [| reflexivity].
    destruct H as [H | H]; [discriminate |]. rewrite H. reflexivity.
Qed.

Lemma unknown_function_name_witness :
  Rich.applyFunction (Engine.run pow_sample) (js "cube") (with_buffer (js "2+2"))
  = Normal (with_buffer (js "2+2")).
Proof.
  refine (proj1 (unknown_function_name (Engine.run pow_sample) (js "cube")
                   (with_buffer (js "2+2")) _ _) _
            (VNumber (of_N 4)) _).
  - reflexivity.
  - vm_compute. discriminate.
  - vm_compute. reflexivity.
  - vm_compute. reflexivity.
Defined.

(** ** The handlers *)

Lemma evaluateForMemory_total run (c : calc) :
  exists r, Rich.evaluateForMemory run c = Normal r.
Proof.
  unfold Rich.evaluateForMemory.
  destruct (trim (buffer c)); [eauto |].
  destruct (negb _); [eauto |]. destruct (run _); cbn; eauto.
Qed.

Lemma memoryAdd_total run (c : calc) : exists c', Rich.memoryAdd run c = Normal c'.
Proof.
  unfold Rich.memoryAdd. destruct (evaluateForMemory_total run c) as [[v |] ->]; cbn; eauto.
Qed.

Lemma memorySub_total run (c : calc) : exists c', Rich.memorySub run c = Normal c'.
Proof.
  unfold Rich.memorySub. destruct (evaluateForMemory_total run c) as [[v |] ->]; cbn; eauto.
Qed.

Lemma rich_click_total run (btn : Input.button) (c : calc) :
  exists c', Input.rich_click run btn c = Normal c'.
Proof.
  unfold Input.rich_click.
  destruct (Input.attr_is _ _); [eauto |].
  destruct (Input.attr_is _ _); [eauto |].
  destruct (Input.attr_is _ _); [apply rich_evaluate_total |].
  assert (Hrest : exists c',
             match Input.data_func btn with
             | Some (f :: fn) => Rich.applyFunction run (f :: fn) c
             | _ => match Input.data_value btn with
                    | Some (u :: val) => Normal (append (u :: val) c)
                    | _ => Normal c
                    end
             end = Normal c').
  { destruct (Input.data_func btn) as [[| f fn] |];
      try apply applyFunction_total;
      destruct (Input.data_value btn) as [[| u val] |]; eauto. }
  destruct (Input.data_action btn) as [[| a action] |]; try exact Hrest.
  destruct (starts_with _ _); [| exact Hrest].
  destruct (JSString.eqb _ _); [eauto |].
  destruct (JSString.eqb _ _); [eauto |].
  destruct (JSString.eqb _ _); [apply memoryAdd_total |].
  destruct (JSString.eqb _ _); [apply memorySub_total | eauto].
Qed.

Lemma keydown_total extra evaluate (key : jsstring) (c : calc) :
  (forall c0, exists c1, evaluate c0 = Normal c1) ->
  exists r, Input.keydown extra evaluate key c = Normal r.
Proof.
  intros Htotal. unfold Input.keydown.
  destruct (_ || _ || _); [eauto |].
  destruct (_ || _); [destruct (Htotal c) as [c1 ->]; cbn; eauto |].
  destruct (JSString.eqb _ _); [eauto |].
  destruct (JSString.eqb _ _); [eauto |].
  destruct (JSString.eqb _ _); eauto.
Qed.

(** X15.  No exception leaves a click or key handler: for every button,
    whatever attributes it carries, for every key and in every state, the
    four handlers complete normally, whatever the evaluation facility and
    the storage do. *)
Theorem handlers_never_throw run (c : calc) :
  (forall btn, exists c', Input.basic_click run btn c = Normal c')
  /\ (forall btn, exists c', Input.rich_click run btn c = Normal c')
  /\ (forall key, exists r, Input.basic_keydown run key c = Normal r)
  /\ (forall key, exists r, Input.rich_keydown run key c = Normal r).
Proof.
  split; [| split; [| split]].
  - intros btn. unfold Input.basic_click.
    destruct (Input.attr_is _ _); [eauto |].
    destruct (Input.attr_is _ _); [eauto |].
    destruct (Input.attr_is _ _); [apply basic_evaluate_total |].
    destruct (Input.data_value btn) as [[| u val] |]; eauto.
  - intros btn. apply rich_click_total.
  - intros key. apply keydown_total. apply basic_evaluate_total.
  - intros key. apply keydown_total. apply rich_evaluate_total.
Qed.

Lemma mem_prefix_excludes (action literal : jsstring) :
  starts_with (js "mem-") action = true ->
  starts_with (js "mem-") literal = false ->
  Input.attr_is (Some action) literal = false.
Proof.
  intros Ha Hl. cbn [Input.attr_is]. apply eqb_false_of_neq. intros ->. congruence.
Qed.

(** X16.  In the extended variant a button whose [data-action] begins with
    [mem-] is a memory button and nothing else: with one of the four known
    actions it runs that memory operation, and with any other action of that
    prefix the click changes nothing, even when the button also carries a
    [data-func] or a [data-value]. *)
Theorem memory_buttons_only_do_memory run (btn : Input.button) (action : jsstring)
    (c : calc) :
  Input.data_action btn = Some action ->
  starts_with (js "mem-") action = true ->
  (known_memory_action action = false -> Input.rich_click run btn c = Normal c)
  /\ (action = js "mem-clear" -> Input.rich_click run btn c = Normal (Rich.memoryClear c))
  /\ (action = js "mem-recall" -> Input.rich_click run btn c = Normal (Rich.memoryRecall c))
  /\ (action = js "mem-add" -> Input.rich_click run btn c = Rich.memoryAdd run c)
  /\ (action = js "mem-sub" -> Input.rich_click run btn c = Rich.memorySub run c).
Proof.
  intros Hact Hpre.
  assert (Hshape : exists a t, action = a :: t).
  { destruct action as [| a t]; [discriminate | eauto]. }
  destruct Hshape as [a [t Hs]].
  assert (Hclick : Input.rich_click run btn c
            = if JSString.eqb action (js "mem-clear") then Normal (Rich.memoryClear c)
              else if JSString.eqb action (js "mem-recall") then Normal (Rich.memoryRecall c)
              else if JSString.eqb action (js "mem-add") then Rich.memoryAdd run c
              else if JSString.eqb action (js "mem-sub") then Rich.memorySub run c
              else Normal c).
  { unfold Input.rich_click. rewrite Hact.
    rewrite (mem_prefix_excludes action (js "clear") Hpre eq_refl),
      (mem_prefix_excludes action (js "delete") Hpre eq_refl),
      (mem_prefix_excludes action (js "equals") Hpre eq_refl).
    rewrite Hs in Hpre |- *. rewrite Hpre. reflexivity. }
  rewrite Hclick. split; [| split; [| split; [| split]]].
  - unfold known_memory_action. intros H.
    apply orb_false_elim in H as [H H4]. apply orb_false_elim in H as [H H3].
    apply orb_false_elim in H as [H1 H2]. rewrite H1, H2, H3, H4. reflexivity.
  - intros ->. reflexivity.
  - intros ->. reflexivity.
  - intros ->. reflexivity.
  - intros ->. reflexivity.
Qed.

Lemma memory_buttons_only_do_memory_witness :
  Input.rich_click (Engine.run pow_sample)
    {| Input.data_value := Some (js "7"); Input.data_action := Some (js "mem-store");
       Input.data_func := Some (js "sqrt") |}
    (with_buffer (js "9"))
  = Normal (with_buffer (js "9")).
Proof.
  refine (proj1 (memory_buttons_only_do_memory (Engine.run pow_sample)
                   {| Input.data_value := Some (js "7");
                      Input.data_action := Some (js "mem-store");
                      Input.data_func := Some (js "sqrt") |}
                   (js "mem-store") (with_buffer (js "9")) _ _) _);
    reflexivity.
Defined.

(** ** The theme toggle *)

Lemma theme_cases (p : Theme.page) :
  (Theme.current_theme p = Theme.dark /\ Theme.next_theme p = Theme.light)
  \/ (Theme.current_theme p = Theme.light /\ Theme.next_theme p = Theme.dark).
Proof.
  unfold Theme.next_theme, Theme.current_theme.
  destruct (Theme.data_theme p) as [a |]; [| right; split; reflexivity].
  destruct (JSString.eqb a Theme.dark); [left | right]; split; reflexivity.
Qed.

Lemma guarded_toggle_shape sun_text moon_text (p : Theme.page) :
  exists q, Theme.Guarded.applyTheme sun_text moon_text (Theme.next_theme p) p = q
    /\ Theme.current_theme q = Theme.next_theme p
    /\ Theme.theme_store q = Theme.theme_store p
    /\ Theme.Guarded.applyTheme sun_text moon_text (Theme.next_theme p) q = q
    /\ (forall l, Theme.Guarded.applyTheme sun_text moon_text (Theme.next_theme p)
                    (Theme.set_store q l) = Theme.set_store q l)
    /\ (Theme.data_theme q = None \/ Theme.data_theme q = Some Theme.dark)
    /\ (forall b, Theme.themeToggleBtn q = Some b ->
          (Theme.aria_pressed b = Some (js "true") <-> Theme.data_theme q = Some Theme.dark)).
Proof.
  eexists. split; [reflexivity |].
  destruct (theme_cases p) as [[_ ->] | [_ ->]];
    destruct p as [a [b |] st pd]; cbn;
    (split; [reflexivity |]); (split; [reflexivity |]); (split; [reflexivity |]);
    (split; [intros l; reflexivity |]); (split; [auto |]);
    intros b' Hb'; try discriminate; injection Hb' as <-; cbn;
    split; intros H; try discriminate; reflexivity.
Qed.

(** X18.  The toggle flips the theme and two clicks restore it: in the
    guarded variants, whatever the storage does, one click shows the other
    theme and a second click shows the first again; after a click the
    [data-theme] attribute is either absent or ["dark"], and the button's
    [aria-pressed] is ["true"] exactly when it is ["dark"]. *)
Theorem toggle_flips_and_restores sun_text moon_text (p : Theme.page) :
  let q := Theme.Guarded.toggle sun_text moon_text p in
  Theme.current_theme q = Theme.next_theme p
  /\ Theme.current_theme q <> Theme.current_theme p
  /\ Theme.current_theme (Theme.Guarded.toggle sun_text moon_text q) = Theme.current_theme p
  /\ (Theme.data_theme q = None \/ Theme.data_theme q = Some Theme.dark)
  /\ (forall b, Theme.themeToggleBtn q = Some b ->
        (Theme.aria_pressed b = Some (js "true") <-> Theme.data_theme q = Some Theme.dark)).
Proof.
  assert (Hkeep : forall r,
             let q := Theme.Guarded.toggle sun_text moon_text r in
             Theme.current_theme q = Theme.next_theme r
             /\ (Theme.data_theme q = None \/ Theme.data_theme q = Some Theme.dark)
             /\ (forall b, Theme.themeToggleBtn q = Some b ->
                   (Theme.aria_pressed b = Some (js "true")
                    <-> Theme.data_theme q = Some Theme.dark))).
  { intros r. destruct (guarded_toggle_shape sun_text moon_text r)
      as [q0 [Hq0 [Hcur [_ [_ [_ [Hattr Haria]]]]]]].
    unfold Theme.Guarded.toggle. rewrite Hq0.
    destruct (setItem _ _); cbv zeta; auto. }
  destruct (Hkeep p) as [Hcur [Hattr Haria]]. cbv zeta in *.
  split; [exact Hcur |]. split; [| split; [| split; [exact Hattr | exact Haria]]].
  - rewrite Hcur. destruct (theme_cases p) as [[-> ->] | [-> ->]]; discriminate.
  - destruct (Hkeep (Theme.Guarded.toggle sun_text moon_text p)) as [Hcur2 _].
    cbv zeta in Hcur2. rewrite Hcur2.
    unfold Theme.next_theme at 1. rewrite Hcur.
    destruct (theme_cases p) as [[-> ->] | [-> ->]]; reflexivity.
Qed.

Lemma toggle_flips_and_restores_witness :
  Theme.aria_pressed
    {| Theme.textContent := Theme.sun; Theme.aria_pressed := Some (js "true");
       Theme.title := Some (js "Switch to light mode") |} = Some (js "true")
  <-> Theme.data_theme
        (Theme.Guarded.toggle Theme.sun Theme.moon
           {| Theme.data_theme := None;
              Theme.themeToggleBtn := Some {| Theme.textContent := Theme.moon;
                                              Theme.aria_pressed := Some (js "false");
                                              Theme.title := None |};
              Theme.theme_store := fresh_storage;
              Theme.prefers_dark := None |}) = Some Theme.dark.
Proof.
  refine (proj2 (proj2 (proj2 (proj2
            (toggle_flips_and_restores Theme.sun Theme.moon
               {| Theme.data_theme := None;
                  Theme.themeToggleBtn := Some {| Theme.textContent := Theme.moon;
                                                  Theme.aria_pressed := Some (js "false");
                                                  Theme.title := None |};
                  Theme.theme_store := fresh_storage;
                  Theme.prefers_dark := None |})))) _ _).
  reflexivity.
Defined.

(** ** Loading, clicking and loading again *)

Lemma next_theme_valid (p : Theme.page) :
  (if JSString.eqb (Theme.next_theme p) Theme.dark then Theme.dark else Theme.light)
  = Theme.next_theme p.
Proof. destruct (theme_cases p) as [[_ ->] | [_ ->]]; reflexivity. Qed.

Lemma guarded_apply_shape sun_text moon_text (t : jsstring) (p : Theme.page) :
  Theme.current_theme (Theme.Guarded.applyTheme sun_text moon_text t p)
  = (if JSString.eqb t Theme.dark then Theme.dark else Theme.light)
  /\ Theme.theme_store (Theme.Guarded.applyTheme sun_text moon_text t p)
     = Theme.theme_store p
  /\ (Theme.themeToggleBtn p <> None ->
      Theme.themeToggleBtn (Theme.Guarded.applyTheme sun_text moon_text t p) <> None).
Proof.
  unfold Theme.Guarded.applyTheme.
  destruct (JSString.eqb t Theme.dark); destruct p as [a [b |] st pd]; cbn;
    (split; [reflexivity |]); (split; [reflexivity |]); intros H; congruence.
Qed.

Lemma unguarded_apply_shape (t : jsstring) (p : Theme.page) :
  Theme.themeToggleBtn p <> None ->
  exists q, Theme.Unguarded.applyTheme t p = Theme.Finished q
    /\ Theme.current_theme q
       = (if JSString.eqb t Theme.dark then Theme.dark else Theme.light)
    /\ Theme.theme_store q = Theme.theme_store p
    /\ Theme.themeToggleBtn q <> None.
Proof.
  intros Hbtn. unfold Theme.Unguarded.applyTheme.
  destruct p as [a [b |] st pd]; [| exfalso; apply Hbtn; reflexivity].
  destruct (JSString.eqb t Theme.dark); cbn; eexists;
    (split; [reflexivity |]); (split; [reflexivity |]); (split; [reflexivity |]);
    discriminate.
Qed.

(** What start-up reads from a storage that holds one of the two themes. *)
Lemma stored_theme_is_preferred (t : jsstring) (r : Theme.page) :
  accessible (Theme.theme_store r) = true ->
  item (Theme.theme_store r) = Some t ->
  (if JSString.eqb t Theme.dark then Theme.dark else Theme.light) = t ->
  Theme.Guarded.getPreferredTheme r = t
  /\ Theme.Unguarded.getPreferredTheme r = Normal t.
Proof.
  intros Ha Hi Ht.
  unfold Theme.Guarded.getPreferredTheme, Theme.Unguarded.getPreferredTheme, getItem.
  rewrite Ha, Hi. rewrite <- Ht.
  destruct (JSString.eqb t Theme.dark); split; reflexivity.
Qed.

(** What start-up chooses depends on the storage and the system preference
    only. *)
Lemma preferred_depends_on_store (p r : Theme.page) :
  Theme.theme_store r = Theme.theme_store p ->
  Theme.prefers_dark r = Theme.prefers_dark p ->
  Theme.Guarded.getPreferredTheme r = Theme.Guarded.getPreferredTheme p
  /\ Theme.Unguarded.getPreferredTheme r = Theme.Unguarded.getPreferredTheme p.
Proof.
  intros Hs Hp.
  unfold Theme.Guarded.getPreferredTheme, Theme.Unguarded.getPreferredTheme,
    Theme.system_theme.
  rewrite Hs, Hp. split; reflexivity.
Qed.

Lemma unguarded_preferred_total (p : Theme.page) :
  accessible (Theme.theme_store p) = true ->
  exists t, Theme.Unguarded.getPreferredTheme p = Normal t.
Proof.
  intros Ha. unfold Theme.Unguarded.getPreferredTheme, getItem. rewrite Ha.
  destruct (Theme.valid_theme _); eauto.
Qed.

Lemma guarded_click_load sun_text moon_text (p : Theme.page) :
  Theme.themeToggleBtn p <> None ->
  Theme.doc (Theme.Guarded.load sun_text moon_text p)
  = Theme.Guarded.startup sun_text moon_text p
  /\ Theme.doc (Theme.Guarded.click sun_text moon_text
                  (Theme.Guarded.load sun_text moon_text p))
     = Theme.Guarded.toggle sun_text moon_text
         (Theme.Guarded.startup sun_text moon_text p).
Proof.
  intros Hbtn. unfold Theme.Guarded.click, Theme.Guarded.load.
  destruct (Theme.themeToggleBtn p); [split; reflexivity | congruence].
Qed.

Lemma guarded_startup_store sun_text moon_text (p : Theme.page) :
  Theme.theme_store (Theme.Guarded.startup sun_text moon_text p) = Theme.theme_store p.
Proof. apply guarded_apply_shape. Qed.

Lemma guarded_toggle_stores sun_text moon_text (q : Theme.page) :
  accessible (Theme.theme_store q) = true ->
  writable (Theme.theme_store q) = true ->
  Theme.current_theme (Theme.Guarded.toggle sun_text moon_text q) = Theme.next_theme q
  /\ accessible (Theme.theme_store (Theme.Guarded.toggle sun_text moon_text q)) = true
  /\ item (Theme.theme_store (Theme.Guarded.toggle sun_text moon_text q))
     = Some (Theme.next_theme q).
Proof.
  intros Ha Hw.
  destruct (guarded_apply_shape sun_text moon_text (Theme.next_theme q) q)
    as [Hcur [Hst _]].
  rewrite next_theme_valid in Hcur.
  unfold Theme.Guarded.toggle, setItem. rewrite Hst, Ha, Hw.
  split; [exact Hcur |]. split; reflexivity.
Qed.

Lemma guarded_toggle_keeps_store sun_text moon_text (q : Theme.page) :
  accessible (Theme.theme_store q) && writable (Theme.theme_store q) = false ->
  Theme.current_theme (Theme.Guarded.toggle sun_text moon_text q) = Theme.next_theme q
  /\ Theme.theme_store (Theme.Guarded.toggle sun_text moon_text q) = Theme.theme_store q.
Proof.
  intros Hno.
  destruct (guarded_apply_shape sun_text moon_text (Theme.next_theme q) q)
    as [Hcur [Hst _]].
  rewrite next_theme_valid in Hcur.
  unfold Theme.Guarded.toggle, setItem. rewrite Hst, Hno.
  split; [exact Hcur | exact Hst].
Qed.

Lemma guarded_startup_shows sun_text moon_text (t : jsstring) (r : Theme.page) :
  accessible (Theme.theme_store r) = true ->
  item (Theme.theme_store r) = Some t ->
  (if JSString.eqb t Theme.dark then Theme.dark else Theme.light) = t ->
  Theme.current_theme (Theme.Guarded.startup sun_text moon_text r) = t.
Proof.
  intros Ha Hi Ht. unfold Theme.Guarded.startup.
  destruct (stored_theme_is_preferred t r Ha Hi Ht) as [-> _].
  destruct (guarded_apply_shape sun_text moon_text t r) as [-> _]. exact Ht.
Qed.

Lemma unguarded_load_shape (p : Theme.page) :
  accessible (Theme.theme_store p) = true ->
  Theme.themeToggleBtn p <> None ->
  exists q0, Theme.Unguarded.startup p = Theme.Finished q0
    /\ Theme.Unguarded.load p = {| Theme.doc := q0; Theme.listening := true |}
    /\ Theme.theme_store q0 = Theme.theme_store p
    /\ Theme.themeToggleBtn q0 <> None
    /\ (forall t, Theme.Unguarded.getPreferredTheme p = Normal t ->
          Theme.current_theme q0
          = (if JSString.eqb t Theme.dark then Theme.dark else Theme.light)).
Proof.
  intros Ha Hbtn.
  destruct (unguarded_preferred_total p Ha) as [t0 Ht0].
  destruct (unguarded_apply_shape t0 p Hbtn) as [q0 [Hq0 [Hcur [Hst0 Hbtn0]]]].
  exists q0. unfold Theme.Unguarded.load, Theme.Unguarded.startup.
  rewrite Ht0, Hq0. split; [reflexivity |]. split; [reflexivity |].
  split; [exact Hst0 |]. split; [exact Hbtn0 |].
  intros t Ht. injection Ht as <-. exact Hcur.
Qed.

Lemma unguarded_toggle_stores (q : Theme.page) :
  accessible (Theme.theme_store q) = true ->
  writable (Theme.theme_store q) = true ->
  Theme.themeToggleBtn q <> None ->
  exists q1, Theme.Unguarded.toggle q = Theme.Finished q1
    /\ Theme.current_theme q1 = Theme.next_theme q
    /\ accessible (Theme.theme_store q1) = true
    /\ item (Theme.theme_store q1) = Some (Theme.next_theme q).
Proof.
  intros Ha Hw Hbtn.
  destruct (unguarded_apply_shape (Theme.next_theme q) q Hbtn)
    as [q1 [Hq1 [Hcur [Hst _]]]].
  rewrite next_theme_valid in Hcur.
  unfold Theme.Unguarded.toggle, setItem. rewrite Hq1, Hst, Ha, Hw. cbn [andb].
  eexists. split; [reflexivity |]. split; [exact Hcur |]. split; reflexivity.
Qed.

Lemma unguarded_toggle_keeps_store (q : Theme.page) :
  accessible (Theme.theme_store q) && writable (Theme.theme_store q) = false ->
  Theme.themeToggleBtn q <> None ->
  exists q1, Theme.Unguarded.toggle q = Theme.Aborted q1
    /\ Theme.current_theme q1 = Theme.next_theme q
    /\ Theme.theme_store q1 = Theme.theme_store q.
Proof.
  intros Hno Hbtn.
  destruct (unguarded_apply_shape (Theme.next_theme q) q Hbtn)
    as [q1 [Hq1 [Hcur [Hst _]]]].
  rewrite next_theme_valid in Hcur.
  unfold Theme.Unguarded.toggle, setItem. rewrite Hq1, Hst, Hno.
  exists q1. split; [reflexivity |]. split; [exact Hcur | exact Hst].
Qed.

(** X17.  The theme survives a reload.  On a page with the button and a
    storage that grants access and accepts the write, a click on the toggle
    shows the other theme; and every page loaded afterwards on the storage
    the click left, whatever its [data-theme] attribute, its button and the
    system preference, starts with the theme the click chose.  In
    [script.js] the reloaded page needs the button. *)
Theorem theme_survives_reload sun_text moon_text (p r : Theme.page) :
  accessible (Theme.theme_store p) = true ->
  writable (Theme.theme_store p) = true ->
  Theme.themeToggleBtn p <> None ->
  (let s := Theme.Guarded.load sun_text moon_text p in
   let s' := Theme.Guarded.click sun_text moon_text s in
   Theme.current_theme (Theme.doc s') = Theme.next_theme (Theme.doc s)
   /\ (Theme.theme_store r = Theme.theme_store (Theme.doc s') ->
       Theme.current_theme (Theme.doc (Theme.Guarded.load sun_text moon_text r))
       = Theme.current_theme (Theme.doc s')))
  /\ (let s := Theme.Unguarded.load p in
      let s' := Theme.Unguarded.click s in
      Theme.current_theme (Theme.doc s') = Theme.next_theme (Theme.doc s)
      /\ (Theme.theme_store r = Theme.theme_store (Theme.doc s') ->
          Theme.themeToggleBtn r <> None ->
          Theme.listening (Theme.Unguarded.load r) = true
          /\ Theme.current_theme (Theme.doc (Theme.Unguarded.load r))
             = Theme.current_theme (Theme.doc s'))).
Proof.
  intros Ha Hw Hbtn. cbv zeta. split.
  - destruct (guarded_click_load sun_text moon_text p Hbtn) as [-> ->].
    pose proof (guarded_startup_store sun_text moon_text p) as Hst0.
    destruct (guarded_toggle_stores sun_text moon_text
                (Theme.Guarded.startup sun_text moon_text p))
      as [Hcur [Hacc Hitem]]; [rewrite Hst0; exact Ha | rewrite Hst0; exact Hw |].
    split; [exact Hcur |].
    intros Hr. unfold Theme.Guarded.load. cbn [Theme.doc].
    rewrite Hcur. apply guarded_startup_shows.
    + rewrite Hr. exact Hacc.
    + rewrite Hr. exact Hitem.
    + apply next_theme_valid.
  - destruct (unguarded_load_shape p Ha Hbtn) as [q0 [_ [Hload [Hst0 [Hbtn0 _]]]]].
    rewrite Hload. unfold Theme.Unguarded.click. cbn [Theme.listening Theme.doc].
    destruct (unguarded_toggle_stores q0) as [q1 [Hq1 [Hcur [Hacc Hitem]]]];
      [rewrite Hst0; exact Ha | rewrite Hst0; exact Hw | exact Hbtn0 |].
    rewrite Hq1. cbn [Theme.page_of].
    split; [exact Hcur |].
    intros Hr Hbtnr.
    assert (Har : accessible (Theme.theme_store r) = true) by (rewrite Hr; exact Hacc).
    destruct (unguarded_load_shape r Har Hbtnr) as [q2 [_ [Hload2 [_ [_ Hshow]]]]].
    rewrite Hload2. cbn [Theme.listening Theme.doc]. split; [reflexivity |].
    destruct (stored_theme_is_preferred (Theme.next_theme q0) r Har) as [_ Hpref].
    + rewrite Hr. exact Hitem.
    + apply next_theme_valid.
    + rewrite (Hshow _ Hpref), next_theme_valid, Hcur. reflexivity.
Qed.

Lemma theme_survives_reload_witness :
  Theme.listening
    (Theme.Unguarded.load
       {| Theme.data_theme := None;
          Theme.themeToggleBtn := Some {| Theme.textContent := Theme.moon;
                                          Theme.aria_pressed := None;
                                          Theme.title := None |};
          Theme.theme_store := {| accessible := true; writable := true;
                                  item := Some Theme.dark |};
          Theme.prefers_dark := Some false |}) = true
  /\ Theme.current_theme
       (Theme.doc
          (Theme.Unguarded.load
             {| Theme.data_theme := None;
                Theme.themeToggleBtn := Some {| Theme.textContent := Theme.moon;
                                                Theme.aria_pressed := None;
                                                Theme.title := None |};
                Theme.theme_store := {| accessible := true; writable := true;
                                        item := Some Theme.dark |};
                Theme.prefers_dark := Some false |}))
     = Theme.current_theme
         (Theme.doc
            (Theme.Unguarded.click
               (Theme.Unguarded.load
                  {| Theme.data_theme := None;
                     Theme.themeToggleBtn := Some {| Theme.textContent := Theme.moon;
                                                     Theme.aria_pressed := None;
                                                     Theme.title := None |};
                     Theme.theme_store := fresh_storage;
                     Theme.prefers_dark := Some false |}))).
Proof.
  refine (proj2 (proj2 (theme_survives_reload Theme.sun Theme.moon
                          {| Theme.data_theme := None;
                             Theme.themeToggleBtn :=
                               Some {| Theme.textContent := Theme.moon;
                                       Theme.aria_pressed := None;
                                       Theme.title := None |};
                             Theme.theme_store := fresh_storage;
                             Theme.prefers_dark := Some false |}
                          {| Theme.data_theme := None;
                             Theme.themeToggleBtn :=
                               Some {| Theme.textContent := Theme.moon;
                                       Theme.aria_pressed := None;
                                       Theme.title := None |};
                             Theme.theme_store := {| accessible := true; writable := true;
                                                     item := Some Theme.dark |};
                             Theme.prefers_dark := Some false |} _ _ _)) _ _);
    reflexivity || discriminate.
Defined.

(** X19.  A storage that refuses access.  The guarded variants carry on:
    start-up applies the system preference and, where the button exists, a
    click still flips the theme, storing nothing.  In [script.js] start-up
    throws before any theme is applied and before the click handler is
    registered: the page stays as it was and clicks on the toggle do
    nothing, however many. *)
Theorem theme_without_storage sun_text moon_text (p : Theme.page) :
  accessible (Theme.theme_store p) = false ->
  Theme.doc (Theme.Guarded.load sun_text moon_text p)
    = Theme.Guarded.applyTheme sun_text moon_text (Theme.system_theme p) p
  /\ (Theme.themeToggleBtn p <> None ->
      let s := Theme.Guarded.load sun_text moon_text p in
      let s' := Theme.Guarded.click sun_text moon_text s in
      Theme.current_theme (Theme.doc s') = Theme.next_theme (Theme.doc s)
      /\ Theme.theme_store (Theme.doc s') = Theme.theme_store p)
  /\ Theme.Unguarded.load p = {| Theme.doc := p; Theme.listening := false |}
  /\ (forall clicks,
        Nat.iter clicks Theme.Unguarded.click (Theme.Unguarded.load p)
        = {| Theme.doc := p; Theme.listening := false |}).
Proof.
  intros Ha.
  assert (Hload : Theme.Unguarded.load p
                  = {| Theme.doc := p; Theme.listening := false |}).
  { unfold Theme.Unguarded.load, Theme.Unguarded.startup,
      Theme.Unguarded.getPreferredTheme, getItem.
    rewrite Ha. reflexivity. }
  split; [| split; [| split]].
  - unfold Theme.Guarded.load, Theme.Guarded.startup,
      Theme.Guarded.getPreferredTheme, getItem.
    rewrite Ha. reflexivity.
  - intros Hbtn. cbv zeta.
    destruct (guarded_click_load sun_text moon_text p Hbtn) as [-> ->].
    pose proof (guarded_startup_store sun_text moon_text p) as Hst0.
    destruct (guarded_toggle_keeps_store sun_text moon_text
                (Theme.Guarded.startup sun_text moon_text p)) as [Hcur Hst].
    + rewrite Hst0, Ha. reflexivity.
    + split; [exact Hcur |]. rewrite Hst. exact Hst0.
  - exact Hload.
  - intros clicks. rewrite Hload.
    induction clicks as [| n IH]; [reflexivity |].
    rewrite Nat.iter_succ, IH. reflexivity.
Qed.

Lemma theme_without_storage_witness :
  Theme.Unguarded.load
    {| Theme.data_theme := None;
       Theme.themeToggleBtn := Some {| Theme.textContent := Theme.moon;
                                       Theme.aria_pressed := None;
                                       Theme.title := None |};
       Theme.theme_store := {| accessible := false; writable := false; item := None |};
       Theme.prefers_dark := Some true |}
  = {| Theme.doc :=
         {| Theme.data_theme := None;
            Theme.themeToggleBtn := Some {| Theme.textContent := Theme.moon;
                                            Theme.aria_pressed := None;
                                            Theme.title := None |};
            Theme.theme_store := {| accessible := false; writable := false;
                                    item := None |};
            Theme.prefers_dark := Some true |};
       Theme.listening := false |}.
Proof.
  refine (proj1 (proj2 (proj2
            (theme_without_storage Theme.sun_extended Theme.moon_extended
               {| Theme.data_theme := None;
                  Theme.themeToggleBtn := Some {| Theme.textContent := Theme.moon;
                                                  Theme.aria_pressed := None;
                                                  Theme.title := None |};
                  Theme.theme_store := {| accessible := false; writable := false;
                                          item := None |};
                  Theme.prefers_dark := Some true |} _)))).
  reflexivity.
Defined.

(** X20.  A storage that can be read but refuses the write.  On a page with
    the button a click on the toggle flips the theme shown and leaves the
    storage as it was, so a page loaded afterwards on that storage, with the
    same system preference, starts with the theme the first page started
    with: the choice is lost.  In [script.js] the exception leaves the click
    handler, after the theme has been applied, and the handler stays
    registered. *)
Theorem theme_write_refused sun_text moon_text (p r : Theme.page) :
  accessible (Theme.theme_store p) = true ->
  writable (Theme.theme_store p) = false ->
  Theme.themeToggleBtn p <> None ->
  (let s := Theme.Guarded.load sun_text moon_text p in
   let s' := Theme.Guarded.click sun_text moon_text s in
   Theme.current_theme (Theme.doc s') = Theme.next_theme (Theme.doc s)
   /\ Theme.theme_store (Theme.doc s') = Theme.theme_store p
   /\ (Theme.theme_store r = Theme.theme_store (Theme.doc s') ->
       Theme.prefers_dark r = Theme.prefers_dark p ->
       Theme.current_theme (Theme.doc (Theme.Guarded.load sun_text moon_text r))
       = Theme.current_theme (Theme.doc s)))
  /\ (let s := Theme.Unguarded.load p in
      let s' := Theme.Unguarded.click s in
      Theme.listening s = true
      /\ Theme.listening s' = true
      /\ Theme.Unguarded.toggle (Theme.doc s) = Theme.Aborted (Theme.doc s')
      /\ Theme.current_theme (Theme.doc s') = Theme.next_theme (Theme.doc s)
      /\ Theme.theme_store (Theme.doc s') = Theme.theme_store p
      /\ (Theme.theme_store r = Theme.theme_store (Theme.doc s') ->
          Theme.prefers_dark r = Theme.prefers_dark p ->
          Theme.themeToggleBtn r <> None ->
          Theme.current_theme (Theme.doc (Theme.Unguarded.load r))
          = Theme.current_theme (Theme.doc s))).
Proof.
  intros Ha Hw Hbtn. cbv zeta. split.
  - destruct (guarded_click_load sun_text moon_text p Hbtn) as [-> ->].
    pose proof (guarded_startup_store sun_text moon_text p) as Hst0.
    destruct (guarded_toggle_keeps_store sun_text moon_text
                (Theme.Guarded.startup sun_text moon_text p)) as [Hcur Hst].
    + rewrite Hst0, Ha, Hw. reflexivity.
    + split; [exact Hcur |]. split; [rewrite Hst; exact Hst0 |].
      intros Hr Hpd. rewrite Hst, Hst0 in Hr.
      destruct (preferred_depends_on_store p r Hr Hpd) as [Hpref _].
      unfold Theme.Guarded.load, Theme.Guarded.startup. cbn [Theme.doc].
      rewrite Hpref.
      destruct (guarded_apply_shape sun_text moon_text
                  (Theme.Guarded.getPreferredTheme p) r) as [-> _].
      destruct (guarded_apply_shape sun_text moon_text
                  (Theme.Guarded.getPreferredTheme p) p) as [-> _].
      reflexivity.
  - destruct (unguarded_load_shape p Ha Hbtn) as [q0 [_ [Hload [Hst0 [Hbtn0 Hshow0]]]]].
    rewrite Hload. unfold Theme.Unguarded.click. cbn [Theme.listening Theme.doc].
    destruct (unguarded_toggle_keeps_store q0) as [q1 [Hq1 [Hcur Hst]]];
      [rewrite Hst0, Ha, Hw; reflexivity | exact Hbtn0 |].
    rewrite Hq1. cbn [Theme.page_of].
    split; [reflexivity |]. split; [reflexivity |]. split; [reflexivity |].
    split; [exact Hcur |]. split; [rewrite Hst; exact Hst0 |].
    intros Hr Hpd Hbtnr. rewrite Hst, Hst0 in Hr.
    assert (Har : accessible (Theme.theme_store r) = true) by (rewrite Hr; exact Ha).
    destruct (unguarded_load_shape r Har Hbtnr) as [q2 [_ [Hload2 [_ [_ Hshow2]]]]].
    rewrite Hload2. cbn [Theme.doc].
    destruct (unguarded_preferred_total p Ha) as [t0 Ht0].
    destruct (preferred_depends_on_store p r Hr Hpd) as [_ Hpref].
    rewrite (Hshow2 t0), (Hshow0 t0); [reflexivity | exact Ht0 |].
    rewrite Hpref. exact Ht0.
Qed.

Lemma theme_write_refused_witness :
  Theme.Unguarded.toggle
    (Theme.doc
       (Theme.Unguarded.load
          {| Theme.data_theme := None;
             Theme.themeToggleBtn := Some {| Theme.textContent := Theme.moon;
                                             Theme.aria_pressed := None;
                                             Theme.title := None |};
             Theme.theme_store := {| accessible := true; writable := false;
                                     item := None |};
             Theme.prefers_dark := Some false |}))
  = Theme.Aborted
      (Theme.doc
         (Theme.Unguarded.click
            (Theme.Unguarded.load
               {| Theme.data_theme := None;
                  Theme.themeToggleBtn := Some {| Theme.textContent := Theme.moon;
                                                  Theme.aria_pressed := None;
                                                  Theme.title := None |};
                  Theme.theme_store := {| accessible := true; writable := false;
                                          item := None |};
                  Theme.prefers_dark := Some false |}))).
Proof.
  refine (proj1 (proj2 (proj2 (proj2
            (theme_write_refused Theme.sun Theme.moon
               {| Theme.data_theme := None;
                  Theme.themeToggleBtn := Some {| Theme.textContent := Theme.moon;
                                                  Theme.aria_pressed := None;
                                                  Theme.title := None |};
                  Theme.theme_store := {| accessible := true; writable := false;
                                          item := None |};
                  Theme.prefers_dark := Some false |}
               {| Theme.data_theme := None;
                  Theme.themeToggleBtn := None;
                  Theme.theme_store := fresh_storage;
                  Theme.prefers_dark := None |} _ _ _))))); reflexivity || discriminate.
Defined.
